(** * costs_report: the billing table of [costs_report.py]

    A shallow embedding of the report builder of
    [src/costs_report/costs_report.py] and the properties proved of it:
    the currency formatter [pprint_currency], the trend row renderer
    [_render_row], the rows of [create_billing_table] with their total,
    the month window of [get_last_four_months_of_bills] and its loop over
    the reply of the cost service, the loop of [get_elastic_cloud_bill]
    over the date blocks, and the title of the report that [main] posts.

    Python values are modelled as the interpreter has them:
    - a [float] is an IEEE 754 binary64 number, here Rocq's primitive
      [float], whose operations round to nearest, ties to even;
    - a [str] is a sequence of Unicode code points;
    - a [dict] is the list of its items in insertion order;
    - a raised exception is the [Raise] branch of [result].

    The cost service, the secrets, the chat hook and the table printer are
    outside: the amounts come in as [BillingData], the rows go out as
    [billing_rows].  The reply of the cost service comes in as a list of
    entries, read with the library's date parser and [float], and the
    billing API of Elastic Cloud as a function from a range of dates to
    its reply. *)

From Stdlib Require Import String Ascii.
From Stdlib Require Import ZArith NArith Bool Lia.
From Stdlib Require DecimalFacts DecimalPos DecimalN.
From Stdlib Require Import PrimFloat FloatOps SpecFloat FloatAxioms.
From Stdlib Require Import Permutation Sorted.
From Stdlib Require Import List.
Import ListNotations.

(* ================================================================= *)
(** ** Exceptions *)

Module Py.

Inductive exn : Set :=
| ZeroDivisionError
| ValueError
| OverflowError
| TypeError
| IndexError
| RecursionError.

Inductive result (A : Type) : Type :=
| Ok (a : A)
| Raise (e : exn).

Arguments Ok {A} a.
Arguments Raise {A} e.

Definition bind {A B : Type} (r : result A) (k : A -> result B) : result B :=
  match r with
  | Ok a => k a
  | Raise e => Raise e
  end.

(** A list comprehension whose element expression may raise: elements are
    evaluated left to right and the first exception aborts the whole. *)
Fixpoint mapM {A B : Type} (f : A -> result B) (l : list A) : result (list B) :=
  match l with
  | [] => Ok []
  | a :: l' =>
      bind (f a) (fun b => bind (mapM f l') (fun bs => Ok (b :: bs)))
  end.

End Py.
Import Py.

Notation "x <- r ;; k" := (bind r (fun x => k))
  (at level 61, r at next level, right associativity).
Notation "' p <- r ;; k" := (bind r (fun x => let 'p := x in k))
  (at level 61, p pattern, r at next level, right associativity).

(* ================================================================= *)
(** ** Strings *)

(** A Python [str] is a sequence of code points. *)
Definition char : Set := N.
Definition str : Set := list char.

(** An ASCII literal as a [str]. *)
Definition lit (s : string) : str := map N_of_ascii (list_ascii_of_string s).

Definition minus : char := 45%N.   (* '-' *)
Definition comma : char := 44%N.   (* ',' *)
Definition dot : char := 46%N.     (* '.' *)
Definition space : char := 32%N.   (* ' ' *)
Definition percent : char := 37%N. (* '%' *)
Definition arrow_down : char := 0x2193%N. (* the downwards arrow of the decrease cell *)
Definition arrow_up : char := 0x219F%N.   (* the two-stroke upwards arrow of the increase cell *)

Fixpoint str_eqb (s t : str) : bool :=
  match s, t with
  | [], [] => true
  | a :: s', b :: t' => N.eqb a b && str_eqb s' t'
  | _, _ => false
  end.

(** The first code point of every block of decimal digits (general category
    Nd) and the block's length, as in the Unicode database of CPython 3.11
    (Unicode 14.0).  [\d] in a [str] pattern matches exactly these. *)
Definition Nd_blocks : list (N * N) :=
  [ (0x30, 10); (0x660, 10); (0x6F0, 10); (0x7C0, 10); (0x966, 10);
    (0x9E6, 10); (0xA66, 10); (0xAE6, 10); (0xB66, 10); (0xBE6, 10);
    (0xC66, 10); (0xCE6, 10); (0xD66, 10); (0xDE6, 10); (0xE50, 10);
    (0xED0, 10); (0xF20, 10); (0x1040, 10); (0x1090, 10); (0x17E0, 10);
    (0x1810, 10); (0x1946, 10); (0x19D0, 10); (0x1A80, 10); (0x1A90, 10);
    (0x1B50, 10); (0x1BB0, 10); (0x1C40, 10); (0x1C50, 10); (0xA620, 10);
    (0xA8D0, 10); (0xA900, 10); (0xA9D0, 10); (0xA9F0, 10); (0xAA50, 10);
    (0xABF0, 10); (0xFF10, 10); (0x104A0, 10); (0x10D30, 10); (0x11066, 10);
    (0x110F0, 10); (0x11136, 10); (0x111D0, 10); (0x112F0, 10); (0x11450, 10);
    (0x114D0, 10); (0x11650, 10); (0x116C0, 10); (0x11730, 10); (0x118E0, 10);
    (0x11950, 10); (0x11C50, 10); (0x11D50, 10); (0x11DA0, 10); (0x16A60, 10);
    (0x16AC0, 10); (0x16B50, 10); (0x1D7CE, 50); (0x1E140, 10); (0x1E2F0, 10);
    (0x1E950, 10); (0x1FBF0, 10) ]%N.

Definition isdecimal (c : char) : bool :=
  existsb (fun b => (fst b <=? c)%N && (c <? fst b + snd b)%N) Nd_blocks.

(** [s.replace(",", "")] *)
Definition remove_commas (s : str) : str :=
  filter (fun c => negb (N.eqb c comma)) s.

(** Decimal digits of a natural number, most significant first. *)
Fixpoint digits_of_uint (d : Decimal.uint) : str :=
  match d with
  | Decimal.Nil => []
  | Decimal.D0 d' => 48%N :: digits_of_uint d'
  | Decimal.D1 d' => 49%N :: digits_of_uint d'
  | Decimal.D2 d' => 50%N :: digits_of_uint d'
  | Decimal.D3 d' => 51%N :: digits_of_uint d'
  | Decimal.D4 d' => 52%N :: digits_of_uint d'
  | Decimal.D5 d' => 53%N :: digits_of_uint d'
  | Decimal.D6 d' => 54%N :: digits_of_uint d'
  | Decimal.D7 d' => 55%N :: digits_of_uint d'
  | Decimal.D8 d' => 56%N :: digits_of_uint d'
  | Decimal.D9 d' => 57%N :: digits_of_uint d'
  end.

Definition decimal_of_N (n : N) : str := digits_of_uint (N.to_uint n).

(* ================================================================= *)
(** ** The regular expression of the formatter

    [re.sub(r"^(-?\d+)(\d{3})", r"\g<1>,\g<2>", orig)].  The pattern is
    anchored at the start of the string and the module is used without
    flags, so at most one match is replaced, the one at position 0. *)

(** [(\d{3})]: three decimal digits, and what follows them. *)
Definition three_digits (s : str) : option (str * str) :=
  match s with
  | a :: b :: c :: rest =>
      if isdecimal a && isdecimal b && isdecimal c
      then Some ([a; b; c], rest) else None
  | _ => None
  end.

(** [\d+] followed by [(\d{3})]: the quantifier is greedy, so the matcher
    first tries to take one more digit and only when that fails gives the
    position back to the three-digit group. *)
Fixpoint digits_then_three (s : str) : option (str * str * str) :=
  match s with
  | d :: s' =>
      if isdecimal d then
        match digits_then_three s' with
        | Some (g1, g2, rest) => Some (d :: g1, g2, rest)
        | None =>
            match three_digits s' with
            | Some (g2, rest) => Some ([d], g2, rest)
            | None => None
            end
        end
      else None
  | [] => None
  end.

(** [^(-?\d+)(\d{3})]: group 1, group 2 and the unmatched rest.  The
    optional sign is greedy as well: it is taken when present and given
    back when the digits do not follow. *)
Definition match_groups (s : str) : option (str * str * str) :=
  match s with
  | c :: s' =>
      if N.eqb c minus then
        match digits_then_three s' with
        | Some (g1, g2, rest) => Some (c :: g1, g2, rest)
        | None => digits_then_three s
        end
      else digits_then_three s
  | [] => None
  end.

Definition re_sub (orig : str) : str :=
  match match_groups orig with
  | Some (g1, g2, rest) => g1 ++ comma :: g2 ++ rest
  | None => orig
  end.

(* ================================================================= *)
(** ** Floats *)

Definition float_of_Z (z : Z) : float :=
  SF2Prim (binary_normalize prec emax z 0 false).

Definition sign_str (s : bool) : str := if s then [minus] else [].

(** The value [m * 2^e] in hundredths, rounded to the nearest integer, ties
    to even. *)
Definition hundredths (m : positive) (e : Z) : N :=
  match e with
  | Zneg p =>
      let num := (Npos m * 100)%N in
      let den := N.shiftl 1 (Npos p) in
      let q := (num / den)%N in
      let r := (num mod den)%N in
      match (2 * r ?= den)%N with
      | Lt => q
      | Gt => N.succ q
      | Eq => if N.even q then q else N.succ q
      end
  | _ => (N.shiftl (Npos m) (Z.to_N e) * 100)%N
  end.

Definition two_digits (n : N) : str :=
  if (n <? 10)%N then 48%N :: decimal_of_N n else decimal_of_N n.

(** ["%.2f" % v] *)
Definition format_2f (v : float) : str :=
  match Prim2SF v with
  | S754_nan => lit "nan"
  | S754_infinity s => sign_str s ++ lit "inf"
  | S754_zero s => sign_str s ++ lit "0.00"
  | S754_finite s m e =>
      let h := hundredths m e in
      sign_str s ++ decimal_of_N (h / 100) ++ dot :: two_digits (h mod 100)
  end.

(** [int(x)]: truncation toward zero. *)
Definition py_int (x : float) : result Z :=
  match Prim2SF x with
  | S754_nan => Raise ValueError
  | S754_infinity _ => Raise OverflowError
  | S754_zero _ => Ok 0%Z
  | S754_finite s m e =>
      let a := Z.shiftl (Zpos m) e in
      Ok (if s then (- a)%Z else a)
  end.

(** The floor of a float, the integer the specification names. *)
Definition math_floor (x : float) : result Z :=
  match Prim2SF x with
  | S754_nan => Raise ValueError
  | S754_infinity _ => Raise OverflowError
  | S754_zero _ => Ok 0%Z
  | S754_finite s m e => Ok (Z.shiftl (if s then Zneg m else Zpos m) e)
  end.

(** [x / y] on floats. *)
Definition truediv (x y : float) : result float :=
  if (y =? 0)%float then Raise ZeroDivisionError else Ok (x / y)%float.

(** [f"{n:2d}"] *)
Definition format_2d (n : Z) : str :=
  let body :=
    match n with
    | Zneg p => minus :: decimal_of_N (Npos p)
    | _ => decimal_of_N (Z.to_N n)
    end in
  repeat space (2 - length body) ++ body.

(* ================================================================= *)
(** ** The currency formatter *)

(** The argument of [pprint_currency]. *)
Inductive value : Set :=
| VFloat (f : float)
| VStr (s : str)
| VInt (n : Z).

(** The string the regular expression is applied to: a float is formatted
    with two decimals, anything else is handed to [re.sub] as it is, which
    raises for what is not a string. *)
Definition to_orig (v : value) : result str :=
  match v with
  | VFloat f => Ok (format_2f f)
  | VStr s => Ok s
  | VInt _ => Raise TypeError
  end.

(** [pprint_currency] calls itself on the string it produced until the
    substitution leaves it unchanged.  [depth] bounds the number of nested
    calls; [None] is a call chain deeper than that. *)
Fixpoint pprint_currency_depth (depth : nat) (v : value) : option (result str) :=
  match depth with
  | O => None
  | S d =>
      match to_orig v with
      | Raise e => Some (Raise e)
      | Ok orig =>
          let new := re_sub orig in
          if str_eqb orig new then Some (Ok new)
          else pprint_currency_depth d (VStr new)
      end
  end.

(** Nested calls that are always enough: there are at most as many as the
    string is long, see [calls_needed_le].  With this bound
    [pprint_currency] below is the formatter where the recursion limit of
    the interpreter is out of reach, which it is for every float (one has
    at most 309 digits before the point, 103 calls); the limit itself is
    in [pprint_currency_limited]. *)
Definition call_bound (v : value) : nat :=
  match to_orig v with
  | Ok orig => S (length orig)
  | Raise _ => 1
  end.

Definition pprint_currency (v : value) : result str :=
  match pprint_currency_depth (call_bound v) v with
  | Some r => r
  | None => Raise RecursionError
  end.

(** [pprint_currency] as the interpreter runs it.  [frames] is the number
    of nested calls of the formatter that the recursion limit still
    allows where it is called (the limit is 1000 frames unless it was
    changed, less those already in use); a chain of calls deeper than that
    raises [RecursionError]. *)
Definition pprint_currency_limited (frames : nat) (v : value) : result str :=
  match pprint_currency_depth frames v with
  | Some r => r
  | None => Raise RecursionError
  end.

(** The digits at the head of a string, and the digits the pattern can see:
    those after the optional sign.  Every substitution shortens the latter by
    three. *)
Fixpoint lead_digits (s : str) : nat :=
  match s with
  | d :: s' => if isdecimal d then S (lead_digits s') else 0
  | [] => 0
  end.

Definition digit_run (s : str) : nat :=
  match s with
  | c :: s' => if N.eqb c minus then lead_digits s' else lead_digits s
  | [] => 0
  end.

(** The number of calls [pprint_currency] makes on a string: one, and one
    more for every comma it inserts. *)
Definition calls_needed (s : str) : nat := S ((digit_run s - 1) / 3).

(* ================================================================= *)
(** ** Parsing a cell back into a float *)

Definition ascii_digit (c : char) : option N :=
  if ((48 <=? c) && (c <=? 57))%N then Some (c - 48)%N else None.

(** The digits at the head of [s] appended to the numeral [acc], how many
    they are, and the rest of the string. *)
Fixpoint read_digits (acc : N) (s : str) : N * nat * str :=
  match s with
  | c :: s' =>
      match ascii_digit c with
      | Some d =>
          let '(n, k, rest) := read_digits (acc * 10 + d) s' in (n, S k, rest)
      | None => (acc, O, s)
      end
  | [] => (acc, O, [])
  end.

(** The float nearest to [n / 10^k], ties to even. *)
Definition float_of_decimal (neg : bool) (n : N) (k : nat) : float :=
  match n with
  | N0 => SF2Prim (S754_zero neg)
  | Npos m =>
      SF2Prim (SFdiv prec emax (S754_finite neg m 0)
                 (S754_finite false (Z.to_pos (10 ^ Z.of_nat k)) 0))
  end.

(** [float(s)] on the strings the formatter writes: an optional sign, then
    [inf], [nan], or digits with an optional point and more digits.  Python
    reads more than these (exponents, blanks, underscores, other scripts'
    digits); they do not occur in a cell and are answered with [ValueError]
    here. *)
Definition py_float (s : str) : result float :=
  let '(neg, body) :=
    match s with
    | c :: s' => if N.eqb c minus then (true, s') else (false, s)
    | [] => (false, [])
    end in
  if str_eqb body (lit "inf") then Ok (if neg then neg_infinity else infinity)
  else if str_eqb body (lit "nan") then Ok nan
  else
    let '(n1, k1, rest) := read_digits 0 body in
    let '(n2, k2, rest') :=
      match rest with
      | c :: r => if N.eqb c dot then read_digits n1 r else (n1, O, rest)
      | [] => (n1, O, [])
      end in
    match rest', (k1 + k2)%nat with
    | [], S _ => Ok (float_of_decimal neg n2 k2)
    | _, _ => Raise ValueError
    end.

(* ================================================================= *)
(** ** Sorting *)

Section Sorted.

Variable A : Type.
Variable ltb : A -> A -> bool.

(** [x] stood before every element of [l] in the input: it moves behind
    the elements that are smaller and stays in front of its equals. *)
Fixpoint insert (x : A) (l : list A) : list A :=
  match l with
  | [] => [x]
  | y :: l' => if ltb y x then y :: insert x l' else x :: l
  end.

(** [sorted(l)]: ascending and stable.  This is the one stable ordering
    of [l] whenever [ltb] is a strict weak order, which only a NaN among
    float keys can break. *)
Fixpoint sorted (l : list A) : list A :=
  match l with
  | [] => []
  | x :: l' => insert x (sorted l')
  end.

End Sorted.

Arguments insert {A} ltb x l.
Arguments sorted {A} ltb l.

(* ================================================================= *)
(** ** Billing data *)

(** [(year, month)] *)
Definition MonthKey : Set := (Z * Z)%type.

(** The items of a [dict] from month to amount, in insertion order. *)
Definition AccountBills : Set := list (MonthKey * float).

(** The items of the [dict] from account name to its bills. *)
Definition BillingData : Set := list (str * AccountBills).

(** The five cells of a table row. *)
Definition Row : Set := list str.

Definition key_eqb (a b : MonthKey) : bool :=
  ((fst a =? fst b) && (snd a =? snd b))%Z.

Definition key_ltb (a b : MonthKey) : bool :=
  ((fst a <? fst b) || ((fst a =? fst b) && (snd a <? snd b)))%Z.

(** [<] on the items [((year, month), amount)]: tuples compare by their
    first differing component. *)
Definition item_ltb (a b : MonthKey * float) : bool :=
  if key_eqb (fst a) (fst b) then (snd a <? snd b)%float
  else key_ltb (fst a) (fst b).

(** [sum(values)]: the total starts at the int 0 and the floats are added
    to it from left to right, each addition rounded.  (From CPython 3.12 on
    [sum] also carries a correction for these roundings; the sums of the
    examples below round at most once and are the same with it.) *)
Definition py_sum (values : list float) : float :=
  fold_left PrimFloat.add values 0%float.

Definition average (values : list float) : result float :=
  match length values with
  | O => Raise ZeroDivisionError
  | S _ => Ok (py_sum values / float_of_Z (Z.of_nat (length values)))%float
  end.

(* ================================================================= *)
(** ** The trend row renderer *)

(** [*prev_months, this_month = l] *)
Definition unpack_last {A : Type} (l : list A) : result (list A * A) :=
  match rev l with
  | [] => Raise ValueError
  | x :: r => Ok (rev r, x)
  end.

Definition nonzero (total : float) : bool := negb (total =? 0)%float.

(** [f"↓ {reduction:2d}%"] and [f"↟↟ {extra_spend:2d}%"] *)
Definition down_cell (reduction : Z) : str :=
  arrow_down :: space :: format_2d reduction ++ [percent].

Definition up_cell (extra_spend : Z) : str :=
  arrow_up :: arrow_up :: space :: format_2d extra_spend ++ [percent].

(** 0.95 and 1.05 as the floats the literals denote. *)
Definition f0_95 : float := 0x1.e666666666666p-1%float.
Definition f1_05 : float := 0x1.0cccccccccccdp+0%float.

(** The [if] / [elif] / [else] of [_render_row]: the cells [gain], [loss]. *)
Definition trend_cells (prev_month_average this_month_total : float)
  : result (str * str) :=
  if (this_month_total <? prev_month_average * f0_95)%float then
    q <- truediv this_month_total prev_month_average ;;
    reduction <- py_int ((1 - q) * 100)%float ;;
    Ok (down_cell reduction, [])
  else if (prev_month_average * f1_05 <=? this_month_total)%float then
    q <- truediv this_month_total prev_month_average ;;
    extra_spend <- py_int ((q - 1) * 100)%float ;;
    Ok ([], up_cell extra_spend)
  else Ok ([], []).

Definition _render_row (label : str) (per_month_bills : AccountBills)
  : result Row :=
  ' (prev_months, this_month) <- unpack_last (sorted item_ltb per_month_bills) ;;
  prev_month_average <- average (filter nonzero (map snd prev_months)) ;;
  let this_month_total := snd this_month in
  ' (gain, loss) <- trend_cells prev_month_average this_month_total ;;
  a <- pprint_currency (VFloat prev_month_average) ;;
  b <- pprint_currency (VFloat this_month_total) ;;
  Ok [label; a; b; gain; loss].

(* ================================================================= *)
(** ** The table assembler *)

Fixpoint foldM {A S : Type} (f : S -> A -> result S) (l : list A) (s : S)
  : result S :=
  match l with
  | [] => Ok s
  | a :: l' => s' <- f s a ;; foldM f l' s'
  end.

(** [float(r[2].replace(",", ""))] *)
Definition sort_key (r : Row) : result float :=
  match nth_error r 2 with
  | Some cell => py_float (remove_commas cell)
  | None => Raise IndexError
  end.

(** [sorted(rows, key=..., reverse=True)]: the keys are computed once, in
    the order of the rows; the result is descending and rows of equal keys
    keep their order.  This is the list Python returns when every key is
    a number; with a NaN among the keys Python's result depends on the
    comparisons its merge sort happens to make, and is not described
    here. *)
Definition sort_rows (rows : list Row) : result (list Row) :=
  keys <- mapM sort_key rows ;;
  Ok (map snd
        (sorted (fun a b => (fst b <? fst a)%float) (combine keys rows))).

(** [total_bills[month] += x] on a [defaultdict(int)] *)
Fixpoint add_to (total_bills : AccountBills) (month : MonthKey) (x : float)
  : AccountBills :=
  match total_bills with
  | [] => [(month, (0 + x)%float)]
  | (k, v) :: t =>
      if key_eqb k month then (k, (v + x)%float) :: t
      else (k, v) :: add_to t month x
  end.

(** What an account adds to the total of a month. *)
Definition backfilled (per_month_bills : AccountBills) (amount : float)
  : result float :=
  if (amount =? 0)%float
  then average (filter (fun v => (0 <? v)%float) (map snd per_month_bills))
  else Ok amount.

Definition add_account (total_bills : AccountBills)
  (per_month_bills : AccountBills) : result AccountBills :=
  foldM (fun t item =>
           x <- backfilled per_month_bills (snd item) ;;
           Ok (add_to t (fst item) x))
        per_month_bills total_bills.

Definition total_bills (billing_data : BillingData) : result AccountBills :=
  foldM (fun t account => add_account t (snd account)) billing_data [].

(** [total_bills.get(k)] *)
Fixpoint dict_get (d : AccountBills) (k : MonthKey) : option float :=
  match d with
  | [] => None
  | (k', v) :: t => if key_eqb k' k then Some v else dict_get t k
  end.

(** One more share added to a month of the total. *)
Definition add_share (acc : option float) (x : float) : option float :=
  Some (match acc with Some v => v + x | None => 0 + x end)%float.

(** Every month of every account next to the bills of its account, in the
    order the two loops of [create_billing_table] visit them. *)
Definition account_months (billing_data : BillingData)
  : list (AccountBills * (MonthKey * float)) :=
  flat_map (fun account => map (pair (snd account)) (snd account))
    billing_data.

(** One step of the two loops: the month [p] of an account added to the
    total. *)
Definition share_step (t : AccountBills)
  (p : AccountBills * (MonthKey * float)) : result AccountBills :=
  x <- backfilled (fst p) (snd (snd p)) ;; Ok (add_to t (fst (snd p)) x).

(** What the accounts add to the total of the month [k], one after the
    other. *)
Definition month_shares (billing_data : BillingData) (k : MonthKey)
  : result (list float) :=
  mapM (fun p => backfilled (fst p) (snd (snd p)))
    (filter (fun p => key_eqb (fst (snd p)) k) (account_months billing_data)).

Definition separator : Row :=
  [ lit "-------------"; lit "-------------------"; lit "----------------";
    lit "------"; lit "------" ].

(** The rows [create_billing_table] hands to the table printer. *)
Definition billing_rows (billing_data : BillingData) : result (list Row) :=
  rows <- mapM (fun account => _render_row (fst account) (snd account))
            billing_data ;;
  rows <- sort_rows rows ;;
  total <- total_bills billing_data ;;
  total_row <- _render_row (lit "TOTAL") total ;;
  Ok (rows ++ [separator; total_row]).

(** [tabulate.tabulate] is the printing library's; the table is its
    rendering of the rows. *)
Definition create_billing_table (tabulate : list Row -> str)
  (billing_data : BillingData) : result str :=
  rows <- billing_rows billing_data ;;
  Ok (tabulate rows).

(* ================================================================= *)
(** ** The month window *)

Record date : Set := mkdate { year : Z; month : Z; day : Z }.

Definition is_leap (y : Z) : bool :=
  ((y mod 4 =? 0) && (negb (y mod 100 =? 0) || (y mod 400 =? 0)))%Z.

Definition days_in_month (y m : Z) : Z :=
  if (m =? 2)%Z then (if is_leap y then 29 else 28)%Z
  else if ((m =? 4) || (m =? 6) || (m =? 9) || (m =? 11))%Z then 30%Z
  else 31%Z.

Definition valid_date (d : date) : bool :=
  ((1 <=? year d) && (year d <=? 9999) && (1 <=? month d) && (month d <=? 12)
   && (1 <=? day d) && (day d <=? days_in_month (year d) (month d)))%Z.

(** [d.replace(year=..., month=..., day=...)] *)
Definition replace (d : date) (y m dd : option Z) : result date :=
  let d' := mkdate (match y with Some v => v | None => year d end)
                   (match m with Some v => v | None => month d end)
                   (match dd with Some v => v | None => day d end) in
  if valid_date d' then Ok d' else Raise ValueError.

(** The [TimePeriod] that [get_last_four_months_of_bills] asks the cost
    service for: ([Start], [End]) computed from today's date. *)
Definition time_period (today : date) : result (date * date) :=
  this_month_start <- replace today None None (Some 1%Z) ;;
  four_months_ago <-
    (if (month this_month_start >? 4)%Z
     then replace this_month_start None (Some (month this_month_start - 4)%Z) None
     else replace this_month_start (Some (year this_month_start - 1)%Z)
            (Some (12 - month this_month_start)%Z) None) ;;
  Ok (four_months_ago, this_month_start).

(** The first day of the month [k] calendar months before the month of
    [d], as the calendar has it. *)
Definition months_before (k : Z) (d : date) : date :=
  let i := (year d * 12 + (month d - 1) - k)%Z in
  mkdate (i / 12) (i mod 12 + 1) 1.

(** The cell [pprint_currency] writes for a float; it always returns one,
    see [pprint_currency_float]. *)
Definition currency (f : float) : str :=
  match pprint_currency (VFloat f) with
  | Ok s => s
  | Raise _ => []
  end.

(* ================================================================= *)
(** ** The specification's wording, for comparison *)

(** The arithmetic mean of the totals that are not exactly zero: their sum
    and their number are gathered in one pass; [None] when every total is
    zero. *)
Fixpoint total_and_count (totals : list float) (acc : float) (n : nat)
  : float * nat :=
  match totals with
  | [] => (acc, n)
  | t :: rest =>
      if (t =? 0)%float then total_and_count rest acc n
      else total_and_count rest (acc + t)%float (S n)
  end.

Definition mean_excluding_zero (totals : list float) : option float :=
  let '(total, n) := total_and_count totals 0%float 0 in
  match n with
  | O => None
  | S _ => Some (total / float_of_Z (Z.of_nat n))%float
  end.

(** The indicator cells with the magnitude taken as a floor. *)
Definition floor_trend_cells (previous_average this_month_total : float)
  : result (str * str) :=
  if (this_month_total <? previous_average * f0_95)%float then
    q <- truediv this_month_total previous_average ;;
    m <- math_floor ((1 - q) * 100)%float ;;
    Ok (down_cell m, [])
  else if (previous_average * f1_05 <=? this_month_total)%float then
    q <- truediv this_month_total previous_average ;;
    m <- math_floor ((q - 1) * 100)%float ;;
    Ok ([], up_cell m)
  else Ok ([], []).

(** Commas between the thousands of a numeral, read from its last digit:
    one after every three digits that have more digits before them. *)
Fixpoint commas_from_right (r : str) : str :=
  match r with
  | a :: b :: c :: ((_ :: _) as more) =>
      a :: b :: c :: comma :: commas_from_right more
  | _ => r
  end.

Definition with_commas (digits : str) : str :=
  rev (commas_from_right (rev digits)).

(** The total with a zero amount replaced by the mean of the account's
    amounts that are not zero. *)
Definition nonzero_backfilled (per_month_bills : AccountBills) (amount : float)
  : result float :=
  if (amount =? 0)%float
  then average (filter nonzero (map snd per_month_bills))
  else Ok amount.

Definition nonzero_total_bills (billing_data : BillingData)
  : result AccountBills :=
  foldM (fun t account =>
           foldM (fun t item =>
                    x <- nonzero_backfilled (snd account) (snd item) ;;
                    Ok (add_to t (fst item) x))
                 (snd account) t)
        billing_data [].

(* ================================================================= *)
(** ** The order of the floats *)

(** Where a float stands among the others: its class (negative infinity,
    negative, zero, positive, positive infinity), then its exponent, then
    its mantissa, the last two counted downwards for a negative number.
    The comparison of two floats is the lexicographic comparison of these
    triples, see [SFleb_rank]. *)
Definition sf_rank (f : spec_float) : Z * Z * Z :=
  match f with
  | S754_zero _ => (0, 0, 0)%Z
  | S754_infinity s => ((if s then -2 else 2), 0, 0)%Z
  | S754_nan => (0, 0, 0)%Z
  | S754_finite s m e => if s then (-1, - e, Zneg m)%Z else (1, e, Zpos m)%Z
  end.

Definition le3 (a b : Z * Z * Z) : Prop :=
  (fst (fst a) < fst (fst b)
   \/ (fst (fst a) = fst (fst b)
       /\ (snd (fst a) < snd (fst b)
           \/ (snd (fst a) = snd (fst b) /\ snd a <= snd b))))%Z.

Definition sf_is_nan (f : spec_float) : bool :=
  match f with
  | S754_nan => true
  | _ => false
  end.

(** A row before another in the sorted table: both keys are read, and the
    first is at least the second. *)
Definition key_ge (a b : Row) : Prop :=
  exists ka kb, sort_key a = Ok ka /\ sort_key b = Ok kb
                /\ (kb <=? ka)%float = true.

(** The key of the row is a number. *)
Definition key_is_number (r : Row) : Prop :=
  exists k, sort_key r = Ok k /\ (k =? k)%float = true.

(* ================================================================= *)
(** ** Sample bills *)

(** Four months with the given amounts, January to April 2024. *)
Definition four_months (a b c d : float) : AccountBills :=
  [ ((2024, 1)%Z, a); ((2024, 2)%Z, b); ((2024, 3)%Z, c); ((2024, 4)%Z, d) ].

(** Three months at 100 and then [x]: the previous average is 100. *)
Definition after_100 (x : float) : AccountBills := four_months 100 100 100 x.

Definition jan : MonthKey := (2024, 1)%Z.
Definition feb : MonthKey := (2024, 2)%Z.
Definition mar : MonthKey := (2024, 3)%Z.

(** The two accounts of the total-row example, and the first of them with
    a month of net credit in place of a charge. *)
Definition account_A : AccountBills := [(jan, 10); (feb, 0); (mar, 10)]%float.
Definition account_B : AccountBills := [(jan, 5); (feb, 5); (mar, 5)]%float.
Definition account_A_credit : AccountBills :=
  [(jan, -10); (feb, 0); (mar, 10)]%float.

Definition f999_99 : float := 0x1.f3feb851eb852p+9%float. (* 999.99 *)

(** Three accounts, each flat over four months, at 1200, 50 and 999.99. *)
Definition account_big : str * AccountBills :=
  (lit "big", four_months 1200 1200 1200 1200).
Definition account_small : str * AccountBills :=
  (lit "small", four_months 50 50 50 50).
Definition account_mid : str * AccountBills :=
  (lit "mid", four_months f999_99 f999_99 f999_99 f999_99).

Definition f94_99 : float := 0x1.7bf5c28f5c28fp+6%float.  (* 94.99 *)
Definition f105_01 : float := 0x1.a40a3d70a3d71p+6%float. (* 105.01 *)

(* ================================================================= *)
(** ** The formatter on a string *)

(** The optional sign at the head of a string, and what follows it. *)
Definition split_sign (s : str) : bool * str :=
  match s with
  | c :: s' => if N.eqb c minus then (true, s') else (false, s)
  | [] => (false, [])
  end.

(** A string as the pattern reads it: the sign, the digits after it with
    commas between their thousands, and the rest as it is. *)
Definition grouped (s : str) : str :=
  let '(neg, body) := split_sign s in
  sign_str neg
  ++ with_commas (firstn (lead_digits body) body)
  ++ skipn (lead_digits body) body.

(** A string of [n] ones. *)
Definition ones (n : nat) : str := repeat 49%N n.

(* ================================================================= *)
(** ** Cells, rows and months *)

(** An ASCII digit, the only digits [py_float] reads. *)
Definition is_ascii_digit (c : char) : bool := ((48 <=? c) && (c <=? 57))%N.

(** The row shows the text [cell] as its amount for this month. *)
Definition shows (cell : str) (r : Row) : bool :=
  match nth_error r 2 with
  | Some c => str_eqb c cell
  | None => false
  end.

(** The number of calendar months from the month of [a] to the month of
    [b]. *)
Definition months_between (a b : date) : Z :=
  ((year b * 12 + month b) - (year a * 12 + month a))%Z.

(* ================================================================= *)
(** ** Dates as days

    [datetime] counts the days from 1 January of year 1, which is day 1,
    in the proleptic Gregorian calendar; the functions below are those of
    its module in CPython. *)

Definition _DAYS_IN_MONTH : list Z :=
  [-1; 31; 28; 31; 30; 31; 30; 31; 31; 30; 31; 30; 31]%Z.

Definition _DAYS_BEFORE_MONTH : list Z :=
  [-1; 0; 31; 59; 90; 120; 151; 181; 212; 243; 273; 304; 334]%Z.

Definition _days_before_year (y : Z) : Z :=
  let y' := (y - 1)%Z in (y' * 365 + y' / 4 - y' / 100 + y' / 400)%Z.

Definition _days_before_month (y m : Z) : Z :=
  (nth (Z.to_nat m) _DAYS_BEFORE_MONTH 0
   + (if (m >? 2) && is_leap y then 1 else 0))%Z.

Definition _ymd2ord (y m d : Z) : Z :=
  (_days_before_year y + _days_before_month y m + d)%Z.

(** [d.toordinal()] *)
Definition toordinal (d : date) : Z := _ymd2ord (year d) (month d) (day d).

Definition _DI400Y : Z := 146097.
Definition _DI100Y : Z := 36524.
Definition _DI4Y : Z := 1461.

(** The date of the day [n]: the 400-year cycle the day is in, then the
    century, the four years and the year in it, and the month from an
    estimate that is right or one too large. *)
Definition _ord2ymd (n : Z) : date :=
  let n := (n - 1)%Z in
  let n400 := (n / _DI400Y)%Z in
  let n := (n mod _DI400Y)%Z in
  let y := (n400 * 400 + 1)%Z in
  let n100 := (n / _DI100Y)%Z in
  let n := (n mod _DI100Y)%Z in
  let n4 := (n / _DI4Y)%Z in
  let n := (n mod _DI4Y)%Z in
  let n1 := (n / 365)%Z in
  let n := (n mod 365)%Z in
  let y := (y + (n100 * 100 + n4 * 4 + n1))%Z in
  if ((n1 =? 4) || (n100 =? 4))%Z then mkdate (y - 1) 12 31
  else
    let leapyear := ((n1 =? 3) && (negb (n4 =? 24) || (n100 =? 3)))%Z in
    let m := Z.shiftr (n + 50) 5 in
    let preceding :=
      (nth (Z.to_nat m) _DAYS_BEFORE_MONTH 0
       + (if (m >? 2) && leapyear then 1 else 0))%Z in
    if (preceding >? n)%Z then
      let m := (m - 1)%Z in
      let preceding :=
        (preceding
         - (nth (Z.to_nat m) _DAYS_IN_MONTH 0
            + (if (m =? 2) && leapyear then 1 else 0)))%Z in
      mkdate y m (n - preceding + 1)
    else mkdate y m (n - preceding + 1).

Definition _MAXORDINAL : Z := 3652059.

(** [d - datetime.timedelta(days=days)] *)
Definition sub_days (d : date) (days : Z) : result date :=
  let o := (toordinal d - days)%Z in
  if ((0 <? o) && (o <=? _MAXORDINAL))%Z then Ok (_ord2ymd o)
  else Raise OverflowError.

(** The last steps of [_ord2ymd]: the month and the day of the day [n] of
    the year [y], counted from 0, from an estimate of the month that is
    right or one too large. *)
Definition month_day_of (y : Z) (leapyear : bool) (n : Z) : date :=
  let m := Z.shiftr (n + 50) 5 in
  let preceding :=
    (nth (Z.to_nat m) _DAYS_BEFORE_MONTH 0
     + (if (m >? 2) && leapyear then 1 else 0))%Z in
  if (preceding >? n)%Z then
    let m := (m - 1)%Z in
    let preceding :=
      (preceding
       - (nth (Z.to_nat m) _DAYS_IN_MONTH 0
          + (if (m =? 2) && leapyear then 1 else 0)))%Z in
    mkdate y m (n - preceding + 1)
  else mkdate y m (n - preceding + 1).

(** The day [d] of the month [m] is found again from its number in a
    year, leap or not. *)
Definition month_day_check (leapyear : bool) (m d : Z) : bool :=
  let dim :=
    (if (m =? 2) then (if leapyear then 29 else 28)
     else if ((m =? 4) || (m =? 6) || (m =? 9) || (m =? 11)) then 30
     else 31)%Z in
  let n :=
    (nth (Z.to_nat m) _DAYS_BEFORE_MONTH 0
     + (if (m >? 2) && leapyear then 1 else 0) + d - 1)%Z in
  if (d <=? dim)%Z then
    if (n =? 365)%Z then ((m =? 12) && (d =? 31))%Z
    else ((month (month_day_of 0 leapyear n) =? m)
          && (day (month_day_of 0 leapyear n) =? d))%Z
  else true.

(* ================================================================= *)
(** ** The title of the report *)

(** [%B] in the C locale, the one a program that never calls
    [setlocale] formats its dates in. *)
Definition month_name (m : Z) : str :=
  nth (Z.to_nat (m - 1))
    [ lit "January"; lit "February"; lit "March"; lit "April"; lit "May";
      lit "June"; lit "July"; lit "August"; lit "September"; lit "October";
      lit "November"; lit "December" ] [].

(** [d.strftime('%B %Y')]; the year is written without padding, as the
    C library of the Lambda runtime does for the years below 1000. *)
Definition strftime_B_Y (d : date) : str :=
  month_name (month d) ++ space :: decimal_of_N (Z.to_N (year d)).

(** The title of the message [main] posts: the month of the day four
    weeks before today. *)
Definition report_title (today : date) : result str :=
  this_month <- sub_days today 28 ;;
  Ok (lit "Costs report for " ++ strftime_B_Y this_month).

(* ================================================================= *)
(** ** The Elastic Cloud bill *)

(** [datetime.date(year, month, day)]: the arguments are read as C ints
    and then checked against the calendar. *)
Definition c_int (v : Z) : bool :=
  ((- 2147483648 <=? v) && (v <=? 2147483647))%Z.

Definition new_date (y m d : Z) : result date :=
  if c_int y && c_int m && c_int d then
    if valid_date (mkdate y m d) then Ok (mkdate y m d) else Raise ValueError
  else Raise OverflowError.

(** [from_date] and [to_date] of a date block: the first day of the month
    and the first day of the month after it. *)
Definition month_range (year month : Z) : result (date * date) :=
  from_date <- new_date year month 1 ;;
  to_date <- (if (month =? 12)%Z then new_date (year + 1) 1 1
              else new_date year (month + 1) 1) ;;
  Ok (from_date, to_date).

(** What [_get_elastic_cloud_costs_for_range] comes to: the total of the
    reply, an [HTTPError], or another exception of the request or of
    reading the reply. *)
Inductive reply (C E : Type) : Type :=
| Total (c : C)
| HTTPError
| OtherError (e : E).

Arguments Total {C E} c.
Arguments HTTPError {C E}.
Arguments OtherError {C E} e.

(** What [get_elastic_cloud_bill] keeps for a month: the total of the
    reply, or the int 0 it writes after an [HTTPError]. *)
Inductive kept (C : Type) : Type :=
| Fetched (c : C)
| IntZero.

Arguments Fetched {C} c.
Arguments IntZero {C}.

(** An exception of [get_elastic_cloud_bill]: of a date that does not
    exist, or of the request. *)
Inductive elastic_exn (E : Type) : Type :=
| DateError (e : exn)
| RequestError (e : E).

Arguments DateError {E} e.
Arguments RequestError {E} e.

(** [result[k] = v]: the value of a key that is there is replaced where it
    stands, a new key goes to the end. *)
Fixpoint set_item {V : Type} (d : list (MonthKey * V)) (k : MonthKey) (v : V)
  : list (MonthKey * V) :=
  match d with
  | [] => [(k, v)]
  | (k', v') :: t =>
      if key_eqb k' k then (k', v) :: t else (k', v') :: set_item t k v
  end.

(** The loop of [get_elastic_cloud_bill] over the date blocks that are
    left, with the secrets already read and given to the request. *)
Fixpoint elastic_months {C E : Type} (costs_for_range : date -> date -> reply C E)
  (date_blocks : list MonthKey) (result : list (MonthKey * kept C))
  : elastic_exn E + list (MonthKey * kept C) :=
  match date_blocks with
  | [] => inr result
  | (year, month) :: rest =>
      match month_range year month with
      | Raise e => inl (DateError e)
      | Ok (from_date, to_date) =>
          match costs_for_range from_date to_date with
          | Total c =>
              elastic_months costs_for_range rest
                (set_item result (year, month) (Fetched c))
          | HTTPError =>
              elastic_months costs_for_range rest
                (set_item result (year, month) IntZero)
          | OtherError e => inl (RequestError e)
          end
      end
  end.

Definition get_elastic_cloud_bill {C E : Type}
  (costs_for_range : date -> date -> reply C E) (date_blocks : list MonthKey)
  : elastic_exn E + list (MonthKey * kept C) :=
  elastic_months costs_for_range date_blocks [].

(** A date block whose range exists: a month of the years 1 to 9999 other
    than December 9999, whose next month would be in year 10000. *)
Definition valid_block (block : MonthKey) : bool :=
  ((1 <=? fst block) && (fst block <=? 9999)
   && (1 <=? snd block) && (snd block <=? 12)
   && ((fst block <? 9999) || (snd block <? 12)))%Z.

(** The first day of the month of a date block, and of the month after. *)
Definition first_day (block : MonthKey) : date :=
  mkdate (fst block) (snd block) 1.

Definition next_first_day (block : MonthKey) : date :=
  months_before (-1) (first_day block).

(** The request for the month of the block is answered: with a total or
    with an [HTTPError]. *)
Definition answered {C E : Type} (costs_for_range : date -> date -> reply C E)
  (block : MonthKey) : Prop :=
  valid_block block = true
  /\ forall e, costs_for_range (first_day block) (next_first_day block)
               <> OtherError e.

(** What is kept for a month is what the request for it was answered
    with. *)
Definition kept_reply {C E : Type} (costs_for_range : date -> date -> reply C E)
  (item : MonthKey * kept C) : Prop :=
  match costs_for_range (first_day (fst item)) (next_first_day (fst item)) with
  | Total c => snd item = Fetched c
  | HTTPError => snd item = IntZero
  | OtherError _ => False
  end.

(** What a month comes to when nothing is raised: the total of the reply
    for its range, or the int 0. *)
Definition month_cost {C E : Type} (costs_for_range : date -> date -> reply C E)
  (block : MonthKey) : option (kept C) :=
  match month_range (fst block) (snd block) with
  | Ok (from_date, to_date) =>
      match costs_for_range from_date to_date with
      | Total c => Some (Fetched c)
      | HTTPError => Some IntZero
      | OtherError _ => None
      end
  | Raise _ => None
  end.

(** A billing service that refuses January and answers the number of the
    month for the other months. *)
Definition sample_costs (from_date to_date : date) : reply Z unit :=
  if (month from_date =? 1)%Z then HTTPError else Total (month from_date).

(* ================================================================= *)
(** ** The reply of the cost service *)

(** An entry of [resp["ResultsByTime"]]: the start of its period, and the
    unit and the amount of its net amortized cost. *)
Record cost_entry : Set :=
  mk_entry { entry_start : str; entry_unit : str; entry_amount : str }.

(** An exception of the loop over the entries: the failed assertion on
    the unit, or what reading a date or a number raised. *)
Inductive bills_exn : Set :=
| AssertionError
| ParseError (e : exn).

(** The loop of [get_last_four_months_of_bills] over the entries that are
    left.  [strptime] is [datetime.datetime.strptime(_, "%Y-%m-%d")] and
    [float_of_str] is [float], both the library's.  The [assert] is
    checked, as it is unless the interpreter runs with [-O]. *)
Fixpoint bills_of_entries (strptime : str -> result date)
  (float_of_str : str -> result float)
  (entries : list cost_entry) (result : AccountBills)
  : bills_exn + AccountBills :=
  match entries with
  | [] => inr result
  | entry :: rest =>
      match strptime (entry_start entry) with
      | Raise e => inl (ParseError e)
      | Ok start =>
          if str_eqb (entry_unit entry) (lit "USD") then
            match float_of_str (entry_amount entry) with
            | Raise e => inl (ParseError e)
            | Ok amount =>
                bills_of_entries strptime float_of_str rest
                  (set_item result (year start, month start) amount)
            end
          else inl AssertionError
      end
  end.

(** The entry starts in the month [k]. *)
Definition starts_in (strptime : str -> result date) (k : MonthKey)
  (entry : cost_entry) : bool :=
  match strptime (entry_start entry) with
  | Ok start => key_eqb (year start, month start) k
  | Raise _ => false
  end.

(** The dates of two sample entries read, and nothing else. *)
Definition sample_strptime (s : str) : result date :=
  if str_eqb s (lit "2024-01-01") then Ok (mkdate 2024 1 1)
  else if str_eqb s (lit "2024-02-01") then Ok (mkdate 2024 2 1)
  else Raise ValueError.

(** Two entries for January and one for February. *)
Definition sample_entries : list cost_entry :=
  [ mk_entry (lit "2024-01-01") (lit "USD") (lit "10.00");
    mk_entry (lit "2024-02-01") (lit "USD") (lit "20.00");
    mk_entry (lit "2024-01-01") (lit "USD") (lit "30.00") ].

(* ================================================================= *)
(** * Properties of the formatter *)

Section Formatter.

Lemma str_eqb_eq (s t : str) : str_eqb s t = true <-> s = t.
Proof.
  revert t; induction s as [|a s IH]; intros [|b t]; simpl; split;
    try easy.
  - intros H. apply andb_true_iff in H as [H1 H2].
    apply N.eqb_eq in H1. apply IH in H2. now subst.
  - intros H. injection H as -> ->. rewrite N.eqb_refl. simpl. now apply IH.
Qed.

Lemma str_eqb_refl (s : str) : str_eqb s s = true.
Proof. now apply str_eqb_eq. Qed.

Lemma isdecimal_comma : isdecimal comma = false.
Proof. reflexivity. Qed.

Lemma isdecimal_minus : isdecimal minus = false.
Proof. reflexivity. Qed.

Lemma three_digits_some (s g2 rest : str) :
  three_digits s = Some (g2, rest) ->
  s = g2 ++ rest /\ lead_digits s = 3 + lead_digits rest.
Proof.
  destruct s as [|a [|b [|c s]]]; simpl; try discriminate.
  destruct (isdecimal a), (isdecimal b), (isdecimal c); simpl;
    try discriminate.
  intros H; injection H as <- <-. split; reflexivity.
Qed.

(** A match of the digit groups: group 1 is a non-empty run of digits,
    group 2 the last three digits of the run at the head of the string. *)
Lemma digits_then_three_some (s g1 g2 rest : str) :
  digits_then_three s = Some (g1, g2, rest) ->
  s = g1 ++ g2 ++ rest
  /\ forallb isdecimal g1 = true
  /\ g1 <> []
  /\ lead_digits s = length g1 + 3 + lead_digits rest.
Proof.
  revert g1 g2 rest; induction s as [|d s IH]; intros g1 g2 rest; simpl.
  - discriminate.
  - destruct (isdecimal d) eqn:Hd; [|discriminate].
    destruct (digits_then_three s) as [[[h1 h2] r]|] eqn:Hs.
    + intros H; injection H as <- <- <-.
      destruct (IH _ _ _ eq_refl) as (Heq & Hall & Hne & Hlen).
      split; [simpl; now rewrite <- Heq|].
      split; [simpl; now rewrite Hd|].
      split; [discriminate|].
      simpl. now rewrite Hlen.
    + destruct (three_digits s) as [[h2 r]|] eqn:Ht; [|discriminate].
      intros H; injection H as <- <- <-.
      apply three_digits_some in Ht as [Heq Hlen].
      split; [simpl; now rewrite <- Heq|].
      split; [simpl; now rewrite Hd|].
      split; [discriminate|].
      simpl. now rewrite Hlen.
Qed.

Lemma lead_digits_group (g t : str) (c : char) :
  forallb isdecimal g = true -> isdecimal c = false ->
  lead_digits (g ++ c :: t) = length g.
Proof.
  intros Hg Hc; induction g as [|d g IH]; simpl in *.
  - now rewrite Hc.
  - apply andb_true_iff in Hg as [Hd Hg]. rewrite Hd. now rewrite IH.
Qed.

Lemma lead_digits_le (s : str) : lead_digits s <= length s.
Proof.
  induction s as [|d s IH]; simpl; [lia|]. destruct (isdecimal d); lia.
Qed.

Lemma digit_run_le (s : str) : digit_run s <= length s.
Proof.
  destruct s as [|c s]; simpl; [lia|].
  destruct (N.eqb c minus).
  - pose proof (lead_digits_le s). lia.
  - pose proof (lead_digits_le (c :: s)). simpl in *. lia.
Qed.

(** What a successful match does to the string. *)
Lemma match_groups_some (s g1 g2 rest : str) :
  match_groups s = Some (g1, g2, rest) ->
  s = g1 ++ g2 ++ rest
  /\ 4 <= digit_run s
  /\ digit_run (g1 ++ comma :: g2 ++ rest) + 3 <= digit_run s.
Proof.
  destruct s as [|c s]; simpl; [discriminate|].
  destruct (N.eqb c minus) eqn:Hc.
  - apply N.eqb_eq in Hc; subst c.
    destruct (digits_then_three s) as [[[h1 h2] r]|] eqn:Hs.
    + intros H; injection H as <- <- <-.
      apply digits_then_three_some in Hs as (-> & Hall & Hne & Hlen).
      split; [reflexivity|]. simpl.
      rewrite (lead_digits_group _ _ _ Hall isdecimal_comma).
      destruct h1; [congruence|]. simpl in *. lia.
    + rewrite isdecimal_minus. discriminate.
  - destruct (isdecimal c) eqn:Hd; [|discriminate].
    intros H.
    assert (Hm : digits_then_three (c :: s) = Some (g1, g2, rest))
      by (simpl; now rewrite Hd).
    apply digits_then_three_some in Hm as (Heq & Hall & Hne & Hlen).
    split; [exact Heq|].
    destruct g1 as [|d g1]; [congruence|].
    injection Heq as <- Heq.
    change ((c :: g1) ++ comma :: g2 ++ rest)
      with (c :: g1 ++ comma :: g2 ++ rest).
    unfold digit_run. rewrite Hc.
    change (c :: g1 ++ comma :: g2 ++ rest)
      with ((c :: g1) ++ comma :: g2 ++ rest).
    rewrite (lead_digits_group (c :: g1) (g2 ++ rest) comma Hall isdecimal_comma).
    simpl in Hlen. rewrite Hd in Hlen. simpl length. lia.
Qed.

(** A substitution that changes the string shortens the digit run. *)
Lemma re_sub_shortens (s : str) :
  re_sub s <> s -> 4 <= digit_run s /\ digit_run (re_sub s) + 3 <= digit_run s.
Proof.
  unfold re_sub. destruct (match_groups s) as [[[g1 g2] rest]|] eqn:Hm.
  - intros _. now apply match_groups_some in Hm as (_ & H4 & Hlt).
  - congruence.
Qed.

(** With [calls_needed] nested calls allowed the formatter returns, and
    what it returns is a fixed point of the substitution. *)
Lemma pprint_currency_depth_str (depth : nat) (s : str) :
  calls_needed s <= depth ->
  exists r, pprint_currency_depth depth (VStr s) = Some (Ok r) /\ re_sub r = r.
Proof.
  revert s; induction depth as [|depth IH]; intros s Hn.
  - unfold calls_needed in Hn. lia.
  - simpl. destruct (str_eqb s (re_sub s)) eqn:He.
    + apply str_eqb_eq in He. exists (re_sub s). split; [reflexivity|].
      now rewrite <- He.
    + assert (Hne : re_sub s <> s).
      { intros E. rewrite E, str_eqb_refl in He. discriminate. }
      apply re_sub_shortens in Hne as [H4 Hlt].
      apply IH. unfold calls_needed in *.
      assert (digit_run (re_sub s) - 1 + 3 <= digit_run s - 1) by lia.
      assert ((digit_run (re_sub s) - 1) / 3 + 1 <= (digit_run s - 1) / 3).
      { rewrite <- Nat.div_add by lia. apply Nat.Div0.div_le_mono. lia. }
      lia.
Qed.

Lemma calls_needed_le (s : str) : calls_needed s <= S (length s).
Proof.
  unfold calls_needed. pose proof (digit_run_le s).
  assert ((digit_run s - 1) / 3 <= digit_run s - 1) by (apply Nat.Div0.div_le_upper_bound; lia).
  lia.
Qed.

(** More depth than needed changes nothing. *)
Lemma pprint_currency_depth_mono (d d' : nat) (v : value) (r : result str) :
  pprint_currency_depth d v = Some r -> d <= d' ->
  pprint_currency_depth d' v = Some r.
Proof.
  revert d' v; induction d as [|d IH]; intros d' v H Hle; [discriminate|].
  destruct d' as [|d']; [lia|]. simpl in *.
  destruct (to_orig v) as [orig|e]; [|exact H].
  destruct (str_eqb orig (re_sub orig)); [exact H|].
  apply IH; [exact H | lia].
Qed.

Lemma pprint_currency_str (s : str) :
  exists r, pprint_currency (VStr s) = Ok r /\ re_sub r = r.
Proof.
  destruct (pprint_currency_depth_str _ _ (calls_needed_le s)) as (r & Hr & Hfix).
  exists r. split; [|exact Hfix].
  change (pprint_currency (VStr s))
    with (match pprint_currency_depth (S (length s)) (VStr s) with
          | Some r => r
          | None => Raise RecursionError
          end).
  now rewrite Hr.
Qed.

Lemma pprint_currency_fixed (r : str) :
  re_sub r = r -> pprint_currency (VStr r) = Ok r.
Proof.
  intros Hfix. unfold pprint_currency, call_bound. simpl.
  now rewrite Hfix, str_eqb_refl.
Qed.

Lemma pprint_currency_float_str (f : float) :
  pprint_currency (VFloat f) = pprint_currency (VStr (format_2f f)).
Proof. reflexivity. Qed.

Lemma pprint_currency_float (f : float) :
  pprint_currency (VFloat f) = Ok (currency f).
Proof.
  unfold currency. rewrite pprint_currency_float_str.
  destruct (pprint_currency_str (format_2f f)) as (r & -> & _). reflexivity.
Qed.

Lemma pprint_currency_depth_float (depth : nat) (f : float) :
  pprint_currency_depth depth (VFloat f)
  = pprint_currency_depth depth (VStr (format_2f f)).
Proof. destruct depth; reflexivity. Qed.

Lemma pprint_currency_int (n : Z) : pprint_currency (VInt n) = Raise TypeError.
Proof. reflexivity. Qed.

(** Any depth at which the formatter returns gives what it returns. *)
Lemma pprint_currency_eq (depth : nat) (s r : str) :
  pprint_currency_depth depth (VStr s) = Some (Ok r) ->
  pprint_currency (VStr s) = Ok r.
Proof.
  intros Hd. destruct (pprint_currency_str s) as (r' & Hr' & _).
  rewrite Hr'. f_equal.
  assert (H1 : pprint_currency_depth (S (length s)) (VStr s) = Some (Ok r')).
  { revert Hr'. unfold pprint_currency, call_bound. cbn [to_orig].
    destruct (pprint_currency_depth (S (length s)) (VStr s)) as [x|];
      [now intros ->|discriminate]. }
  pose proof (pprint_currency_depth_mono _ _ _ _ Hd
                (Nat.le_max_l depth (S (length s)))) as H2.
  pose proof (pprint_currency_depth_mono _ _ _ _ H1
                (Nat.le_max_r depth (S (length s)))) as H3.
  congruence.
Qed.

(** One substitution more or less before formatting makes no difference. *)
Lemma pprint_currency_step (s : str) :
  pprint_currency (VStr s) = pprint_currency (VStr (re_sub s)).
Proof.
  destruct (pprint_currency_str (re_sub s)) as (r & Hr & Hfix).
  rewrite Hr.
  destruct (pprint_currency_depth_str _ _ (calls_needed_le (re_sub s)))
    as (r' & Hd & _).
  assert (r' = r).
  { apply pprint_currency_eq in Hd. congruence. }
  subst r'.
  apply (pprint_currency_eq (S (S (length (re_sub s))))).
  cbn [pprint_currency_depth to_orig].
  destruct (str_eqb s (re_sub s)) eqn:E; [|exact Hd].
  apply str_eqb_eq in E.
  assert (Hf : re_sub (re_sub s) = re_sub s) by now rewrite <- E.
  rewrite (pprint_currency_fixed _ Hf) in Hr. congruence.
Qed.

Lemma digits_all_decimal (d : Decimal.uint) :
  forallb isdecimal (digits_of_uint d) = true.
Proof. induction d; simpl; try rewrite IHd; reflexivity. Qed.

Lemma three_digits_block (a b c : char) (rest : str) :
  isdecimal a = true -> isdecimal b = true -> isdecimal c = true ->
  three_digits (a :: b :: c :: rest) = Some ([a; b; c], rest).
Proof. intros Ha Hb Hc. unfold three_digits. now rewrite Ha, Hb, Hc. Qed.

(** The match on a block of digits that something other than a digit
    follows: the last three digits are group 2. *)
Lemma digits_then_three_block (ds rest : str) :
  forallb isdecimal ds = true -> lead_digits rest = 0 ->
  digits_then_three (ds ++ rest)
  = if 4 <=? length ds
    then Some (firstn (length ds - 3) ds, skipn (length ds - 3) ds, rest)
    else None.
Proof.
  intros Hds Hrest.
  assert (Hr : digits_then_three rest = None /\ three_digits rest = None
               /\ (forall a, three_digits (a :: rest) = None)
               /\ (forall a b, three_digits (a :: b :: rest) = None)).
  { destruct rest as [|c rest]; [repeat split; reflexivity|].
    simpl in Hrest. destruct (isdecimal c) eqn:Hc; [discriminate|].
    split; [simpl; now rewrite Hc|].
    split; [destruct rest as [|b [|d rest]]; simpl; rewrite ?Hc; reflexivity|].
    split; intros.
    - destruct rest as [|d rest]; simpl; rewrite ?Hc, ?andb_false_r;
        reflexivity.
    - simpl. now rewrite Hc, andb_false_r. }
  destruct Hr as (Hr0 & Hr1 & Hr2 & Hr3).
  induction ds as [|d ds IH].
  - exact Hr0.
  - cbn [forallb] in Hds. apply andb_true_iff in Hds as [Hd Hds].
    specialize (IH Hds).
    cbn [app digits_then_three]. rewrite Hd, IH.
    destruct (4 <=? length ds) eqn:E4.
    + apply Nat.leb_le in E4.
      replace (4 <=? length (d :: ds)) with true
        by (symmetry; apply Nat.leb_le; simpl; lia).
      replace (length (d :: ds) - 3) with (S (length ds - 3))
        by (simpl; lia).
      reflexivity.
    + apply Nat.leb_gt in E4.
      destruct ds as [|a [|b [|c [|x ds]]]]; cbn [app length] in *;
        try lia.
      * now rewrite Hr1.
      * now rewrite Hr2.
      * now rewrite Hr3.
      * cbn [forallb] in Hds.
        apply andb_true_iff in Hds as [Ha Hds].
        apply andb_true_iff in Hds as [Hb Hds].
        apply andb_true_iff in Hds as [Hc _].
        now rewrite (three_digits_block a b c rest Ha Hb Hc).
Qed.

(** The substitution on a signed block of digits followed by a point or a
    comma. *)
Lemma re_sub_block (s : bool) (ds : str) (c : char) (t : str) :
  forallb isdecimal ds = true -> isdecimal c = false -> c <> minus ->
  re_sub (sign_str s ++ ds ++ c :: t)
  = if 4 <=? length ds
    then sign_str s ++ firstn (length ds - 3) ds
           ++ comma :: skipn (length ds - 3) ds ++ c :: t
    else sign_str s ++ ds ++ c :: t.
Proof.
  intros Hds Hc Hm.
  assert (Hrest : lead_digits (c :: t) = 0) by (simpl; now rewrite Hc).
  pose proof (digits_then_three_block ds (c :: t) Hds Hrest) as Hb.
  unfold re_sub. destruct s; cbn [sign_str app match_groups].
  - rewrite N.eqb_refl, Hb.
    destruct (4 <=? length ds); [reflexivity|].
    cbn [digits_then_three]. now rewrite isdecimal_minus.
  - destruct ds as [|d ds].
    + cbn [app match_groups digits_then_three length Nat.leb].
      apply N.eqb_neq in Hm. now rewrite Hm, Hc.
    + assert (Hd : N.eqb d minus = false).
      { apply N.eqb_neq. intros ->. cbn [forallb] in Hds.
        rewrite isdecimal_minus in Hds. discriminate. }
      change ((d :: ds) ++ c :: t) with (d :: ds ++ c :: t) in *.
      cbn [match_groups]. rewrite Hd, Hb.
      destruct (4 <=? length (d :: ds)); reflexivity.
Qed.

Lemma commas_from_right_short (r : str) :
  length r <= 3 -> commas_from_right r = r.
Proof. destruct r as [|a [|b [|c [|d r]]]]; simpl; try reflexivity. lia. Qed.

Lemma with_commas_short (ds : str) : length ds <= 3 -> with_commas ds = ds.
Proof.
  intros H. unfold with_commas.
  rewrite commas_from_right_short by now rewrite length_rev.
  apply rev_involutive.
Qed.

Lemma with_commas_long (ds : str) :
  4 <= length ds ->
  with_commas ds
  = with_commas (firstn (length ds - 3) ds)
      ++ comma :: skipn (length ds - 3) ds.
Proof.
  intros H. unfold with_commas.
  rewrite <- (firstn_skipn (length ds - 3) ds) at 1.
  assert (H3 : length (skipn (length ds - 3) ds) = 3)
    by (rewrite length_skipn; lia).
  assert (H1 : 1 <= length (firstn (length ds - 3) ds))
    by (rewrite length_firstn; lia).
  destruct (skipn (length ds - 3) ds) as [|a [|b [|c [|x l]]]];
    try discriminate.
  remember (firstn (length ds - 3) ds) as ds1.
  rewrite rev_app_distr. cbn [rev app].
  destruct (rev ds1) as [|y r] eqn:Er.
  - apply (f_equal (@length _)) in Er. rewrite length_rev in Er.
    simpl in Er. lia.
  - cbn [commas_from_right rev]. rewrite <- !app_assoc. reflexivity.
Qed.

(** Formatting a signed block of digits followed by a point or a comma
    puts the commas between its thousands, and changes nothing else. *)
Lemma pprint_currency_block (n : nat) :
  forall (s : bool) (ds : str) (c : char) (t : str),
    length ds <= n ->
    forallb isdecimal ds = true -> isdecimal c = false -> c <> minus ->
    pprint_currency (VStr (sign_str s ++ ds ++ c :: t))
    = Ok (sign_str s ++ with_commas ds ++ c :: t).
Proof.
  induction n as [n IH] using lt_wf_ind.
  intros s ds c t Hn Hds Hc Hm.
  rewrite pprint_currency_step, (re_sub_block s ds c t Hds Hc Hm).
  destruct (4 <=? length ds) eqn:E4.
  - apply Nat.leb_le in E4.
    rewrite (IH (length ds - 3)); try lia.
    + rewrite (with_commas_long ds E4), <- !app_assoc. reflexivity.
    + rewrite length_firstn. lia.
    + rewrite <- (firstn_skipn (length ds - 3) ds), forallb_app in Hds.
      now apply andb_true_iff in Hds as [H _].
    + exact isdecimal_comma.
    + discriminate.
  - apply Nat.leb_gt in E4.
    rewrite with_commas_short by lia.
    apply pprint_currency_fixed.
    rewrite (re_sub_block s ds c t Hds Hc Hm).
    replace (4 <=? length ds) with false by (symmetry; apply Nat.leb_gt; lia).
    reflexivity.
Qed.

Lemma two_digits_length (n : N) : (n < 100)%N -> length (two_digits n) = 2.
Proof.
  intros H.
  assert (Hall : forallb (fun k => length (two_digits (N.of_nat k)) =? 2)
                   (seq 0 100) = true) by (vm_compute; reflexivity).
  rewrite forallb_forall in Hall.
  specialize (Hall (N.to_nat n)). rewrite N2Nat.id in Hall.
  apply Nat.eqb_eq, Hall, in_seq. lia.
Qed.

End Formatter.

(** C7: formatting is idempotent.  Formatting what the formatter returned
    returns it unchanged, whatever the first argument was; so an already
    formatted string such as 1,234,567.50 is returned as it is. *)
Theorem pprint_currency_idempotent :
  (forall v : value,
      (s <- pprint_currency v ;; pprint_currency (VStr s)) = pprint_currency v)
  /\ (forall (v : value) (s : str),
         pprint_currency v = Ok s -> pprint_currency (VStr s) = Ok s)
  /\ pprint_currency (VStr (lit "1,234,567.50")) = Ok (lit "1,234,567.50").
Proof.
  assert (H : forall (v : value) (s : str),
             pprint_currency v = Ok s -> pprint_currency (VStr s) = Ok s).
  { intros [f|s0|n] s Hs.
    - rewrite pprint_currency_float_str in Hs.
      destruct (pprint_currency_str (format_2f f)) as (r & Hr & Hfix).
      rewrite Hr in Hs. injection Hs as <-. now apply pprint_currency_fixed.
    - destruct (pprint_currency_str s0) as (r & Hr & Hfix).
      rewrite Hr in Hs. injection Hs as <-. now apply pprint_currency_fixed.
    - discriminate. }
  split; [|split; [exact H|vm_compute; reflexivity]].
  intros v. destruct (pprint_currency v) as [s|e] eqn:Hv; [|reflexivity].
  exact (H v s Hv).
Qed.

(** The formatted 1234567.5 is returned unchanged. *)
Lemma pprint_currency_idempotent_witness :
  pprint_currency (VFloat 0x1.2d6878p+20) = Ok (lit "1,234,567.50")
  /\ pprint_currency (VStr (lit "1,234,567.50")) = Ok (lit "1,234,567.50").
Proof.
  assert (H : pprint_currency (VFloat 0x1.2d6878p+20) = Ok (lit "1,234,567.50"))
    by (vm_compute; reflexivity).
  split; [exact H|].
  exact (proj1 (proj2 pprint_currency_idempotent) _ _ H).
Defined.

(** The hundredths written for [m * 2^e] are within half a hundredth of
    it. *)
Lemma hundredths_nearest (m p : positive) :
  (Z.abs (2 * (Zpos m * 100 - Z.of_N (hundredths m (Zneg p)) * 2 ^ Zpos p))
   <= 2 ^ Zpos p)%Z.
Proof.
  unfold hundredths. rewrite N.shiftl_1_l.
  set (num := (N.pos m * 100)%N). set (den := (2 ^ N.pos p)%N).
  assert (Hden : (den <> 0)%N) by (apply N.pow_nonzero; discriminate).
  pose proof (N.div_mod num den Hden) as Hdm.
  pose proof (N.mod_lt num den Hden) as Hlt.
  assert (Hz : (2 ^ Zpos p = Z.of_N den)%Z).
  { unfold den. rewrite N2Z.inj_pow. reflexivity. }
  assert (Hn : (Zpos m * 100 = Z.of_N num)%Z) by (unfold num; lia).
  rewrite Hz, Hn.
  set (q := (num / den)%N) in *. set (r := (num mod den)%N) in *.
  assert (Hq : (Z.of_N num = Z.of_N den * Z.of_N q + Z.of_N r)%Z) by lia.
  destruct (N.compare_spec (2 * r) den) as [E|E|E];
    [destruct (N.even q)| |]; nia.
Qed.



(* ================================================================= *)
(** * Properties of the row renderer *)

Section RowRenderer.

Lemma unpack_last_snoc (A : Type) (l : list A) (x : A) :
  unpack_last (l ++ [x]) = Ok (l, x).
Proof.
  unfold unpack_last. rewrite rev_app_distr. simpl. now rewrite rev_involutive.
Qed.

(** The row once the months are sorted and the average is known. *)
Lemma render_row_cells (label : str) (bills prev_months : AccountBills)
  (this_month : MonthKey * float) (avg : float) :
  sorted item_ltb bills = prev_months ++ [this_month] ->
  average (filter nonzero (map snd prev_months)) = Ok avg ->
  _render_row label bills
  = (cells <- trend_cells avg (snd this_month) ;;
     Ok [label; currency avg; currency (snd this_month); fst cells; snd cells]).
Proof.
  intros Hs Ha. unfold _render_row. rewrite Hs, unpack_last_snoc. simpl.
  rewrite Ha. simpl.
  destruct (trend_cells avg (snd this_month)) as [[gain loss]|e]; simpl;
    [|reflexivity].
  now rewrite !pprint_currency_float.
Qed.

Lemma render_row_no_average (label : str) (bills prev_months : AccountBills)
  (this_month : MonthKey * float) (e : exn) :
  sorted item_ltb bills = prev_months ++ [this_month] ->
  average (filter nonzero (map snd prev_months)) = Raise e ->
  _render_row label bills = Raise e.
Proof.
  intros Hs Ha. unfold _render_row. rewrite Hs, unpack_last_snoc. simpl.
  now rewrite Ha.
Qed.

Lemma truediv_nonzero (x y : float) :
  (y =? 0)%float = false -> truediv x y = Ok (x / y)%float.
Proof. unfold truediv. now intros ->. Qed.

Lemma truediv_zero (x y : float) :
  (y =? 0)%float = true -> truediv x y = Raise ZeroDivisionError.
Proof. unfold truediv. now intros ->. Qed.

(** [int] is the floor on what is not negative. *)
Lemma py_int_floor (x : float) :
  (0 <=? x)%float = true -> math_floor x = py_int x.
Proof.
  rewrite leb_spec. unfold math_floor, py_int.
  change (Prim2SF 0) with (S754_zero false).
  destruct (Prim2SF x) as [s|s| |s m e]; try reflexivity.
  destruct s; [discriminate|reflexivity].
Qed.

Lemma total_and_count_filter (totals : list float) (acc : float) (n : nat) :
  total_and_count totals acc n
  = (fold_left PrimFloat.add (filter nonzero totals) acc,
     n + length (filter nonzero totals)).
Proof.
  revert acc n; induction totals as [|t rest IH]; intros acc n; simpl.
  - now rewrite Nat.add_0_r.
  - destruct (t =? 0)%float eqn:E;
      assert (Hnz : nonzero t = negb (t =? 0)%float) by reflexivity;
      rewrite E in Hnz; rewrite Hnz; simpl.
    + apply IH.
    + rewrite IH. f_equal. lia.
Qed.

(** The code filters and then averages; the outcome is the mean of the
    totals that are not zero. *)
Lemma average_nonzero (totals : list float) :
  average (filter nonzero totals)
  = match mean_excluding_zero totals with
    | Some a => Ok a
    | None => Raise ZeroDivisionError
    end.
Proof.
  unfold mean_excluding_zero, average, py_sum.
  rewrite total_and_count_filter. simpl.
  destruct (length (filter nonzero totals)); reflexivity.
Qed.

End RowRenderer.

Section ZeroAverage.

Lemma eqb_zero_inv (x : float) :
  (x =? 0)%float = true -> exists s, Prim2SF x = S754_zero s.
Proof.
  rewrite eqb_spec. change (Prim2SF 0) with (S754_zero false).
  destruct (Prim2SF x) as [s|s| |s m e]; simpl; try discriminate.
  - intros _. now exists s.
  - destruct s; discriminate.
  - destruct s; discriminate.
Qed.

(** Around a zero average every number is either below 95% of it or at
    least 105% of it; only NaN is neither. *)
Lemma zero_average_trend (avg this : float) :
  (avg =? 0)%float = true ->
  ((this <? avg * f0_95) || (avg * f1_05 <=? this))%float
  = (this =? this)%float.
Proof.
  intros H. apply eqb_zero_inv in H as [s Hs].
  rewrite ltb_spec, leb_spec, eqb_spec, !mul_spec, Hs.
  change (Prim2SF f0_95) with (S754_finite false 8556839292003942 (-53)).
  change (Prim2SF f1_05) with (S754_finite false 4728779608739021 (-52)).
  unfold SF64mul. simpl SFmul.
  destruct (Prim2SF this) as [t|t| |t m e]; destruct s; try destruct t;
    try reflexivity;
    unfold SFeqb, SFltb, SFleb, SFcompare; simpl;
    rewrite Z.compare_refl, Pos.compare_refl; reflexivity.
Qed.

Lemma trend_cells_zero_average (avg this : float) :
  (avg =? 0)%float = true ->
  trend_cells avg this
  = if (this =? this)%float then Raise ZeroDivisionError else Ok ([], []).
Proof.
  intros H. rewrite <- (zero_average_trend _ this H). unfold trend_cells.
  rewrite (truediv_zero this _ H).
  destruct (this <? avg * f0_95)%float; [reflexivity|].
  destruct (avg * f1_05 <=? this)%float; reflexivity.
Qed.

Lemma trend_cells_nonzero_average (avg this : float) :
  (avg =? 0)%float = false ->
  trend_cells avg this <> Raise ZeroDivisionError.
Proof.
  intros H. unfold trend_cells. rewrite (truediv_nonzero this _ H). simpl.
  destruct (this <? avg * f0_95)%float.
  - unfold py_int. destruct (Prim2SF _); simpl; discriminate.
  - destruct (avg * f1_05 <=? this)%float; [|discriminate].
    unfold py_int. destruct (Prim2SF _); simpl; discriminate.
Qed.

End ZeroAverage.

(** C1 (amended): with the months sorted, the last one taken as this month
    and the previous average defined and not zero, the row is a decrease
    when 95% of the average exceeds this month's total, else an increase
    when 105% of the average is at most the total, else it has no
    indicator.  The magnitude written in the cell is the percentage
    truncated toward zero, [int]; it is the floor of the percentage
    whenever the percentage is not negative.  When the percentage is
    infinite or NaN the exception of [int] leaves no row. *)
Theorem render_row_trend
  (label : str) (bills prev_months : AccountBills)
  (this_month : MonthKey * float) (previous_average : float) :
  sorted item_ltb bills = prev_months ++ [this_month] ->
  average (filter nonzero (map snd prev_months)) = Ok previous_average ->
  (previous_average =? 0)%float = false ->
  let this_month_total := snd this_month in
  let row gain loss :=
    Ok [label; currency previous_average; currency this_month_total;
        gain; loss] in
  let reduction := ((1 - this_month_total / previous_average) * 100)%float in
  let extra_spend := ((this_month_total / previous_average - 1) * 100)%float in
  if (this_month_total <? previous_average * f0_95)%float then
    match py_int reduction with
    | Ok m =>
        _render_row label bills = row (down_cell m) []
        /\ ((0 <=? reduction)%float = true -> math_floor reduction = Ok m)
    | Raise e => _render_row label bills = Raise e
    end
  else if (previous_average * f1_05 <=? this_month_total)%float then
    match py_int extra_spend with
    | Ok m =>
        _render_row label bills = row [] (up_cell m)
        /\ ((0 <=? extra_spend)%float = true -> math_floor extra_spend = Ok m)
    | Raise e => _render_row label bills = Raise e
    end
  else _render_row label bills = row [] [].
Proof.
  intros Hs Ha Hnz this_month_total row reduction extra_spend.
  rewrite (render_row_cells label _ _ _ _ Hs Ha). unfold trend_cells.
  fold this_month_total. rewrite (truediv_nonzero this_month_total _ Hnz).
  destruct (this_month_total <? previous_average * f0_95)%float.
  - simpl. fold reduction. destruct (py_int reduction) as [m|e] eqn:Hm.
    + split; [reflexivity|]. intros H0. now rewrite (py_int_floor _ H0).
    + reflexivity.
  - destruct (previous_average * f1_05 <=? this_month_total)%float.
    + simpl. fold extra_spend. destruct (py_int extra_spend) as [m|e] eqn:Hm.
      * split; [reflexivity|]. intros H0. now rewrite (py_int_floor _ H0).
      * reflexivity.
    + reflexivity.
Qed.

(** The hypotheses hold for the months 0, 100, 100 and then 50, a
    decrease of 50. *)
Lemma render_row_trend_witness :
  sorted item_ltb (four_months 0 100 100 50)
  = [((2024, 1)%Z, 0%float); ((2024, 2)%Z, 100%float); ((2024, 3)%Z, 100%float)]
    ++ [((2024, 4)%Z, 50%float)]
  /\ average (filter nonzero [0; 100; 100]%float) = Ok 100%float
  /\ (100 =? 0)%float = false
  /\ _render_row (lit "acct") (four_months 0 100 100 50)
     = Ok [lit "acct"; currency 100; currency 50; down_cell 50; []].
Proof.
  split; [reflexivity|]. split; [reflexivity|]. split; [reflexivity|].
  exact (proj1 (render_row_trend (lit "acct") (four_months 0 100 100 50)
                  [((2024, 1)%Z, 0%float); ((2024, 2)%Z, 100%float);
                   ((2024, 3)%Z, 100%float)]
                  ((2024, 4)%Z, 50%float) 100%float
                  eq_refl eq_refl eq_refl)).
Defined.

(** C1 (as stated, refuted): with a previous average of -100 and -150.5
    this month the row is a decrease whose cell reads -50, the percentage
    -50.499... truncated toward zero, where the floor is -51.  And with
    1e-300 before and 1e308 this month, an increase by the comparison, the
    percentage is infinite and there is no row. *)
Lemma render_row_floor_counterexample :
  _render_row (lit "acct")
    [((2024, 1)%Z, (-100)%float); ((2024, 2)%Z, (-0x1.2dp+7)%float)]
  = Ok [lit "acct"; lit "-100.00"; lit "-150.50"; down_cell (-50); []]
  /\ floor_trend_cells (-100) (-0x1.2dp+7) = Ok (down_cell (-51), [])
  /\ trend_cells (-100) (-0x1.2dp+7) = Ok (down_cell (-50), [])
  /\ str_eqb (down_cell (-50)) (down_cell (-51)) = false
  /\ (0x1.56e1fc2f8f359p-997 * f1_05 <=? 0x1.1ccf385ebc8a0p+1023)%float = true
  /\ _render_row (lit "acct")
       [((2024, 1)%Z, 0x1.56e1fc2f8f359p-997%float);
        ((2024, 2)%Z, 0x1.1ccf385ebc8a0p+1023%float)]
     = Raise OverflowError.
Proof. repeat split; vm_compute; reflexivity. Qed.

(** C2 (amended): around a previous average of 100, a total of 94.99 is a
    decrease of 5; 95.00 is stable; 105.00 is an increase of 5, the
    comparison being [<=]; 105.01 is an increase of 5. *)
Theorem trend_boundaries :
  let row x gain loss :=
    Ok [lit "acct"; lit "100.00"; currency x; gain; loss] in
  _render_row (lit "acct") (after_100 f94_99)
  = row f94_99 (arrow_down :: lit "  5%") []
  /\ _render_row (lit "acct") (after_100 95) = row 95%float [] []
  /\ _render_row (lit "acct") (after_100 105)
     = row 105%float [] (arrow_up :: arrow_up :: lit "  5%")
  /\ _render_row (lit "acct") (after_100 f105_01)
     = row f105_01 [] (arrow_up :: arrow_up :: lit "  5%").
Proof. repeat split; vm_compute; reflexivity. Qed.

(** C2 (as stated, refuted): at 105.00 the row is not stable, its increase
    cell is filled. *)
Lemma trend_boundary_counterexample :
  _render_row (lit "acct") (after_100 105)
  = Ok [lit "acct"; lit "100.00"; lit "105.00"; []; up_cell 5]
  /\ (100 * f1_05 <=? 105)%float = true
  /\ str_eqb (up_cell 5) [] = false.
Proof. repeat split; vm_compute; reflexivity. Qed.

(** C3: the average the renderer uses, for the trend and for the cell, is
    the arithmetic mean of the previous months' totals that are not
    exactly zero; with no such total the division by the empty count
    raises.  For 0, 100, 100 and then 50 the average is 100 and the row is
    a decrease of 50. *)
Theorem previous_average_excludes_zero :
  (forall (label : str) (bills prev_months : AccountBills)
          (this_month : MonthKey * float),
      sorted item_ltb bills = prev_months ++ [this_month] ->
      _render_row label bills
      = match mean_excluding_zero (map snd prev_months) with
        | Some a =>
            cells <- trend_cells a (snd this_month) ;;
            Ok [label; currency a; currency (snd this_month);
                fst cells; snd cells]
        | None => Raise ZeroDivisionError
        end)
  /\ mean_excluding_zero [0; 100; 100]%float = Some 100%float
  /\ _render_row (lit "acct") (four_months 0 100 100 50)
     = Ok [lit "acct"; lit "100.00"; lit "50.00"; arrow_down :: lit " 50%"; []].
Proof.
  split; [|split; vm_compute; reflexivity].
  intros label bills prev_months this_month Hs.
  pose proof (average_nonzero (map snd prev_months)) as Ha.
  destruct (mean_excluding_zero (map snd prev_months)) as [a|].
  - exact (render_row_cells label _ _ _ _ Hs Ha).
  - exact (render_row_no_average label _ _ _ _ Hs Ha).
Qed.

(** The months 0, 100, 100 and then 50 sort as they stand. *)
Lemma previous_average_excludes_zero_witness :
  sorted item_ltb (four_months 0 100 100 50)
  = [(jan, 0%float); (feb, 100%float); (mar, 100%float)]
    ++ [((2024, 4)%Z, 50%float)]
  /\ _render_row (lit "acct") (four_months 0 100 100 50)
     = match mean_excluding_zero [0; 100; 100]%float with
       | Some a =>
           cells <- trend_cells a 50 ;;
           Ok [lit "acct"; currency a; currency 50; fst cells; snd cells]
       | None => Raise ZeroDivisionError
       end.
Proof.
  split; [reflexivity|].
  exact (proj1 previous_average_excludes_zero (lit "acct")
           (four_months 0 100 100 50)
           [(jan, 0%float); (feb, 100%float); (mar, 100%float)]
           ((2024, 4)%Z, 50%float) eq_refl).
Defined.

(** Without any month there is no this month to unpack. *)
Lemma render_row_empty (label : str) : _render_row label [] = Raise ValueError.
Proof. reflexivity. Qed.

(** C5 (amended): for bills of at least one month, sorted, rendering raises
    the division-by-zero error in exactly two cases: no previous month has an
    amount other than zero, where [average] divides by the empty count; or
    the previous months that have one average to zero and this month's
    total is a number, where the percentage divides by that average.  In
    particular a defined, non-zero average never leads to it. *)
Theorem render_row_division_by_zero
  (label : str) (bills prev_months : AccountBills)
  (this_month : MonthKey * float) :
  sorted item_ltb bills = prev_months ++ [this_month] ->
  _render_row label bills = Raise ZeroDivisionError
  <-> (filter nonzero (map snd prev_months) = []
       \/ exists avg,
           average (filter nonzero (map snd prev_months)) = Ok avg
           /\ (avg =? 0)%float = true
           /\ (snd this_month =? snd this_month)%float = true).
Proof.
  intros Hs.
  destruct (average (filter nonzero (map snd prev_months))) as [avg|e] eqn:Ha.
  - rewrite (render_row_cells label _ _ _ _ Hs Ha).
    assert (Hne : filter nonzero (map snd prev_months) <> []).
    { intros E. rewrite E in Ha. discriminate. }
    destruct (avg =? 0)%float eqn:Hz.
    + rewrite (trend_cells_zero_average _ (snd this_month) Hz).
      destruct (snd this_month =? snd this_month)%float; simpl; split.
      * intros _. right. exists avg. auto.
      * reflexivity.
      * discriminate.
      * intros [E|(a & Ea & _ & F)]; [contradiction|discriminate].
    + pose proof (trend_cells_nonzero_average _ (snd this_month) Hz) as Hn.
      destruct (trend_cells avg (snd this_month)) as [cells|e]; simpl; split.
      * discriminate.
      * intros [E|(a & Ea & F & _)]; [contradiction|].
        injection Ea as <-. congruence.
      * intros E. congruence.
      * intros [E|(a & Ea & F & _)]; [contradiction|].
        injection Ea as <-. congruence.
  - rewrite (render_row_no_average label _ _ _ _ Hs Ha).
    unfold average in Ha.
    destruct (filter nonzero (map snd prev_months)) eqn:Hf; simpl in Ha.
    + injection Ha as <-. split; auto.
    + discriminate.
Qed.

(** A single previous month at zero: the average has nothing to divide. *)
Lemma render_row_division_by_zero_witness :
  sorted item_ltb [((2024, 1)%Z, 0%float); ((2024, 2)%Z, 7%float)]
  = [((2024, 1)%Z, 0%float)] ++ [((2024, 2)%Z, 7%float)]
  /\ _render_row (lit "acct") [((2024, 1)%Z, 0%float); ((2024, 2)%Z, 7%float)]
     = Raise ZeroDivisionError.
Proof.
  split; [reflexivity|].
  apply (proj2 (render_row_division_by_zero (lit "acct")
                  [((2024, 1)%Z, 0%float); ((2024, 2)%Z, 7%float)]
                  [((2024, 1)%Z, 0%float)] ((2024, 2)%Z, 7%float) eq_refl)).
  left. reflexivity.
Defined.

(** C5 (as stated, refuted): two previous months with non-zero amounts, 5
    and -5, and yet rendering raises the division-by-zero error. *)
Lemma render_row_zero_mean_counterexample :
  filter nonzero [5; -5]%float = [5; -5]%float
  /\ average (filter nonzero [5; -5]%float) = Ok 0%float
  /\ _render_row (lit "acct")
       [((2024, 1)%Z, 5%float); ((2024, 2)%Z, (-5)%float); ((2024, 3)%Z, 1%float)]
     = Raise ZeroDivisionError.
Proof. repeat split; vm_compute; reflexivity. Qed.

(* ================================================================= *)
(** * Properties of the month window *)

Lemma valid_first_day (y m : Z) :
  (1 <= y <= 9999)%Z -> (1 <= m <= 12)%Z -> valid_date (mkdate y m 1) = true.
Proof.
  intros Hy Hm. unfold valid_date, days_in_month. cbn [year month day].
  repeat (apply andb_true_iff; split); try lia.
  destruct (m =? 2)%Z; [destruct (is_leap y); reflexivity|].
  destruct ((m =? 4) || (m =? 6) || (m =? 9) || (m =? 11))%Z; reflexivity.
Qed.

(** From May to December, and in February, the window starts four
    calendar months before the current month; in January, March and April
    it does not. *)
Lemma time_period_start (today : date) :
  valid_date today = true -> (2 <= year today)%Z ->
  exists start,
    time_period today = Ok (start, mkdate (year today) (month today) 1)
    /\ (start = months_before 4 today
        <-> (month today = 2 \/ 5 <= month today)%Z).
Proof.
  destruct today as [y m d]. unfold valid_date. cbn [year month day].
  intros Hv Hy.
  repeat (apply andb_true_iff in Hv as [Hv ?]).
  assert (Hm : (1 <= m <= 12)%Z) by lia.
  assert (Hy' : (1 <= y <= 9999)%Z) by lia.
  unfold time_period, replace. cbn [year month day].
  rewrite (valid_first_day y m) by lia. cbn [bind year month day].
  destruct (m >? 4)%Z eqn:E.
  - rewrite (valid_first_day y (m - 4)) by lia.
    cbn [bind]. eexists; split; [reflexivity|].
    unfold months_before; cbn [year month day]. split.
    + intros _. lia.
    + intros _. f_equal; Z.div_mod_to_equations; lia.
  - rewrite (valid_first_day (y - 1) (12 - m)) by lia.
    cbn [bind]. eexists; split; [reflexivity|].
    unfold months_before; cbn [year month day]. split.
    + intros H'. apply (f_equal month) in H'. cbn [month] in H'.
      revert H'. Z.div_mod_to_equations. lia.
    + intros H'. assert (m = 2)%Z by lia. subst m.
      f_equal; Z.div_mod_to_equations; lia.
Qed.

(** C9: on 15 January 2024 the window starts on 1 November 2023, two
    months back, where four calendar months back is 1 September 2023.  The
    branch for the first four months of the year computes the month as
    [12 - month], right for February only. *)
Theorem time_period_january :
  time_period (mkdate 2024 1 15) = Ok (mkdate 2023 11 1, mkdate 2024 1 1)
  /\ months_before 4 (mkdate 2024 1 15) = mkdate 2023 9 1
  /\ time_period (mkdate 2024 3 15) = Ok (mkdate 2023 9 1, mkdate 2024 3 1)
  /\ months_before 4 (mkdate 2024 3 15) = mkdate 2023 11 1
  /\ time_period (mkdate 2024 4 15) = Ok (mkdate 2023 8 1, mkdate 2024 4 1)
  /\ months_before 4 (mkdate 2024 4 15) = mkdate 2023 12 1.
Proof. repeat split; reflexivity. Qed.

(* ================================================================= *)
(** * Sorting *)

Section FloatOrder.

Ltac sf_cases :=
  repeat match goal with
         | s : bool |- _ => destruct s
         end;
  unfold SFleb, SFltb, SFeqb, SFcompare, le3, sf_rank, sf_is_nan; simpl.

Lemma SFleb_rank (f1 f2 : spec_float) :
  SFleb f1 f2 = true
  <-> sf_is_nan f1 = false /\ sf_is_nan f2 = false
      /\ le3 (sf_rank f1) (sf_rank f2).
Proof.
  destruct f1 as [s1|s1| |s1 m1 e1], f2 as [s2|s2| |s2 m2 e2]; sf_cases;
    try (split; [intros H; try discriminate H; repeat split; lia
                | intros (H1 & H2 & H3); try discriminate; try reflexivity; lia]).
  - fold (Pos.compare m1 m2).
    destruct (Z.compare_spec e1 e2); destruct (Pos.compare_spec m1 m2); simpl;
      (split; [intros H'; try discriminate H'; repeat split; lia
              | intros (H1 & H2 & H3); try reflexivity; lia]).
  - fold (Pos.compare m1 m2).
    destruct (Z.compare_spec e1 e2); destruct (Pos.compare_spec m1 m2); simpl;
      (split; [intros H'; try discriminate H'; repeat split; lia
              | intros (H1 & H2 & H3); try reflexivity; lia]).
Qed.

Lemma SFltb_rank (f1 f2 : spec_float) :
  SFltb f1 f2 = true
  <-> sf_is_nan f1 = false /\ sf_is_nan f2 = false
      /\ ~ le3 (sf_rank f2) (sf_rank f1).
Proof.
  destruct f1 as [s1|s1| |s1 m1 e1], f2 as [s2|s2| |s2 m2 e2]; sf_cases;
    try (split; [intros H; try discriminate H; repeat split; lia
                | intros (H1 & H2 & H3); try discriminate; try reflexivity; lia]).
  - fold (Pos.compare m1 m2).
    destruct (Z.compare_spec e1 e2); destruct (Pos.compare_spec m1 m2); simpl;
      (split; [intros H'; try discriminate H'; repeat split; lia
              | intros (H1 & H2 & H3); try reflexivity; lia]).
  - fold (Pos.compare m1 m2).
    destruct (Z.compare_spec e1 e2); destruct (Pos.compare_spec m1 m2); simpl;
      (split; [intros H'; try discriminate H'; repeat split; lia
              | intros (H1 & H2 & H3); try reflexivity; lia]).
Qed.

Lemma SFeqb_refl_number (f : spec_float) :
  SFeqb f f = true <-> sf_is_nan f = false.
Proof.
  destruct f as [s|s| |s m e]; sf_cases; try (split; congruence).
  - fold (Pos.compare m m). rewrite Z.compare_refl, Pos.compare_refl. now split.
  - fold (Pos.compare m m). rewrite Z.compare_refl, Pos.compare_refl. now split.
Qed.

Lemma leb_trans (x y z : float) :
  (x <=? y)%float = true -> (y <=? z)%float = true -> (x <=? z)%float = true.
Proof.
  rewrite !leb_spec, !SFleb_rank. unfold le3.
  intros (H1 & H2 & H3) (H4 & H5 & H6). repeat split; try assumption. lia.
Qed.

Lemma ltb_leb (x y : float) :
  (x <? y)%float = true -> (x <=? y)%float = true.
Proof.
  rewrite ltb_spec, leb_spec. unfold SFltb, SFleb.
  destruct (SFcompare (Prim2SF x) (Prim2SF y)) as [[| |]|]; congruence.
Qed.

Lemma not_ltb_leb (x y : float) :
  (x =? x)%float = true -> (y =? y)%float = true ->
  (x <? y)%float = false -> (y <=? x)%float = true.
Proof.
  rewrite !eqb_spec, ltb_spec, leb_spec, !SFeqb_refl_number.
  intros Hx Hy Hlt. apply SFleb_rank. repeat split; try assumption.
  destruct (SFltb (Prim2SF x) (Prim2SF y)) eqn:E; [discriminate|].
  assert (Hn : ~ (sf_is_nan (Prim2SF x) = false /\ sf_is_nan (Prim2SF y) = false
                  /\ ~ le3 (sf_rank (Prim2SF y)) (sf_rank (Prim2SF x)))).
  { intros H. apply SFltb_rank in H. congruence. }
  assert (Hnn : ~ ~ le3 (sf_rank (Prim2SF y)) (sf_rank (Prim2SF x)))
    by (intros H; apply Hn; auto).
  clear - Hnn. unfold le3 in *. lia.
Qed.

End FloatOrder.

Section SortedFacts.

Variable A : Type.
Variable ltb : A -> A -> bool.

Lemma insert_perm (x : A) (l : list A) :
  Permutation (insert ltb x l) (x :: l).
Proof.
  induction l as [|y l IH]; simpl.
  - reflexivity.
  - destruct (ltb y x).
    + rewrite IH. apply perm_swap.
    + reflexivity.
Qed.

Lemma sorted_perm (l : list A) : Permutation (sorted ltb l) l.
Proof.
  induction l as [|x l IH]; simpl.
  - reflexivity.
  - rewrite insert_perm. now constructor.
Qed.

(** [P] holds of the elements [ltb] can order, [R a b] says that [a] may
    stand before [b]. *)
Variable P : A -> Prop.
Variable R : A -> A -> Prop.
Hypothesis R_trans : forall a b c, R a b -> R b c -> R a c.
Hypothesis ltb_true : forall x y, ltb y x = true -> R y x.
Hypothesis ltb_false : forall x y, P x -> P y -> ltb y x = false -> R x y.

Lemma insert_sorted (x : A) (l : list A) :
  P x -> Forall P l -> StronglySorted R l ->
  StronglySorted R (insert ltb x l).
Proof.
  intros Px Pl Hl; induction Hl as [|y l Hl IH Hy]; simpl.
  - repeat constructor.
  - inversion Pl as [|y' l' Py Pl']; subst.
    destruct (ltb y x) eqn:E.
    + constructor; [now apply IH|].
      apply Forall_forall. intros z Hz.
      apply (Permutation_in _ (insert_perm x l)) in Hz.
      destruct Hz as [<-|Hz]; [now apply ltb_true|].
      now apply (proj1 (Forall_forall _ _) Hy).
    + assert (Rxy : R x y) by now apply ltb_false.
      constructor; [now constructor|].
      constructor; [exact Rxy|].
      apply Forall_forall. intros z Hz.
      apply (R_trans _ _ _ Rxy). now apply (proj1 (Forall_forall _ _) Hy).
Qed.

Lemma sorted_sorted (l : list A) :
  Forall P l -> StronglySorted R (sorted ltb l).
Proof.
  induction l as [|x l IH]; intros Pl; simpl.
  - constructor.
  - inversion Pl; subst. apply insert_sorted; auto.
    apply (Permutation_Forall (Permutation_sym (sorted_perm l))). assumption.
Qed.

End SortedFacts.

Section Table.

Lemma mapM_ok (A B : Type) (f : A -> result B) (l : list A) (ks : list B) :
  mapM f l = Ok ks ->
  length ks = length l
  /\ Forall (fun p => f (snd p) = Ok (fst p)) (combine ks l).
Proof.
  revert ks; induction l as [|a l IH]; intros ks; simpl.
  - intros H; injection H as <-. split; [reflexivity|constructor].
  - destruct (f a) as [b|e] eqn:Hb; simpl; [|discriminate].
    destruct (mapM f l) as [bs|e]; simpl; [|discriminate].
    intros H; injection H as <-. destruct (IH bs eq_refl) as [Hlen Hall].
    split; [simpl; now rewrite Hlen|]. simpl. constructor; assumption.
Qed.

Lemma map_snd_combine (A B : Type) (ks : list B) (l : list A) :
  length ks = length l -> map snd (combine ks l) = l.
Proof.
  revert ks; induction l as [|a l IH]; intros [|k ks]; simpl; try easy.
  intros H. injection H as H. now rewrite IH.
Qed.

(** The pairs of a key and its row, as the sort sees them. *)
Let keyed (p : float * Row) : Prop :=
  sort_key (snd p) = Ok (fst p) /\ (fst p =? fst p)%float = true.

Let before (a b : float * Row) : Prop := (fst b <=? fst a)%float = true.

Lemma sorted_pairs_rows (l : list (float * Row)) :
  StronglySorted before l -> Forall keyed l ->
  StronglySorted key_ge (map snd l).
Proof.
  induction 1 as [|a l Hl IH Ha]; intros Hk; simpl.
  - constructor.
  - inversion Hk as [|a' l' Ka Kl]; subst. constructor; [now apply IH|].
    apply Forall_forall. intros r Hr. apply in_map_iff in Hr as (b & <- & Hb).
    exists (fst a), (fst b). split; [apply Ka|].
    split; [apply (proj1 (Forall_forall _ _) Kl b Hb)|].
    apply (proj1 (Forall_forall _ _) Ha b Hb).
Qed.

(** The sorted rows are the rows given, and every row's key is at least
    the key of each row below it. *)
Lemma sort_rows_sorted (rows out : list Row) :
  sort_rows rows = Ok out ->
  Permutation out rows
  /\ (Forall key_is_number rows -> StronglySorted key_ge out).
Proof.
  unfold sort_rows. destruct (mapM sort_key rows) as [keys|e] eqn:Hk; simpl;
    [|discriminate].
  intros H; injection H as <-.
  apply mapM_ok in Hk as [Hlen Hall].
  set (lt := fun a b : float * Row => (fst b <? fst a)%float).
  split.
  - rewrite <- (map_snd_combine _ _ keys rows Hlen) at 2.
    apply Permutation_map, sorted_perm.
  - intros Hnum.
    assert (Hkeyed : Forall keyed (combine keys rows)).
    { apply Forall_forall. intros p Hp.
      pose proof (proj1 (Forall_forall _ _) Hall p Hp) as Hkey.
      destruct p as [k r]. apply in_combine_r in Hp.
      destruct (proj1 (Forall_forall _ _) Hnum r Hp) as (k' & Hk' & Hn).
      simpl in Hkey. rewrite Hk' in Hkey. injection Hkey as <-.
      split; [exact Hk'|exact Hn]. }
    apply sorted_pairs_rows.
    + apply (sorted_sorted _ lt keyed before).
      * intros a b c Hab Hbc. exact (leb_trans _ _ _ Hbc Hab).
      * intros x y Hlt. apply ltb_leb. exact Hlt.
      * intros x y [_ Hx] [_ Hy] Hlt. apply not_ltb_leb; assumption.
      * exact Hkeyed.
    + apply (Permutation_Forall (Permutation_sym (sorted_perm _ lt _))).
      exact Hkeyed.
Qed.

Lemma Permutation_three (A : Type) (a b c : A) (l : list A) :
  Permutation l [a; b; c] ->
  l = [a; b; c] \/ l = [a; c; b] \/ l = [b; a; c]
  \/ l = [b; c; a] \/ l = [c; a; b] \/ l = [c; b; a].
Proof.
  intros H. pose proof (Permutation_length H) as Hlen.
  destruct l as [|x [|y [|z [|w l]]]]; try discriminate.
  assert (Hx : In x [a; b; c]) by (apply (Permutation_in _ H); now left).
  destruct Hx as [<-|[<-|[<-|[]]]].
  - apply Permutation_cons_inv in H.
    apply Permutation_sym, Permutation_length_2_inv in H as [E|E];
      injection E as -> ->; auto.
  - assert (H' : Permutation (b :: [y; z]) (b :: [a; c])).
    { rewrite H. apply perm_swap. }
    apply Permutation_cons_inv in H'.
    apply Permutation_sym, Permutation_length_2_inv in H' as [E|E];
      injection E as -> ->; auto 6.
  - assert (H' : Permutation (c :: [y; z]) (c :: [a; b])).
    { rewrite H. symmetry. apply (Permutation_cons_append [a; b] c). }
    apply Permutation_cons_inv in H'.
    apply Permutation_sym, Permutation_length_2_inv in H' as [E|E];
      injection E as -> ->; auto 7.
Qed.

(** The months of an account come out of [sorted] in calendar order. *)
Lemma sorted_items_by_month (bills : AccountBills) :
  Permutation (sorted item_ltb bills) bills
  /\ StronglySorted (fun a b => key_ltb (fst b) (fst a) = false)
       (sorted item_ltb bills).
Proof.
  split; [apply sorted_perm|].
  apply (sorted_sorted _ item_ltb (fun _ => True)
           (fun a b => key_ltb (fst b) (fst a) = false)).
  - intros [[y1 m1] a1] [[y2 m2] a2] [[y3 m3] a3]; unfold key_ltb; simpl.
    intros H1 H2. lia.
  - intros [[y1 m1] a1] [[y2 m2] a2]; unfold item_ltb, key_eqb, key_ltb; simpl.
    destruct (y2 =? y1)%Z eqn:Ey; destruct (m2 =? m1)%Z eqn:Em; simpl; lia.
  - intros [[y1 m1] a1] [[y2 m2] a2] _ _; unfold item_ltb, key_eqb, key_ltb;
      simpl.
    destruct (y2 =? y1)%Z eqn:Ey; destruct (m2 =? m1)%Z eqn:Em; simpl; lia.
  - apply Forall_forall. auto.
Qed.

(** With at least one month the sorted months end in this month; with at
    least two, months come before it. *)
Lemma sorted_items_snoc (bills : AccountBills) :
  1 <= length bills ->
  exists prev_months this_month,
    sorted item_ltb bills = prev_months ++ [this_month]
    /\ length prev_months + 1 = length bills.
Proof.
  intros H.
  pose proof (Permutation_length (sorted_perm _ item_ltb bills)) as Hlen.
  destruct (exists_last (l := sorted item_ltb bills)) as (p & t & E).
  - intros E. rewrite E in Hlen. simpl in Hlen. lia.
  - exists p, t. split; [exact E|].
    rewrite E, length_app in Hlen. simpl in Hlen. lia.
Qed.

Lemma positive_nonzero (v : float) :
  (0 <=? v)%float = true -> (0 <? v)%float = nonzero v.
Proof.
  unfold nonzero. rewrite leb_spec, ltb_spec, eqb_spec.
  change (Prim2SF 0) with (S754_zero false).
  destruct (Prim2SF v) as [s|s| |s m e]; try destruct s; simpl;
    intros; try discriminate; reflexivity.
Qed.

Lemma foldM_ext (A S : Type) (f g : S -> A -> result S) (l : list A) :
  (forall s a, In a l -> f s a = g s a) ->
  forall s, foldM f l s = foldM g l s.
Proof.
  induction l as [|a l IH]; intros H s; simpl; [reflexivity|].
  rewrite (H s a) by now left.
  destruct (g s a) as [s'|e]; simpl; [|reflexivity].
  apply IH. intros s0 a0 Ha. apply H. now right.
Qed.

(** The total as computed and the total with the mean of the non-zero
    amounts differ only where an account has an amount below zero. *)
Lemma total_bills_nonnegative (billing_data : BillingData) :
  Forall (fun account =>
            Forall (fun item => (0 <=? snd item)%float = true) (snd account))
    billing_data ->
  total_bills billing_data = nonzero_total_bills billing_data.
Proof.
  intros H. unfold total_bills, nonzero_total_bills.
  apply foldM_ext. intros t account Ha.
  pose proof (proj1 (Forall_forall _ _) H account Ha) as Hacc.
  unfold add_account. apply foldM_ext. intros t' item Hi.
  unfold backfilled, nonzero_backfilled.
  replace (filter (fun v => (0 <? v)%float) (map snd (snd account)))
    with (filter nonzero (map snd (snd account))); [reflexivity|].
  apply filter_ext_in. intros v Hv. apply in_map_iff in Hv as (it & <- & Hit).
  symmetry. apply positive_nonzero.
  exact (proj1 (Forall_forall _ _) Hacc it Hit).
Qed.

Lemma key_eqb_eq (a b : MonthKey) : key_eqb a b = true <-> a = b.
Proof.
  destruct a as [y1 m1], b as [y2 m2]. unfold key_eqb. simpl.
  rewrite andb_true_iff, !Z.eqb_eq. split.
  - intros [-> ->]. reflexivity.
  - intros H. injection H as -> ->. auto.
Qed.

Lemma key_eqb_refl (a : MonthKey) : key_eqb a a = true.
Proof. now apply key_eqb_eq. Qed.

Lemma add_to_get (t : AccountBills) (m k : MonthKey) (x : float) :
  dict_get (add_to t m x) k
  = if key_eqb m k then add_share (dict_get t m) x else dict_get t k.
Proof.
  induction t as [|[k' v] t IH]; simpl.
  - destruct (key_eqb m k); reflexivity.
  - destruct (key_eqb k' m) eqn:E; simpl.
    + apply key_eqb_eq in E. subst k'.
      destruct (key_eqb m k); reflexivity.
    + rewrite IH. destruct (key_eqb m k) eqn:Ek; [|reflexivity].
      apply key_eqb_eq in Ek. subst k. now rewrite E.
Qed.

Lemma bind_ext (A B : Type) (r : result A) (k1 k2 : A -> result B) :
  (forall a, k1 a = k2 a) -> bind r k1 = bind r k2.
Proof. intros H. destruct r; simpl; [apply H|reflexivity]. Qed.

Lemma foldM_app (A S : Type) (f : S -> A -> result S) (l1 l2 : list A) (s : S) :
  foldM f (l1 ++ l2) s = (s' <- foldM f l1 s ;; foldM f l2 s').
Proof.
  revert s; induction l1 as [|a l1 IH]; intros s; simpl; [reflexivity|].
  destruct (f s a) as [s'|e]; simpl; [apply IH|reflexivity].
Qed.

Lemma add_account_months (bills items : AccountBills) (t : AccountBills) :
  foldM (fun t item =>
           x <- backfilled bills (snd item) ;; Ok (add_to t (fst item) x))
    items t
  = foldM share_step (map (pair bills) items) t.
Proof.
  revert t; induction items as [|item items IH]; intros t;
    cbn [foldM map]; [reflexivity|].
  unfold share_step at 1. cbn [fst snd].
  destruct (backfilled bills (snd item)); cbn [bind]; [apply IH|reflexivity].
Qed.

Lemma total_bills_months (billing_data : BillingData) (t : AccountBills) :
  foldM (fun t account => add_account t (snd account)) billing_data t
  = foldM share_step (account_months billing_data) t.
Proof.
  revert t; induction billing_data as [|account bd IH]; intros t;
    [reflexivity|].
  unfold account_months. cbn [flat_map foldM]. rewrite foldM_app.
  unfold add_account at 1. rewrite add_account_months.
  apply bind_ext. intros t'. apply IH.
Qed.

Lemma share_steps_get (items : list (AccountBills * (MonthKey * float)))
  (t0 t : AccountBills) (k : MonthKey) :
  foldM share_step items t0 = Ok t ->
  exists shares,
    mapM (fun p => backfilled (fst p) (snd (snd p)))
      (filter (fun p => key_eqb (fst (snd p)) k) items) = Ok shares
    /\ dict_get t k = fold_left add_share shares (dict_get t0 k).
Proof.
  revert t0; induction items as [|p items IH]; intros t0;
    cbn [foldM filter].
  - intros H; injection H as <-. exists []. split; reflexivity.
  - unfold share_step at 1.
    destruct (backfilled (fst p) (snd (snd p))) as [x|e] eqn:Hx; cbn [bind];
      [|discriminate].
    intros H. destruct (IH _ H) as (shares & Hs & Hget).
    rewrite add_to_get in Hget.
    destruct (key_eqb (fst (snd p)) k) eqn:E.
    + apply key_eqb_eq in E. rewrite E in Hget.
      cbn [mapM]. rewrite Hx, Hs. cbn [bind].
      exists (x :: shares). split; [reflexivity|]. exact Hget.
    + exists shares. split; assumption.
Qed.

Lemma fold_add_share (shares : list float) (v : float) :
  fold_left add_share shares (Some v) = Some (fold_left PrimFloat.add shares v).
Proof.
  revert v; induction shares as [|x shares IH]; intros v; simpl;
    [reflexivity|apply IH].
Qed.

(** The total of a month is the sum of what the accounts that have the
    month add to it, an amount or its backfill, in the order of the
    accounts; a month no account has is not in the total. *)
Lemma total_bills_month (billing_data : BillingData) (total : AccountBills)
  (k : MonthKey) :
  total_bills billing_data = Ok total ->
  exists shares,
    month_shares billing_data k = Ok shares
    /\ dict_get total k = match shares with
                          | [] => None
                          | _ :: _ => Some (py_sum shares)
                          end.
Proof.
  unfold total_bills. rewrite total_bills_months. intros H.
  destruct (share_steps_get _ _ _ k H) as (shares & Hs & Hget).
  exists shares. split; [exact Hs|]. rewrite Hget. simpl.
  destruct shares as [|x shares]; [reflexivity|].
  simpl. unfold py_sum. simpl. apply fold_add_share.
Qed.

End Table.

(* ================================================================= *)
(** * Properties of the total row *)

(** C4: in the example of the specification the total for February is 15.
    With a credit of -10 in January the zero of February is replaced by
    10, the mean of the amounts above zero, and the total is again 15;
    the mean of the amounts that are not zero is 0 and gives 5. *)
Theorem total_bills_backfill :
  total_bills [(lit "A", account_A); (lit "B", account_B)]
  = Ok [(jan, 15); (feb, 15); (mar, 15)]%float
  /\ total_bills [(lit "A", account_A_credit); (lit "B", account_B)]
     = Ok [(jan, -5); (feb, 15); (mar, 15)]%float
  /\ nonzero_total_bills [(lit "A", account_A_credit); (lit "B", account_B)]
     = Ok [(jan, -5); (feb, 5); (mar, 15)]%float.
Proof. repeat split; vm_compute; reflexivity. Qed.

(** C8: the account rows of the table are the rendered rows, ordered by
    the number read back from the third cell once its commas are removed,
    largest first, and the separator and the TOTAL row follow them.  Rows
    whose third cells read 1,200.00, 50.00 and 999.99 come out in the
    order 1,200.00, 999.99, 50.00 whatever order they are given in, and so
    do three such accounts in the whole table. *)
Theorem billing_rows_order :
  (forall (billing_data : BillingData) (rows : list Row),
      billing_rows billing_data = Ok rows ->
      exists rendered accounts total total_row,
        mapM (fun account => _render_row (fst account) (snd account))
          billing_data = Ok rendered
        /\ total_bills billing_data = Ok total
        /\ _render_row (lit "TOTAL") total = Ok total_row
        /\ rows = accounts ++ [separator; total_row]
        /\ Permutation accounts rendered
        /\ (Forall key_is_number rendered -> StronglySorted key_ge accounts))
  /\ sort_key [lit "big"; lit "1,200.00"; lit "1,200.00"; []; []]
     = Ok 1200%float
  /\ (forall (r1 r2 r3 : Row) (rows : list Row),
         nth_error r1 2 = Some (lit "1,200.00") ->
         nth_error r2 2 = Some (lit "50.00") ->
         nth_error r3 2 = Some (lit "999.99") ->
         Permutation rows [r1; r2; r3] ->
         sort_rows rows = Ok [r1; r3; r2])
  /\ (forall billing_data : BillingData,
         Permutation billing_data [account_big; account_small; account_mid] ->
         billing_rows billing_data
         = Ok [ [lit "big"; lit "1,200.00"; lit "1,200.00"; []; []];
                [lit "mid"; lit "999.99"; lit "999.99"; []; []];
                [lit "small"; lit "50.00"; lit "50.00"; []; []];
                separator;
                [lit "TOTAL"; lit "2,249.99"; lit "2,249.99"; []; []] ]).
Proof.
  split; [|split; [vm_compute; reflexivity|split]].
  - intros billing_data rows. unfold billing_rows.
    destruct (mapM _ billing_data) as [rendered|e] eqn:Hr; cbn [bind];
      [|discriminate].
    destruct (sort_rows rendered) as [accounts|e] eqn:Hs; cbn [bind];
      [|discriminate].
    destruct (total_bills billing_data) as [total|e] eqn:Ht; cbn [bind];
      [|discriminate].
    destruct (_render_row (lit "TOTAL") total) as [total_row|e] eqn:Hrow;
      cbn [bind]; [|discriminate].
    intros H; injection H as <-.
    destruct (sort_rows_sorted rendered accounts Hs) as [Hperm Hsorted].
    exists rendered, accounts, total, total_row. repeat split; auto.
  - intros r1 r2 r3 rows H1 H2 H3 Hp.
    apply Permutation_three in Hp as [-> | [-> | [-> | [-> | [-> | ->]]]]];
      unfold sort_rows; cbn [mapM bind]; unfold sort_key;
      rewrite ?H1, ?H2, ?H3; vm_compute; reflexivity.
  - intros billing_data Hp.
    apply Permutation_three in Hp as [-> | [-> | [-> | [-> | [-> | ->]]]]];
      vm_compute; reflexivity.
Qed.

(** The table of the accounts A and B of the total-row example. *)
Lemma billing_rows_order_witness :
  exists rendered accounts total total_row,
    mapM (fun account => _render_row (fst account) (snd account))
      [(lit "A", account_A); (lit "B", account_B)] = Ok rendered
    /\ total_bills [(lit "A", account_A); (lit "B", account_B)] = Ok total
    /\ _render_row (lit "TOTAL") total = Ok total_row
    /\ [ [lit "A"; lit "10.00"; lit "10.00"; []; []];
         [lit "B"; lit "5.00"; lit "5.00"; []; []];
         separator;
         [lit "TOTAL"; lit "15.00"; lit "15.00"; []; []] ]
       = accounts ++ [separator; total_row]
    /\ Permutation accounts rendered
    /\ (Forall key_is_number rendered -> StronglySorted key_ge accounts).
Proof.
  exact (proj1 billing_rows_order
           [(lit "A", account_A); (lit "B", account_B)] _ eq_refl).
Defined.

(* ================================================================= *)
(** * More on the formatter *)

Section Grouping.

Lemma lead_digits_split (s : str) :
  forallb isdecimal (firstn (lead_digits s) s) = true
  /\ lead_digits (skipn (lead_digits s) s) = 0
  /\ length (firstn (lead_digits s) s) = lead_digits s.
Proof.
  induction s as [|c s IH]; simpl; [auto|].
  destruct (isdecimal c) eqn:Hc; simpl.
  - rewrite Hc. destruct IH as (H1 & H2 & H3). simpl. now rewrite H1, H2, H3.
  - rewrite Hc. auto.
Qed.

Lemma split_sign_eq (s : str) :
  s = sign_str (fst (split_sign s)) ++ snd (split_sign s)
  /\ digit_run s = lead_digits (snd (split_sign s)).
Proof.
  destruct s as [|c s]; simpl; [auto|].
  destruct (N.eqb c minus) eqn:Hc; simpl; [|auto].
  apply N.eqb_eq in Hc. now subst c.
Qed.

Lemma re_sub_split (s : str) :
  let neg := fst (split_sign s) in
  let body := snd (split_sign s) in
  let ds := firstn (lead_digits body) body in
  let rest := skipn (lead_digits body) body in
  re_sub s
  = if 4 <=? length ds
    then sign_str neg ++ firstn (length ds - 3) ds
           ++ comma :: skipn (length ds - 3) ds ++ rest
    else s.
Proof.
  intros neg body ds rest.
  destruct (lead_digits_split body) as (Hds & Hrest & Hlen).
  fold ds in Hds, Hlen. fold rest in Hrest.
  assert (Hbody : body = ds ++ rest) by (symmetry; apply firstn_skipn).
  pose proof (digits_then_three_block ds rest Hds Hrest) as Hb.
  rewrite <- Hbody in Hb.
  unfold re_sub, match_groups.
  destruct s as [|c s']; [subst ds; simpl; reflexivity|].
  subst neg body. cbn [split_sign fst snd] in *.
  destruct (N.eqb c minus) eqn:Hc; cbn [fst snd sign_str app] in *.
  - apply N.eqb_eq in Hc. subst c.
    rewrite Hb. destruct (4 <=? length ds) eqn:H4; [reflexivity|].
    cbn [digits_then_three]. rewrite isdecimal_minus. reflexivity.
  - rewrite Hb. destruct (4 <=? length ds) eqn:H4; reflexivity.
Qed.

Lemma pprint_currency_grouped (s : str) :
  pprint_currency (VStr s) = Ok (grouped s).
Proof.
  pose proof (re_sub_split s) as Hs. cbv zeta in Hs.
  destruct (split_sign_eq s) as [Hsplit _].
  unfold grouped.
  destruct (split_sign s) as [neg body]. simpl fst in *. simpl snd in *.
  destruct (lead_digits_split body) as (Hds & Hrest & Hlen).
  set (ds := firstn (lead_digits body) body) in *.
  set (rest := skipn (lead_digits body) body) in *.
  assert (Hbody : body = ds ++ rest) by (symmetry; apply firstn_skipn).
  destruct (4 <=? length ds) eqn:H4.
  - apply Nat.leb_le in H4.
    rewrite pprint_currency_step, Hs.
    rewrite (pprint_currency_block (length ds) neg _ comma _).
    + rewrite (with_commas_long ds H4).
      rewrite <- !app_assoc. reflexivity.
    + rewrite length_firstn. lia.
    + clear - Hds. revert Hds. generalize (length ds - 3).
      induction ds as [|d ds IH]; intros [|n]; simpl; auto.
      rewrite andb_true_iff. intros [-> H]. simpl. now apply IH.
    + apply isdecimal_comma.
    + discriminate.
  - apply Nat.leb_gt in H4.
    rewrite (with_commas_short ds) by lia.
    rewrite <- Hbody, <- Hsplit.
    apply pprint_currency_fixed. exact Hs.
Qed.

Lemma remove_commas_app (a b : str) :
  remove_commas (a ++ b) = remove_commas a ++ remove_commas b.
Proof. apply filter_app. Qed.

Lemma with_commas_length (n : nat) :
  forall ds : str, length ds <= n ->
    length (with_commas ds) = length ds + (length ds - 1) / 3.
Proof.
  induction n as [n IH] using lt_wf_ind. intros ds Hn.
  destruct (le_lt_dec (length ds) 3) as [H3|H4].
  - rewrite with_commas_short by exact H3.
    rewrite Nat.div_small by lia. lia.
  - rewrite (with_commas_long ds H4), length_app. cbn [length].
    rewrite (IH (length ds - 3)), length_skipn, length_firstn; try lia.
    + replace (Nat.min (length ds - 3) (length ds)) with (length ds - 3) by lia.
      replace (length ds - 1) with (length ds - 3 - 1 + 1 * 3) by lia.
      rewrite Nat.div_add by lia. lia.
    + rewrite length_firstn. lia.
Qed.

Lemma remove_commas_with_commas (n : nat) :
  forall ds : str, length ds <= n ->
    remove_commas (with_commas ds) = remove_commas ds.
Proof.
  induction n as [n IH] using lt_wf_ind. intros ds Hn.
  destruct (le_lt_dec (length ds) 3) as [H3|H4].
  - now rewrite with_commas_short.
  - rewrite (with_commas_long ds H4), remove_commas_app.
    rewrite (IH (length ds - 3)); try lia.
    + change (remove_commas (comma :: skipn (length ds - 3) ds))
        with (remove_commas (skipn (length ds - 3) ds)).
      rewrite <- remove_commas_app, firstn_skipn. reflexivity.
    + rewrite length_firstn. lia.
Qed.

Lemma decimal_not_comma (ds : str) :
  forallb isdecimal ds = true -> remove_commas ds = ds.
Proof.
  induction ds as [|d ds IH]; simpl; [reflexivity|].
  rewrite andb_true_iff. intros [Hd Hds].
  destruct (N.eqb d comma) eqn:E.
  - apply N.eqb_eq in E. subst d. now rewrite isdecimal_comma in Hd.
  - simpl. now rewrite IH.
Qed.

Lemma two_digits_decimal (n : N) : forallb isdecimal (two_digits n) = true.
Proof.
  unfold two_digits, decimal_of_N. destruct (n <? 10)%N; simpl;
    now rewrite ?digits_all_decimal.
Qed.

Lemma format_2f_no_comma (f : float) :
  remove_commas (format_2f f) = format_2f f.
Proof.
  unfold format_2f. destruct (Prim2SF f) as [s|s| |s m e].
  - now destruct s.
  - now destruct s.
  - reflexivity.
  - rewrite !remove_commas_app.
    change (remove_commas (dot :: ?t)) with (dot :: remove_commas t).
    rewrite (decimal_not_comma (decimal_of_N _)) by apply digits_all_decimal.
    rewrite (decimal_not_comma (two_digits _)) by apply two_digits_decimal.
    now destruct s.
Qed.

Lemma grouped_commas (s : str) :
  remove_commas (grouped s) = remove_commas s
  /\ length (grouped s) = length s + (digit_run s - 1) / 3.
Proof.
  destruct (split_sign_eq s) as [Hs Hrun]. unfold grouped.
  destruct (split_sign s) as [neg body]. simpl fst in *. simpl snd in *.
  destruct (lead_digits_split body) as (_ & _ & Hlen).
  split.
  - rewrite !remove_commas_app, (remove_commas_with_commas _ _ (le_n _)).
    rewrite <- !remove_commas_app, firstn_skipn. now rewrite <- Hs.
  - rewrite !length_app, (with_commas_length _ _ (le_n _)), Hlen.
    assert (Hb : length body
                 = lead_digits body + length (skipn (lead_digits body) body)).
    { rewrite <- (firstn_skipn (lead_digits body) body) at 1.
      now rewrite length_app, Hlen. }
    apply (f_equal (@length _)) in Hs. rewrite length_app in Hs.
    rewrite Hrun. lia.
Qed.

Lemma currency_without_commas (f : float) :
  remove_commas (currency f) = format_2f f.
Proof.
  unfold currency.
  rewrite pprint_currency_float_str, pprint_currency_grouped.
  rewrite (proj1 (grouped_commas _)). apply format_2f_no_comma.
Qed.

End Grouping.

(** ** The recursion limit *)

Section Recursion.

Lemma str_eqb_length (s t : str) : str_eqb s t = true -> length s = length t.
Proof. intros H. apply str_eqb_eq in H. now subst. Qed.

(** A substitution that finds its four digits takes three of them from the
    digits the next one sees, and changes the string. *)
Lemma digit_run_re_sub (s : str) :
  4 <= digit_run s ->
  digit_run (re_sub s) = digit_run s - 3 /\ str_eqb s (re_sub s) = false.
Proof.
  intros H4.
  pose proof (re_sub_split s) as Hs. cbv zeta in Hs.
  destruct (split_sign_eq s) as [Hsplit Hrun].
  destruct (split_sign s) as [neg body]. cbn [fst snd] in *.
  destruct (lead_digits_split body) as (Hds & Hrest & Hlen).
  set (ds := firstn (lead_digits body) body) in *.
  set (rest := skipn (lead_digits body) body) in *.
  assert (Hbody : body = ds ++ rest) by (symmetry; apply firstn_skipn).
  rewrite Hlen, <- Hrun in Hs.
  replace (4 <=? digit_run s) with true in Hs
    by (symmetry; now apply Nat.leb_le).
  rewrite Hs. split.
  - assert (Hd1 : forallb isdecimal (firstn (digit_run s - 3) ds) = true).
    { clear - Hds. revert Hds. generalize (digit_run s - 3).
      induction ds as [|d ds IH]; intros [|n]; simpl; auto.
      rewrite andb_true_iff. intros [-> H]. simpl. now apply IH. }
    assert (Hl1 : length (firstn (digit_run s - 3) ds) = digit_run s - 3)
      by (rewrite length_firstn; lia).
    destruct neg; cbn [sign_str app digit_run].
    + rewrite N.eqb_refl.
      rewrite (lead_digits_group _ _ comma Hd1 isdecimal_comma). exact Hl1.
    + destruct (firstn (digit_run s - 3) ds) as [|c g] eqn:Eg;
        [simpl in Hl1; lia|].
      assert (Hc : N.eqb c minus = false).
      { apply N.eqb_neq. intros ->.
        cbn [forallb] in Hd1. rewrite isdecimal_minus in Hd1. discriminate. }
      generalize (skipn (digit_run s - 3) ds ++ rest). intros t.
      transitivity (lead_digits ((c :: g) ++ comma :: t)).
      * cbn [app]. unfold digit_run. now rewrite Hc.
      * rewrite (lead_digits_group _ _ comma Hd1 isdecimal_comma). exact Hl1.
  - destruct (str_eqb s _) eqn:E; [|reflexivity].
    apply str_eqb_length in E. rewrite Hsplit in E at 1.
    rewrite !length_app in E. cbn [length] in E. rewrite !length_app in E.
    rewrite Hbody, length_app in E.
    rewrite length_firstn, length_skipn in E. lia.
Qed.

Lemma calls_needed_re_sub (s : str) :
  4 <= digit_run s -> calls_needed s = S (calls_needed (re_sub s)).
Proof.
  intros H4. unfold calls_needed.
  rewrite (proj1 (digit_run_re_sub s H4)).
  replace (digit_run s - 1) with (digit_run s - 3 - 1 + 1 * 3) by lia.
  now rewrite Nat.div_add by lia; rewrite Nat.add_1_r.
Qed.

Lemma calls_needed_one (s : str) :
  digit_run s <= 3 -> calls_needed s = 1 /\ re_sub s = s.
Proof.
  intros H3. split.
  - unfold calls_needed. now rewrite Nat.div_small by lia.
  - destruct (str_eqb (re_sub s) s) eqn:E; [now apply str_eqb_eq|].
    assert (Hne : re_sub s <> s).
    { intros H. rewrite H, str_eqb_refl in E. discriminate. }
    apply re_sub_shortens in Hne. lia.
Qed.

(** The formatter makes exactly [calls_needed] nested calls: with that
    many allowed it returns, with fewer it does not. *)
Lemma pprint_currency_depth_exact (depth : nat) :
  forall s : str,
    pprint_currency_depth depth (VStr s)
    = if calls_needed s <=? depth then Some (Ok (grouped s)) else None.
Proof.
  induction depth as [|depth IH]; intros s.
  - unfold calls_needed. reflexivity.
  - destruct (calls_needed s <=? S depth) eqn:E.
    + apply Nat.leb_le in E.
      destruct (pprint_currency_depth_str (S depth) s E) as (r & Hr & _).
      rewrite Hr. apply pprint_currency_eq in Hr.
      rewrite pprint_currency_grouped in Hr. now injection Hr as <-.
    + apply Nat.leb_gt in E.
      destruct (le_lt_dec 4 (digit_run s)) as [H4|H3].
      * cbn [pprint_currency_depth to_orig].
        rewrite (proj2 (digit_run_re_sub s H4)), IH.
        rewrite (calls_needed_re_sub s H4) in E.
        replace (calls_needed (re_sub s) <=? depth) with false; [reflexivity|].
        symmetry. apply Nat.leb_gt. lia.
      * destruct (calls_needed_one s) as [H1 _]; lia.
Qed.

Lemma pprint_currency_limited_str (frames : nat) (s : str) :
  pprint_currency_limited frames (VStr s)
  = if calls_needed s <=? frames then Ok (grouped s)
    else Raise RecursionError.
Proof.
  unfold pprint_currency_limited. rewrite pprint_currency_depth_exact.
  now destruct (calls_needed s <=? frames).
Qed.

Let starts_nonzero (d : Decimal.uint) : Prop :=
  match d with
  | Decimal.Nil | Decimal.D0 _ => False
  | _ => True
  end.

Lemma nzhead_head (d : Decimal.uint) :
  Decimal.nzhead d = Decimal.Nil \/ starts_nonzero (Decimal.nzhead d).
Proof. induction d; simpl; auto. Qed.

Lemma usize_nb_digits (d : Decimal.uint) :
  DecimalPos.Unsigned.usize d = N.of_nat (Decimal.nb_digits d).
Proof.
  induction d; cbn [DecimalPos.Unsigned.usize Decimal.nb_digits];
    rewrite ?Nat2N.inj_succ, ?IHd; reflexivity.
Qed.

Lemma of_uint_lower (d : Decimal.uint) :
  starts_nonzero d ->
  (10 ^ N.of_nat (Decimal.nb_digits d - 1) <= N.of_uint d)%N.
Proof.
  intros Hd. unfold N.of_uint. rewrite DecimalPos.Unsigned.of_uint_alt.
  destruct d as [|r|r|r|r|r|r|r|r|r|r]; try contradiction;
    unfold Decimal.rev; cbn [Decimal.revapp Decimal.nb_digits];
    rewrite DecimalPos.Unsigned.of_lu_revapp, usize_nb_digits, Nat.sub_succ,
      Nat.sub_0_r;
    cbn [DecimalPos.Unsigned.of_lu];
    generalize (DecimalPos.Unsigned.of_lu (Decimal.rev r));
    generalize (10 ^ N.of_nat (Decimal.nb_digits r))%N; intros p q; nia.
Qed.

(** A number below the [k]-th power of ten is written with at most [k]
    digits. *)
Lemma decimal_of_N_length (n : N) (k : nat) :
  (n < 10 ^ N.of_nat k)%N -> 1 <= k -> length (decimal_of_N n) <= k.
Proof.
  intros Hn Hk. unfold decimal_of_N.
  assert (Hlen : forall d, length (digits_of_uint d) = Decimal.nb_digits d)
    by (induction d; simpl; congruence).
  rewrite Hlen.
  pose proof (DecimalN.Unsigned.to_of (N.to_uint n)) as Hnorm.
  rewrite DecimalN.Unsigned.of_to in Hnorm.
  pose proof (DecimalN.Unsigned.of_to n) as Hof.
  set (d := N.to_uint n) in *.
  unfold Decimal.unorm in Hnorm.
  destruct (nzhead_head d) as [Hnil|Hnz].
  - rewrite Hnil in Hnorm. rewrite Hnorm. exact Hk.
  - assert (Hd : d = Decimal.nzhead d).
    { destruct (Decimal.nzhead d); [contradiction|assumption..]. }
    rewrite <- Hd in Hnz.
    pose proof (of_uint_lower d Hnz) as Hlow. rewrite Hof in Hlow.
    assert (Hlt : (10 ^ N.of_nat (Decimal.nb_digits d - 1)
                   < 10 ^ N.of_nat k)%N) by lia.
    apply N.pow_lt_mono_r_iff in Hlt; lia.
Qed.

Lemma digits2_pos_bound (m : positive) :
  (Zpos m < 2 ^ Zpos (digits2_pos m))%Z.
Proof.
  induction m as [m IH|m IH|]; cbn [digits2_pos];
    rewrite ?Pos2Z.inj_succ, ?Z.pow_succ_r by lia; lia.
Qed.

(** The mantissa and the exponent of a finite float are those of a
    binary64 number. *)
Lemma finite_bounds (f : float) (s : bool) (m : positive) (e : Z) :
  Prim2SF f = S754_finite s m e -> (Zpos m < 2 ^ 53 /\ e <= 971)%Z.
Proof.
  intros Hf. pose proof (Prim2SF_valid f) as Hv. rewrite Hf in Hv.
  unfold SpecFloat.valid_binary, bounded, canonical_mantissa, fexp, emin,
    prec, emax in Hv.
  apply andb_true_iff in Hv as [Hc He].
  apply Z.eqb_eq in Hc. apply Z.leb_le in He.
  pose proof (digits2_pos_bound m) as Hm.
  assert (Hd : (Zpos (digits2_pos m) <= 53)%Z) by lia.
  split; [|lia].
  apply (Z.lt_le_trans _ _ _ Hm). apply Z.pow_le_mono_r; lia.
Qed.

Lemma whole_part_bound (m : positive) (e : Z) :
  (Zpos m < 2 ^ 53)%Z -> (e <= 971)%Z ->
  (hundredths m e / 100 < 10 ^ 309)%N.
Proof.
  intros Hm He.
  assert (Hm' : (Npos m < 2 ^ 53)%N) by lia.
  apply (N.lt_trans _ (2 ^ 1024)); [|vm_compute; reflexivity].
  assert (Hpos : forall k : N, (k <= 971)%N ->
            (N.shiftl (Npos m) k * 100 / 100 < 2 ^ 1024)%N).
  { intros k Hk. rewrite N.div_mul by discriminate.
    rewrite N.shiftl_mul_pow2.
    apply (N.lt_le_trans _ (2 ^ 53 * 2 ^ k)).
    - apply N.mul_lt_mono_pos_r; [|exact Hm'].
      apply N.neq_0_lt_0, N.pow_nonzero. discriminate.
    - rewrite <- N.pow_add_r. apply N.pow_le_mono_r; [discriminate|lia]. }
  destruct e as [|p|p]; cbn [hundredths].
  - apply (Hpos 0%N). lia.
  - apply (Hpos (Z.to_N (Zpos p))). lia.
  - set (num := (Npos m * 100)%N). set (den := N.shiftl 1 (Npos p)).
    assert (Hq : (num / den <= num)%N).
    { apply N.Div0.div_le_upper_bound.
      assert (1 <= den)%N.
      { unfold den. rewrite N.shiftl_1_l.
        pose proof (N.pow_nonzero 2 (Npos p)). lia. }
      nia. }
    assert (Hh : (match (2 * (num mod den) ?= den)%N with
                  | Lt => num / den
                  | Gt => N.succ (num / den)
                  | Eq => if N.even (num / den) then num / den
                          else N.succ (num / den)
                  end <= num + 1)%N).
    { destruct (2 * (num mod den) ?= den)%N;
        [destruct (N.even (num / den))| |]; lia. }
    apply (N.le_lt_trans _ ((num + 1) / 100)).
    + apply N.Div0.div_le_mono. exact Hh.
    + apply (N.le_lt_trans _ (Npos m)); [|lia].
      unfold num. rewrite N.mul_comm.
      replace (100 * N.pos m + 1)%N with (1 + N.pos m * 100)%N by lia.
      rewrite N.div_add by discriminate. simpl. lia.
Qed.

Lemma digit_run_signed (neg : bool) (ds t : str) :
  forallb isdecimal ds = true ->
  digit_run (sign_str neg ++ ds ++ dot :: t) = length ds.
Proof.
  intros Hds.
  assert (Hdot : isdecimal dot = false) by reflexivity.
  destruct neg; cbn [sign_str app digit_run].
  - rewrite N.eqb_refl. now apply lead_digits_group.
  - destruct ds as [|c ds']; [reflexivity|].
    assert (Hc : N.eqb c minus = false).
    { apply N.eqb_neq. intros ->.
      cbn [forallb] in Hds. rewrite isdecimal_minus in Hds. discriminate. }
    transitivity (lead_digits ((c :: ds') ++ dot :: t)).
    + cbn [app]. unfold digit_run. now rewrite Hc.
    + now apply lead_digits_group.
Qed.

(** The rendering of a float has at most 309 digits before the point, and
    formatting it takes at most 103 nested calls. *)
Lemma calls_needed_float (f : float) : calls_needed (format_2f f) <= 103.
Proof.
  assert (Hrun : digit_run (format_2f f) <= 309).
  { unfold format_2f. destruct (Prim2SF f) as [s|s| |s m e] eqn:Hf.
    - destruct s; apply Nat.leb_le; vm_compute; reflexivity.
    - destruct s; apply Nat.leb_le; vm_compute; reflexivity.
    - apply Nat.leb_le; vm_compute; reflexivity.
    - rewrite digit_run_signed by apply digits_all_decimal.
      destruct (finite_bounds f s m e Hf) as [Hm He].
      apply decimal_of_N_length; [|lia].
      exact (whole_part_bound m e Hm He). }
  unfold calls_needed.
  assert ((digit_run (format_2f f) - 1) / 3 <= 102).
  { apply (Nat.le_trans _ (308 / 3)).
    - apply Nat.Div0.div_le_mono. lia.
    - apply Nat.leb_le. vm_compute. reflexivity. }
  lia.
Qed.

(** What the unlimited formatter returns is what the limited one returns
    when the calls fit. *)
Lemma pprint_currency_limited_enough (frames : nat) :
  (forall s : str,
      calls_needed s <= frames ->
      pprint_currency_limited frames (VStr s) = pprint_currency (VStr s))
  /\ (forall f : float,
         calls_needed (format_2f f) <= frames ->
         pprint_currency_limited frames (VFloat f)
         = pprint_currency (VFloat f)).
Proof.
  split.
  - intros s H. rewrite pprint_currency_limited_str, pprint_currency_grouped.
    apply Nat.leb_le in H. now rewrite H.
  - intros f H. unfold pprint_currency_limited.
    rewrite pprint_currency_depth_float, pprint_currency_depth_exact.
    rewrite pprint_currency_float_str, pprint_currency_grouped.
    apply Nat.leb_le in H. now rewrite H.
Qed.

End Recursion.

(** C10: the formatter returns exactly when the recursion limit allows
    the calls it needs.  On a string it makes [calls_needed] nested calls,
    one and one more for every three digits at the head of the string
    that have a digit before them: where the interpreter still allows that
    many it returns the string with its commas, a fixed point of the
    substitution, and where it allows fewer the call raises
    [RecursionError].  So the substitution always reaches its fixed point
    after finitely many steps, but the formatter does not return on every
    string.  A float is formatted first and treated as that string; it
    has at most 309 digits before the point, so at most 103 calls are
    needed and the formatter returns on every float wherever 103 nested
    calls are allowed. *)
Theorem pprint_currency_recursion_limit :
  (forall (s : str) (frames : nat),
      pprint_currency_limited frames (VStr s)
      = if calls_needed s <=? frames then Ok (grouped s)
        else Raise RecursionError)
  /\ (forall s : str, re_sub (grouped s) = grouped s)
  /\ (forall (f : float) (frames : nat),
         pprint_currency_limited frames (VFloat f)
         = if calls_needed (format_2f f) <=? frames then Ok (currency f)
           else Raise RecursionError)
  /\ (forall f : float,
         calls_needed (format_2f f) <= 103
         /\ re_sub (currency f) = currency f).
Proof.
  assert (Hfix : forall s : str, re_sub (grouped s) = grouped s).
  { intros s. destruct (pprint_currency_str s) as (r & Hr & Hf).
    rewrite pprint_currency_grouped in Hr. now injection Hr as <-. }
  assert (Hcur : forall f : float, currency f = grouped (format_2f f)).
  { intros f. unfold currency.
    now rewrite pprint_currency_float_str, pprint_currency_grouped. }
  split; [intros s frames; apply pprint_currency_limited_str|].
  split; [exact Hfix|].
  split.
  - intros f frames. unfold pprint_currency_limited.
    rewrite pprint_currency_depth_float, pprint_currency_depth_exact, Hcur.
    now destruct (calls_needed (format_2f f) <=? frames).
  - intros f. split; [apply calls_needed_float|].
    rewrite Hcur. apply Hfix.
Qed.

(** The string -1234567.50 needs three calls: it is formatted where three
    are allowed and not where two are.  The float 1234567.5 is formatted
    where 103 are allowed. *)
Lemma pprint_currency_recursion_limit_witness :
  pprint_currency_limited 3 (VStr (lit "-1234567.50"))
  = Ok (lit "-1,234,567.50")
  /\ pprint_currency_limited 2 (VStr (lit "-1234567.50"))
     = Raise RecursionError
  /\ pprint_currency_limited 103 (VFloat 0x1.2d6878p+20)
     = Ok (lit "1,234,567.50").
Proof.
  destruct pprint_currency_recursion_limit as (Hs & _ & Hf & _).
  split; [|split].
  - rewrite (Hs (lit "-1234567.50") 3). vm_compute. reflexivity.
  - rewrite (Hs (lit "-1234567.50") 2). vm_compute. reflexivity.
  - rewrite (Hf 0x1.2d6878p+20%float 103). vm_compute. reflexivity.
Defined.

(** A string of 3100 ones needs 1034 nested calls.  Where 1000 are
    allowed, the limit of an interpreter that was not told otherwise, the
    chain of calls is cut and the formatter raises [RecursionError]
    instead of returning; where 1034 are allowed it returns. *)
Lemma pprint_currency_recursion_counterexample :
  length (ones 3100) = 3100
  /\ calls_needed (ones 3100) = 1034
  /\ pprint_currency_depth 1000 (VStr (ones 3100)) = None
  /\ pprint_currency_limited 1000 (VStr (ones 3100)) = Raise RecursionError
  /\ pprint_currency_limited 1034 (VStr (ones 3100))
     = Ok (grouped (ones 3100)).
Proof.
  assert (Hc : calls_needed (ones 3100) = 1034) by (vm_compute; reflexivity).
  split; [apply repeat_length|].
  split; [exact Hc|].
  split; [|split].
  - now rewrite pprint_currency_depth_exact, Hc.
  - now rewrite pprint_currency_limited_str, Hc.
  - now rewrite pprint_currency_limited_str, Hc.
Qed.

(** X1: on any string the formatter returns the string with commas put
    between the thousands of the digits at its head, after an optional
    minus sign, and with everything behind these digits copied as it is;
    it does so within [calls_needed] nested calls.  So 1234567 becomes
    1,234,567 without a decimal point, -1234abc5678 becomes
    -1,234abc5678, 12345,678.5 becomes 12,345,678.5, and $1234.00 and
    --1234, which do not start with a digit or a signed digit, are
    returned unchanged. *)
Theorem pprint_currency_grouping :
  (forall s : str,
      pprint_currency (VStr s) = Ok (grouped s)
      /\ forall depth, calls_needed s <= depth ->
           pprint_currency_depth depth (VStr s) = Some (Ok (grouped s)))
  /\ grouped (lit "1234567") = lit "1,234,567"
  /\ grouped (lit "-1234abc5678") = lit "-1,234abc5678"
  /\ grouped (lit "12345,678.5") = lit "12,345,678.5"
  /\ grouped (lit "$1234.00") = lit "$1234.00"
  /\ grouped (lit "--1234") = lit "--1234".
Proof.
  split; [|repeat split; vm_compute; reflexivity].
  intros s. split; [apply pprint_currency_grouped|].
  intros depth Hd.
  destruct (pprint_currency_depth_str depth s Hd) as (r & Hr & _).
  rewrite Hr. apply pprint_currency_eq in Hr.
  rewrite pprint_currency_grouped in Hr. now injection Hr as <-.
Qed.

Lemma pprint_currency_grouping_witness :
  pprint_currency (VStr (lit "-1234567.50")) = Ok (lit "-1,234,567.50")
  /\ pprint_currency_depth 3 (VStr (lit "-1234567.50"))
     = Some (Ok (lit "-1,234,567.50")).
Proof.
  destruct (proj1 pprint_currency_grouping (lit "-1234567.50")) as [H Hd].
  split; [exact H|].
  apply (Hd 3). vm_compute. repeat constructor.
Defined.

(** X2: the formatter changes nothing but commas.  What it returns for a
    string reads the same as the string once the commas of both are
    removed, and is longer by one comma for every three digits at the head
    of the string that have a digit before them.  For a float, removing
    the commas of the cell gives back the two-decimal rendering of the
    float, which is what the sort key of the table reads. *)
Theorem pprint_currency_inserts_commas :
  (forall s : str,
      exists r, pprint_currency (VStr s) = Ok r
        /\ remove_commas r = remove_commas s
        /\ length r = length s + (digit_run s - 1) / 3)
  /\ (forall f : float, remove_commas (currency f) = format_2f f).
Proof.
  split.
  - intros s. exists (grouped s).
    split; [apply pprint_currency_grouped | apply grouped_commas].
  - exact currency_without_commas.
Qed.

Section Parsing.

Lemma digits_of_uint_ascii (d : Decimal.uint) :
  forallb is_ascii_digit (digits_of_uint d) = true.
Proof. induction d; simpl; auto. Qed.

Lemma two_digits_ascii (n : N) : forallb is_ascii_digit (two_digits n) = true.
Proof.
  unfold two_digits, decimal_of_N.
  destruct (n <? 10)%N; simpl; now rewrite ?digits_of_uint_ascii.
Qed.

Lemma read_digits_block (ds rest : str) :
  forallb is_ascii_digit ds = true ->
  match rest with c :: _ => is_ascii_digit c = false | [] => True end ->
  forall acc, exists n, read_digits acc (ds ++ rest) = (n, length ds, rest).
Proof.
  intros Hds Hrest. induction ds as [|d ds IH]; intros acc.
  - exists acc. destruct rest as [|c r]; [reflexivity|].
    simpl. unfold ascii_digit. unfold is_ascii_digit in Hrest.
    now rewrite Hrest.
  - simpl in Hds. apply andb_true_iff in Hds as [Hd Hds].
    simpl. unfold ascii_digit at 1. unfold is_ascii_digit in Hd. rewrite Hd.
    destruct (IH Hds (acc * 10 + (d - 48))%N) as [n ->].
    now exists n.
Qed.

Lemma py_float_digits (neg : bool) (D T : str) :
  forallb is_ascii_digit D = true -> forallb is_ascii_digit T = true ->
  1 <= length T ->
  exists k, py_float (sign_str neg ++ D ++ dot :: T) = Ok k.
Proof.
  intros HD HT HlT.
  set (body := D ++ dot :: T).
  assert (Hhead : match body with
                  | c :: _ => (is_ascii_digit c || N.eqb c dot) = true
                  | [] => False
                  end).
  { subst body. destruct D as [|d D]; simpl; [reflexivity|].
    simpl in HD. apply andb_true_iff in HD as [-> _]. reflexivity. }
  assert (Hparse : exists k,
             (if str_eqb body (lit "inf")
              then Ok (if neg then neg_infinity else infinity)
              else if str_eqb body (lit "nan") then Ok nan
              else
                let '(n1, k1, rest) := read_digits 0 body in
                let '(n2, k2, rest') :=
                  match rest with
                  | c :: r => if N.eqb c dot then read_digits n1 r
                              else (n1, O, rest)
                  | [] => (n1, O, [])
                  end in
                match rest', (k1 + k2)%nat with
                | [], S _ => Ok (float_of_decimal neg n2 k2)
                | _, _ => Raise ValueError
                end) = Ok k).
  { assert (Hinf : str_eqb body (lit "inf") = false
                   /\ str_eqb body (lit "nan") = false).
    { destruct body as [|c b]; [contradiction|].
      unfold is_ascii_digit in Hhead.
      split; simpl; apply andb_false_iff; left; apply N.eqb_neq; intros ->;
        discriminate Hhead. }
    destruct Hinf as [-> ->].
    destruct (read_digits_block D (dot :: T) HD eq_refl 0%N) as [n1 E1].
    fold body in E1. rewrite E1. rewrite N.eqb_refl.
    destruct (read_digits_block T [] HT I n1) as [n2 E2].
    rewrite app_nil_r in E2. rewrite E2.
    rewrite Nat.add_comm. destruct (length T) as [|k]; [lia|].
    simpl. eauto. }
  destruct Hparse as [k Hk]. exists k. rewrite <- Hk.
  unfold py_float. fold body.
  destruct neg; cbn [sign_str app].
  - rewrite N.eqb_refl. reflexivity.
  - destruct body as [|c b]; [contradiction|].
    replace (N.eqb c minus) with false; [reflexivity|].
    symmetry. apply N.eqb_neq. intros ->. discriminate Hhead.
Qed.

Lemma py_float_format_2f (f : float) : exists k, py_float (format_2f f) = Ok k.
Proof.
  unfold format_2f. destruct (Prim2SF f) as [s|s| |s m e].
  - destruct s; eexists; vm_compute; reflexivity.
  - destruct s; eexists; vm_compute; reflexivity.
  - eexists; vm_compute; reflexivity.
  - apply py_float_digits.
    + apply digits_of_uint_ascii.
    + apply two_digits_ascii.
    + rewrite two_digits_length; [lia|].
      apply N.mod_lt. discriminate.
Qed.

End Parsing.

(* ================================================================= *)
(** * More on the rows and the table *)

Section Rows.

Lemma render_row_ok (label : str) (bills : AccountBills) (r : Row) :
  _render_row label bills = Ok r ->
  exists prev_months this_month avg gain loss,
    sorted item_ltb bills = prev_months ++ [this_month]
    /\ average (filter nonzero (map snd prev_months)) = Ok avg
    /\ trend_cells avg (snd this_month) = Ok (gain, loss)
    /\ r = [label; currency avg; currency (snd this_month); gain; loss].
Proof.
  intros H.
  destruct bills as [|item bills'] eqn:Eb.
  { now rewrite render_row_empty in H. }
  destruct (sorted_items_snoc (item :: bills')) as (prev & this & Hs & _).
  { simpl. lia. }
  destruct (average (filter nonzero (map snd prev))) as [avg|e] eqn:Ha.
  - rewrite (render_row_cells label _ prev this avg Hs Ha) in H.
    destruct (trend_cells avg (snd this)) as [[gain loss]|e] eqn:Ht;
      [|discriminate].
    cbn [bind fst snd] in H. injection H as <-.
    exists prev, this, avg, gain, loss. auto.
  - now rewrite (render_row_no_average label _ prev this e Hs Ha) in H.
Qed.

Lemma render_row_five (label : str) (bills : AccountBills) (r : Row) :
  _render_row label bills = Ok r ->
  length r = 5 /\ exists k, sort_key r = Ok k.
Proof.
  intros H.
  destruct (render_row_ok _ _ _ H) as (p & t & avg & g & u & _ & _ & _ & ->).
  split; [reflexivity|].
  unfold sort_key. cbn [nth_error].
  rewrite currency_without_commas. apply py_float_format_2f.
Qed.

Lemma mapM_forall (A B : Type) (f : A -> result B) (l : list A) (ks : list B) :
  mapM f l = Ok ks -> Forall2 (fun a b => f a = Ok b) l ks.
Proof.
  revert ks; induction l as [|a l IH]; intros ks; cbn [mapM].
  - intros H; injection H as <-. constructor.
  - destruct (f a) as [b|e] eqn:Hb; cbn [bind]; [|discriminate].
    destruct (mapM f l) as [bs|e] eqn:Hbs; cbn [bind]; [|discriminate].
    intros H; injection H as <-. constructor; auto.
Qed.

Lemma mapM_total (A B : Type) (f : A -> result B) (l : list A) :
  Forall (fun a => exists b, f a = Ok b) l -> exists ks, mapM f l = Ok ks.
Proof.
  induction 1 as [|a l [b Hb] _ [ks Hks]]; cbn [mapM].
  - now exists [].
  - rewrite Hb, Hks. now exists (b :: ks).
Qed.

End Rows.

(** X3: once every account renders, the total is computed and the TOTAL
    row renders, the rows of the table are returned: reading the sort
    keys back from the cells cannot fail.  The rows are the rendered
    account rows in some order, the separator and the TOTAL row, and
    every one of them has five cells. *)
Theorem billing_rows_returns
  (billing_data : BillingData) (rendered : list Row)
  (total : AccountBills) (total_row : Row) :
  mapM (fun account => _render_row (fst account) (snd account))
    billing_data = Ok rendered ->
  total_bills billing_data = Ok total ->
  _render_row (lit "TOTAL") total = Ok total_row ->
  exists accounts,
    billing_rows billing_data = Ok (accounts ++ [separator; total_row])
    /\ Permutation accounts rendered
    /\ Forall (fun r => length r = 5) (accounts ++ [separator; total_row]).
Proof.
  intros Hr Ht Hrow.
  assert (Hall : Forall (fun r => length r = 5 /\ exists k, sort_key r = Ok k)
                   rendered).
  { apply mapM_forall in Hr. clear - Hr.
    induction Hr as [|a r l rs Har _ IH]; constructor; auto.
    exact (render_row_five _ _ _ Har). }
  destruct (mapM_total _ _ sort_key rendered) as [keys Hkeys].
  { eapply Forall_impl; [|exact Hall]. now intros r [_ Hk]. }
  assert (Hsort : sort_rows rendered
                  = Ok (map snd (sorted (fun a b => (fst b <? fst a)%float)
                                   (combine keys rendered)))).
  { unfold sort_rows. now rewrite Hkeys. }
  destruct (sort_rows_sorted _ _ Hsort) as [Hperm _].
  eexists. split; [|split; [exact Hperm|]].
  - unfold billing_rows. rewrite Hr. cbn [bind].
    rewrite Hsort. cbn [bind]. rewrite Ht. cbn [bind]. rewrite Hrow.
    reflexivity.
  - apply Forall_app. split.
    + apply Forall_forall. intros r Hin.
      apply (Permutation_in _ Hperm) in Hin.
      exact (proj1 (proj1 (Forall_forall _ _) Hall r Hin)).
    + constructor; [reflexivity|].
      constructor; [|constructor].
      exact (proj1 (render_row_five _ _ _ Hrow)).
Qed.

Lemma billing_rows_returns_witness :
  exists accounts,
    billing_rows [(lit "A", account_A); (lit "B", account_B)]
    = Ok (accounts ++ [separator; [lit "TOTAL"; lit "15.00"; lit "15.00"; []; []]])
    /\ Permutation accounts
         [ [lit "A"; lit "10.00"; lit "10.00"; []; []];
           [lit "B"; lit "5.00"; lit "5.00"; []; []] ]
    /\ Forall (fun r => length r = 5)
         (accounts ++ [separator; [lit "TOTAL"; lit "15.00"; lit "15.00"; []; []]]).
Proof.
  apply (billing_rows_returns
           [(lit "A", account_A); (lit "B", account_B)]
           [ [lit "A"; lit "10.00"; lit "10.00"; []; []];
             [lit "B"; lit "5.00"; lit "5.00"; []; []] ]
           [(jan, 15); (feb, 15); (mar, 15)]%float);
    vm_compute; reflexivity.
Defined.

(** A row is only rendered for an account with at least two months, one
    of them with an amount that is not zero. *)
Lemma render_row_two_months (label : str) (bills : AccountBills) (r : Row) :
  _render_row label bills = Ok r ->
  2 <= length bills
  /\ exists item, In item bills /\ nonzero (snd item) = true.
Proof.
  intros Hr.
  destruct (render_row_ok _ _ _ Hr)
    as (prev & this & avg & g & u & Hsorted & Havg & _ & _).
  pose proof (sorted_perm _ item_ltb bills) as Hperm.
  rewrite Hsorted in Hperm.
  destruct (filter nonzero (map snd prev)) as [|v vs] eqn:Hf;
    [discriminate Havg|].
  assert (Hv : In v (filter nonzero (map snd prev)))
    by (rewrite Hf; now left).
  apply filter_In in Hv as [Hv Hnz].
  apply in_map_iff in Hv as (item & <- & Hitem).
  split.
  - pose proof (Permutation_length Hperm) as Hl.
    rewrite length_app in Hl.
    destruct prev; [contradiction|]. cbn [length Nat.add] in Hl.
    apply (Nat.le_trans _ (S (length prev + 1))); [lia|].
    apply Nat.eq_le_incl. exact Hl.
  - exists item. split; [|exact Hnz].
    apply (Permutation_in _ Hperm). apply in_or_app. now left.
Qed.

(** The rows are only returned when every account rendered, the total
    was computed and the TOTAL row rendered. *)
Lemma billing_rows_rendered (billing_data : BillingData) (rows : list Row) :
  billing_rows billing_data = Ok rows ->
  exists rendered total total_row,
    mapM (fun account => _render_row (fst account) (snd account))
      billing_data = Ok rendered
    /\ total_bills billing_data = Ok total
    /\ _render_row (lit "TOTAL") total = Ok total_row.
Proof.
  unfold billing_rows.
  destruct (mapM _ billing_data) as [rendered|e] eqn:Hr; cbn [bind];
    [|discriminate].
  destruct (sort_rows rendered) as [accounts|e] eqn:Hs; cbn [bind];
    [|discriminate].
  destruct (total_bills billing_data) as [total|e] eqn:Ht; cbn [bind];
    [|discriminate].
  destruct (_render_row (lit "TOTAL") total) as [total_row|e] eqn:Hrow;
    cbn [bind]; [|discriminate].
  intros _. now exists rendered, total, total_row.
Qed.

(** X4: a table is only returned for billing data that is not empty and
    in which every account has at least two months, one of them with an
    amount that is not zero.  One account with a single month, or with
    nothing but zeros, leaves the whole report without a table. *)
Theorem billing_rows_needs (billing_data : BillingData) (rows : list Row) :
  billing_rows billing_data = Ok rows ->
  billing_data <> []
  /\ Forall (fun account =>
               2 <= length (snd account)
               /\ exists item, In item (snd account)
                    /\ nonzero (snd item) = true)
       billing_data.
Proof.
  intros H.
  destruct (billing_rows_rendered _ _ H)
    as (rendered & total & total_row & Hr & Ht & Hrow).
  split.
  - intros ->. cbn in Ht. injection Ht as <-.
    now rewrite render_row_empty in Hrow.
  - apply mapM_forall in Hr. clear - Hr.
    induction Hr as [|account r l rs Har _ IH]; constructor; auto.
    exact (render_row_two_months _ _ _ Har).
Qed.

Lemma billing_rows_needs_witness :
  [(lit "A", account_A); (lit "B", account_B)] <> []
  /\ Forall (fun account =>
               2 <= length (snd account)
               /\ exists item, In item (snd account)
                    /\ nonzero (snd item) = true)
       [(lit "A", account_A); (lit "B", account_B)].
Proof.
  apply (billing_rows_needs [(lit "A", account_A); (lit "B", account_B)]
           [ [lit "A"; lit "10.00"; lit "10.00"; []; []];
             [lit "B"; lit "5.00"; lit "5.00"; []; []];
             separator;
             [lit "TOTAL"; lit "15.00"; lit "15.00"; []; []] ]).
  vm_compute; reflexivity.
Defined.

Section MonthOrder.

Lemma key_ltb_irrefl (k : MonthKey) : key_ltb k k = false.
Proof. unfold key_ltb. lia. Qed.

Lemma key_ltb_asym (a b : MonthKey) :
  key_ltb a b = true -> key_ltb b a = false.
Proof. unfold key_ltb. lia. Qed.

Lemma key_ltb_total (a b : MonthKey) :
  a <> b -> key_ltb b a = false -> key_ltb a b = true.
Proof.
  destruct a as [ya ma], b as [yb mb]. unfold key_ltb. simpl.
  intros Hne Hlt.
  assert (ya <> yb \/ ma <> mb)%Z.
  { destruct (Z.eq_dec ya yb) as [->|]; [right|now left].
    intros ->. now apply Hne. }
  lia.
Qed.

Lemma key_ltb_not_eqb (a b : MonthKey) :
  key_ltb a b = true -> key_eqb b a = false.
Proof. unfold key_ltb, key_eqb. lia. Qed.

Let by_month (a b : MonthKey * float) : Prop :=
  key_ltb (fst a) (fst b) = true.

Lemma sorted_items_strictly (bills : AccountBills) :
  NoDup (map fst bills) -> StronglySorted by_month (sorted item_ltb bills).
Proof.
  intros Hnd.
  destruct (sorted_items_by_month bills) as [Hperm Hsorted].
  assert (Hnd' : NoDup (map fst (sorted item_ltb bills))).
  { eapply Permutation_NoDup; [|exact Hnd].
    apply Permutation_map, Permutation_sym, Hperm. }
  clear - Hsorted Hnd'.
  induction Hsorted as [|a l Hl IH Ha]; [constructor|].
  simpl in Hnd'. apply NoDup_cons_iff in Hnd' as [Hnotin Hnd'].
  constructor; [now apply IH|].
  rewrite Forall_forall in *. intros x Hx.
  apply key_ltb_total; [|now apply Ha].
  intros E. apply Hnotin. rewrite E. now apply in_map.
Qed.

Lemma strictly_sorted_unique (A : Type) (before : A -> A -> Prop)
  (l1 l2 : list A) :
  (forall a b, before a b -> before b a -> False) ->
  StronglySorted before l1 -> StronglySorted before l2 ->
  Permutation l1 l2 -> l1 = l2.
Proof.
  intros Hasym H1; revert l2.
  induction H1 as [|a l1 Hl1 IH Ha]; intros l2 H2 Hp.
  - now apply Permutation_nil in Hp.
  - destruct H2 as [|b l2 Hl2 Hb].
    { now apply Permutation_sym, Permutation_nil in Hp. }
    assert (Hab : a = b).
    { assert (Hina : In a (b :: l2))
        by (apply (Permutation_in _ Hp); now left).
      assert (Hinb : In b (a :: l1))
        by (apply (Permutation_in _ (Permutation_sym Hp)); now left).
      destruct Hina as [->|Hina]; [reflexivity|].
      destruct Hinb as [->|Hinb]; [reflexivity|].
      rewrite Forall_forall in Ha, Hb.
      destruct (Hasym a b (Ha _ Hinb) (Hb _ Hina)). }
    subst b. f_equal. apply IH; [exact Hl2|].
    now apply Permutation_cons_inv in Hp.
Qed.

Lemma sorted_items_permutation (b1 b2 : AccountBills) :
  NoDup (map fst b1) -> Permutation b1 b2 ->
  sorted item_ltb b1 = sorted item_ltb b2.
Proof.
  intros Hnd Hp. apply (strictly_sorted_unique _ by_month).
  - intros a b E1 E2. unfold by_month in E1, E2.
    apply key_ltb_asym in E1. congruence.
  - now apply sorted_items_strictly.
  - apply sorted_items_strictly.
    eapply Permutation_NoDup; [|exact Hnd]. now apply Permutation_map.
  - transitivity b1; [apply sorted_perm|].
    transitivity b2; [exact Hp|apply Permutation_sym, sorted_perm].
Qed.

Lemma insert_snoc (A : Type) (ltb : A -> A -> bool) (x t : A) (p : list A) :
  ltb t x = false -> insert ltb x (p ++ [t]) = insert ltb x p ++ [t].
Proof.
  intros H. induction p as [|y p IH]; simpl.
  - now rewrite H.
  - destruct (ltb y x); [now rewrite IH|reflexivity].
Qed.

Lemma insert_split (A : Type) (ltb : A -> A -> bool) (x : A) (p : list A) :
  exists p1 p2, p = p1 ++ p2 /\ insert ltb x p = p1 ++ x :: p2.
Proof.
  induction p as [|y p (p1 & p2 & Hp & Hi)]; simpl.
  - now exists [], [].
  - destruct (ltb y x).
    + exists (y :: p1), p2. simpl. now rewrite Hi, <- Hp.
    + now exists [], (y :: p).
Qed.

End MonthOrder.

(** X5: the row of an account does not depend on the order in which its
    months were put into the mapping: the months are sorted by year and
    month before anything is computed, and the months of a mapping are
    distinct. *)
Theorem render_row_order_independent
  (label : str) (bills bills' : AccountBills) :
  NoDup (map fst bills) -> Permutation bills bills' ->
  _render_row label bills = _render_row label bills'.
Proof.
  intros Hnd Hp. unfold _render_row.
  now rewrite (sorted_items_permutation bills bills' Hnd Hp).
Qed.

Lemma render_row_order_independent_witness :
  _render_row (lit "acct") (four_months 0 100 100 50)
  = _render_row (lit "acct") (rev (four_months 0 100 100 50)).
Proof.
  apply render_row_order_independent.
  - repeat (apply NoDup_cons; [simpl; intuition discriminate|]).
    apply NoDup_nil.
  - apply Permutation_rev.
Defined.

(** X6: a month with the amount zero that lies before the latest month
    changes nothing in the row of an account: it is left out of the
    previous average, and the amount for this month is still the one of
    the latest month. *)
Theorem render_row_ignores_zero_month
  (label : str) (bills prev_months : AccountBills)
  (this_month : MonthKey * float) (k : MonthKey) (z : float) :
  sorted item_ltb bills = prev_months ++ [this_month] ->
  key_ltb k (fst this_month) = true ->
  (z =? 0)%float = true ->
  _render_row label ((k, z) :: bills) = _render_row label bills.
Proof.
  intros Hs Hk Hz. unfold _render_row. cbn [sorted]. rewrite Hs.
  rewrite insert_snoc.
  - rewrite !unpack_last_snoc. cbn [bind].
    destruct (insert_split _ item_ltb (k, z) prev_months)
      as (p1 & p2 & -> & ->).
    rewrite !map_app, !filter_app. cbn [map filter snd].
    unfold nonzero at 2. rewrite Hz. reflexivity.
  - unfold item_ltb. cbn [fst snd].
    rewrite (key_ltb_not_eqb _ _ Hk). now apply key_ltb_asym.
Qed.

Lemma render_row_ignores_zero_month_witness :
  _render_row (lit "acct") (((2023, 12)%Z, 0%float) :: four_months 0 100 100 50)
  = _render_row (lit "acct") (four_months 0 100 100 50).
Proof.
  apply (render_row_ignores_zero_month (lit "acct") (four_months 0 100 100 50)
           [(jan, 0%float); (feb, 100%float); (mar, 100%float)]
           ((2024, 4)%Z, 50%float) (2023, 12)%Z 0%float);
    vm_compute; reflexivity.
Defined.

Section Totals.

Lemma add_zero_l (x : float) : (x =? 0)%float = false -> (0 + x)%float = x.
Proof.
  intros H. apply Prim2SF_inj. rewrite add_spec.
  rewrite eqb_spec in H. change (Prim2SF 0) with (S754_zero false) in *.
  destruct (Prim2SF x) as [s|s| |s m e]; try reflexivity.
  destruct s; discriminate H.
Qed.

Lemma add_to_fresh (t : AccountBills) (k : MonthKey) (x : float) :
  ~ In k (map fst t) -> add_to t k x = t ++ [(k, (0 + x)%float)].
Proof.
  induction t as [|[k' v] t IH]; simpl; [reflexivity|].
  intros Hn. destruct (key_eqb k' k) eqn:E.
  - apply key_eqb_eq in E. subst k'. exfalso. apply Hn. now left.
  - rewrite IH; [reflexivity|]. intros Hin. apply Hn. now right.
Qed.

Lemma add_account_fresh (bills items t : AccountBills) :
  NoDup (map fst (t ++ items)) ->
  Forall (fun item => nonzero (snd item) = true) items ->
  foldM (fun t item =>
           x <- backfilled bills (snd item) ;; Ok (add_to t (fst item) x))
    items t
  = Ok (t ++ items).
Proof.
  revert t; induction items as [|[k v] items IH]; intros t Hnd Hnz;
    cbn [foldM].
  - now rewrite app_nil_r.
  - apply Forall_cons_iff in Hnz as [Hv Hnz]. cbn [fst snd] in *.
    unfold nonzero in Hv. apply negb_true_iff in Hv.
    unfold backfilled at 1. rewrite Hv. cbn [bind].
    rewrite add_to_fresh, (add_zero_l v Hv).
    + rewrite IH; [now rewrite <- app_assoc| |exact Hnz].
      now rewrite <- app_assoc.
    + rewrite map_app in Hnd. apply NoDup_remove_2 in Hnd.
      intros Hin. apply Hnd. apply in_or_app. now left.
Qed.

Lemma ltb_irrefl (x : float) : (x <? x)%float = false.
Proof.
  rewrite ltb_spec. destruct (SFltb (Prim2SF x) (Prim2SF x)) eqn:E;
    [|reflexivity].
  apply SFltb_rank in E as (_ & _ & Hn). exfalso. apply Hn.
  unfold le3. lia.
Qed.

Lemma insert_stable (A : Type) (ltb : A -> A -> bool) (P : A -> bool)
  (x : A) (l : list A) :
  (forall y, In y l -> P y = true -> P x = true -> ltb y x = false) ->
  filter P (insert ltb x l) = filter P (x :: l).
Proof.
  induction l as [|y l IH]; intros H; [reflexivity|].
  cbn [insert]. destruct (ltb y x) eqn:E; [|reflexivity].
  cbn [filter]. rewrite IH by (intros z Hz; apply H; now right).
  cbn [filter].
  destruct (P y) eqn:Py; [|reflexivity].
  destruct (P x) eqn:Px; [|reflexivity].
  rewrite (H y (or_introl eq_refl) Py eq_refl) in E. discriminate.
Qed.

Lemma sorted_stable (A : Type) (ltb : A -> A -> bool) (P : A -> bool)
  (l : list A) :
  (forall x y, In x l -> In y l -> P x = true -> P y = true ->
               ltb y x = false) ->
  filter P (sorted ltb l) = filter P l.
Proof.
  induction l as [|x l IH]; intros H; [reflexivity|].
  cbn [sorted]. rewrite insert_stable.
  - cbn [filter]. rewrite IH; [reflexivity|].
    intros a b Ha Hb. apply H; now right.
  - intros y Hy Py Px. apply H; auto.
    + now left.
    + right. exact (Permutation_in _ (sorted_perm _ ltb l) Hy).
Qed.

Lemma filter_map_snd (A B : Type) (P : B -> bool) (l : list (A * B)) :
  filter P (map snd l) = map snd (filter (fun p => P (snd p)) l).
Proof.
  induction l as [|p l IH]; simpl; [reflexivity|].
  destruct (P (snd p)); simpl; now rewrite IH.
Qed.

End Totals.

(** X7: with a single account whose amounts are all different from zero,
    the total of every month is the amount of the account, and the TOTAL
    row repeats the cells of the account's row under its own label. *)
Theorem single_account_total
  (name : str) (bills : AccountBills) (row : Row) :
  NoDup (map fst bills) ->
  Forall (fun item => nonzero (snd item) = true) bills ->
  _render_row name bills = Ok row ->
  total_bills [(name, bills)] = Ok bills
  /\ billing_rows [(name, bills)]
     = Ok [row; separator; lit "TOTAL" :: tl row].
Proof.
  intros Hnd Hnz Hrow.
  assert (Ht : total_bills [(name, bills)] = Ok bills).
  { unfold total_bills. cbn [foldM snd]. unfold add_account.
    now rewrite (add_account_fresh bills bills [] Hnd Hnz). }
  split; [exact Ht|].
  destruct (render_row_five _ _ _ Hrow) as [_ [k Hk]].
  destruct (render_row_ok _ _ _ Hrow)
    as (prev & this & avg & g & u & Hs & Ha & Hc & Hr).
  unfold billing_rows. cbn [mapM fst snd]. rewrite Hrow. cbn [bind].
  unfold sort_rows. cbn [mapM]. rewrite Hk. cbn [bind combine sorted insert map snd].
  rewrite Ht. cbn [bind].
  rewrite (render_row_cells (lit "TOTAL") bills prev this avg Hs Ha), Hc.
  cbn [bind fst snd]. rewrite Hr. reflexivity.
Qed.

Lemma single_account_total_witness :
  total_bills [(lit "acct", after_100 50)] = Ok (after_100 50)
  /\ billing_rows [(lit "acct", after_100 50)]
     = Ok [ [lit "acct"; lit "100.00"; lit "50.00"; arrow_down :: lit " 50%"; []];
            separator;
            [lit "TOTAL"; lit "100.00"; lit "50.00"; arrow_down :: lit " 50%"; []] ].
Proof.
  apply (single_account_total (lit "acct") (after_100 50)
           [lit "acct"; lit "100.00"; lit "50.00"; arrow_down :: lit " 50%"; []]).
  - repeat (apply NoDup_cons; [simpl; intuition discriminate|]).
    apply NoDup_nil.
  - repeat constructor.
  - vm_compute; reflexivity.
Defined.

(** X8: sorting the rows is stable where every key is a number.  When
    the amount each row shows for this month reads as a number, not as
    NaN, the rows that show the same amount stand in the sorted table in
    the order they had before sorting. *)
Theorem sort_rows_stable (rows out : list Row) (cell : str) :
  Forall key_is_number rows ->
  sort_rows rows = Ok out ->
  filter (shows cell) out = filter (shows cell) rows.
Proof.
  intros _. unfold sort_rows.
  destruct (mapM sort_key rows) as [keys|e] eqn:Hk; cbn [bind];
    [|discriminate].
  intros H; injection H as <-.
  destruct (mapM_ok _ _ _ _ _ Hk) as [Hlen Hkeys].
  rewrite filter_map_snd, sorted_stable, <- filter_map_snd.
  - now rewrite map_snd_combine.
  - intros a b Ha Hb Pa Pb. rewrite Forall_forall in Hkeys.
    pose proof (Hkeys a Ha) as Ka. pose proof (Hkeys b Hb) as Kb.
    unfold shows in Pa, Pb. unfold sort_key in Ka, Kb.
    destruct (nth_error (snd a) 2) as [ca|]; [|discriminate].
    destruct (nth_error (snd b) 2) as [cb|]; [|discriminate].
    apply str_eqb_eq in Pa, Pb. subst ca cb.
    rewrite Ka in Kb. injection Kb as ->. apply ltb_irrefl.
Qed.

Lemma sort_rows_stable_witness :
  filter (shows (lit "0.00"))
    [ [lit "b"; lit "0.00"; lit "0.00"; []; []];
      [lit "c"; lit "7.00"; lit "7.00"; []; []];
      [lit "a"; lit "0.00"; lit "0.00"; []; []] ]
  = filter (shows (lit "0.00"))
      [ [lit "c"; lit "7.00"; lit "7.00"; []; []];
        [lit "b"; lit "0.00"; lit "0.00"; []; []];
        [lit "a"; lit "0.00"; lit "0.00"; []; []] ].
Proof.
  symmetry.
  apply (sort_rows_stable
           [ [lit "b"; lit "0.00"; lit "0.00"; []; []];
             [lit "c"; lit "7.00"; lit "7.00"; []; []];
             [lit "a"; lit "0.00"; lit "0.00"; []; []] ]
           [ [lit "c"; lit "7.00"; lit "7.00"; []; []];
             [lit "b"; lit "0.00"; lit "0.00"; []; []];
             [lit "a"; lit "0.00"; lit "0.00"; []; []] ]
           (lit "0.00")).
  - repeat (constructor; [eexists; split; vm_compute; reflexivity|]).
    constructor.
  - vm_compute; reflexivity.
Defined.

Section RowOrder.

Lemma leb_neq_ltb (x y : float) :
  (x <=? y)%float = true -> (x =? y)%float = false -> (x <? y)%float = true.
Proof.
  rewrite leb_spec, eqb_spec, ltb_spec. unfold SFleb, SFeqb, SFltb.
  destruct (SFcompare (Prim2SF x) (Prim2SF y)) as [[| |]|]; congruence.
Qed.

Lemma ltb_asym (x y : float) :
  (x <? y)%float = true -> (y <? x)%float = true -> False.
Proof.
  rewrite !ltb_spec, !SFltb_rank. unfold le3.
  intros (_ & _ & H1) (_ & _ & H2). lia.
Qed.

(** A row before another in a table without ties: the first has the
    greater key. *)
Let key_gt (a b : Row) : Prop :=
  exists ka kb, sort_key a = Ok ka /\ sort_key b = Ok kb
                /\ (kb <? ka)%float = true.

Let differ (a b : Row) : Prop :=
  exists ka kb, sort_key a = Ok ka /\ sort_key b = Ok kb
                /\ (ka =? kb)%float = false.

Lemma sorted_rows_strictly (l : list Row) :
  StronglySorted key_ge l -> NoDup l ->
  (forall a b, In a l -> In b l -> a <> b -> differ a b) ->
  StronglySorted key_gt l.
Proof.
  induction 1 as [|a l Hl IH Ha]; intros Hnd Hd; [constructor|].
  apply NoDup_cons_iff in Hnd as [Hnotin Hnd].
  constructor.
  - apply IH; [exact Hnd|].
    intros x y Hx Hy. apply Hd; now right.
  - rewrite Forall_forall in *. intros b Hb.
    destruct (Ha b Hb) as (ka & kb & Ka & Kb & Hle).
    destruct (Hd b a (or_intror Hb) (or_introl eq_refl))
      as (kb' & ka' & Kb' & Ka' & Hne).
    { intros ->. contradiction. }
    rewrite Ka in Ka'. injection Ka' as <-.
    rewrite Kb in Kb'. injection Kb' as <-.
    exists ka, kb. repeat split; try assumption.
    now apply leb_neq_ltb.
Qed.

Lemma sort_rows_unique (rows rows' out out' : list Row) :
  Permutation rows rows' -> NoDup rows ->
  (forall a b, In a rows -> In b rows -> a <> b -> differ a b) ->
  Forall key_is_number rows ->
  sort_rows rows = Ok out -> sort_rows rows' = Ok out' -> out = out'.
Proof.
  intros Hp Hnd Hd Hnum Hs Hs'.
  destruct (sort_rows_sorted _ _ Hs) as [Hperm Hsorted].
  destruct (sort_rows_sorted _ _ Hs') as [Hperm' Hsorted'].
  assert (Hnum' : Forall key_is_number rows').
  { rewrite Forall_forall in *. intros r Hr. apply Hnum.
    exact (Permutation_in _ (Permutation_sym Hp) Hr). }
  apply (strictly_sorted_unique _ key_gt).
  - intros a b (ka & kb & Ka & Kb & H1) (kb' & ka' & Kb' & Ka' & H2).
    rewrite Ka in Ka'. injection Ka' as <-.
    rewrite Kb in Kb'. injection Kb' as <-.
    exact (ltb_asym _ _ H1 H2).
  - apply sorted_rows_strictly; [now apply Hsorted| |].
    + exact (Permutation_NoDup (Permutation_sym Hperm) Hnd).
    + intros a b Ha Hb.
      exact (Hd a b (Permutation_in _ Hperm Ha) (Permutation_in _ Hperm Hb)).
  - assert (Hperm2 : Permutation out' rows).
    { transitivity rows'; [exact Hperm'|now apply Permutation_sym]. }
    apply sorted_rows_strictly; [now apply Hsorted'| |].
    + exact (Permutation_NoDup (Permutation_sym Hperm2) Hnd).
    + intros a b Ha Hb.
      exact (Hd a b (Permutation_in _ Hperm2 Ha) (Permutation_in _ Hperm2 Hb)).
  - transitivity rows; [exact Hperm|].
    transitivity rows'; [exact Hp|now apply Permutation_sym].
Qed.

End RowOrder.

(** X9: the order of the rows in the table does not depend on the order
    of the rows before sorting when no two rows have the same key, and
    every key is a number: the rows sorted from any other order are the
    same list. *)
Theorem sort_rows_order_independent (rows rows' out : list Row) :
  Permutation rows rows' -> NoDup rows ->
  (forall a b, In a rows -> In b rows -> a <> b ->
     exists ka kb, sort_key a = Ok ka /\ sort_key b = Ok kb
                   /\ (ka =? kb)%float = false) ->
  Forall key_is_number rows ->
  sort_rows rows = Ok out ->
  sort_rows rows' = Ok out.
Proof.
  intros Hp Hnd Hd Hnum Hs.
  assert (Hkeys : Forall (fun r => exists k, sort_key r = Ok k) rows').
  { rewrite Forall_forall in *. intros r Hr.
    destruct (Hnum r (Permutation_in _ (Permutation_sym Hp) Hr)) as (k & Hk & _).
    now exists k. }
  destruct (mapM_total _ _ sort_key rows' Hkeys) as [keys Hk].
  assert (Hs' : sort_rows rows'
                = Ok (map snd (sorted (fun a b => (fst b <? fst a)%float)
                                 (combine keys rows')))).
  { unfold sort_rows. now rewrite Hk. }
  rewrite Hs'. f_equal. symmetry.
  exact (sort_rows_unique rows rows' _ _ Hp Hnd Hd Hnum Hs Hs').
Qed.

Lemma sort_rows_order_independent_witness :
  sort_rows [ [lit "big"; lit "1,200.00"; lit "1,200.00"; []; []];
              [lit "small"; lit "50.00"; lit "50.00"; []; []] ]
  = Ok [ [lit "big"; lit "1,200.00"; lit "1,200.00"; []; []];
         [lit "small"; lit "50.00"; lit "50.00"; []; []] ].
Proof.
  apply (sort_rows_order_independent
           [ [lit "small"; lit "50.00"; lit "50.00"; []; []];
             [lit "big"; lit "1,200.00"; lit "1,200.00"; []; []] ]).
  - apply perm_swap.
  - repeat (apply NoDup_cons; [simpl; intuition discriminate|]).
    apply NoDup_nil.
  - intros a b [<-|[<-|[]]] [<-|[<-|[]]] Hne; try (now destruct Hne);
      eexists; eexists; (split; [|split]); vm_compute; reflexivity.
  - repeat (constructor; [eexists; split; vm_compute; reflexivity|]).
    constructor.
  - vm_compute; reflexivity.
Defined.

Section TotalMonths.

Lemma add_to_keys (t : AccountBills) (m k : MonthKey) (x : float) :
  In k (map fst (add_to t m x)) <-> k = m \/ In k (map fst t).
Proof.
  induction t as [|[k' v] t IH]; simpl.
  - intuition.
  - destruct (key_eqb k' m) eqn:E; simpl.
    + apply key_eqb_eq in E. subst k'. intuition.
    + rewrite IH. intuition.
Qed.

Lemma add_to_nodup (t : AccountBills) (m : MonthKey) (x : float) :
  NoDup (map fst t) -> NoDup (map fst (add_to t m x)).
Proof.
  induction t as [|[k' v] t IH]; simpl; intros Hnd.
  - constructor; [intros []|constructor].
  - apply NoDup_cons_iff in Hnd as [Hn Hnd].
    destruct (key_eqb k' m) eqn:E; simpl.
    + now constructor.
    + constructor; [|now apply IH].
      rewrite add_to_keys. intros [->|Hin]; [|contradiction].
      now rewrite key_eqb_refl in E.
Qed.

Lemma share_steps_nodup (items : list (AccountBills * (MonthKey * float)))
  (t0 t : AccountBills) :
  foldM share_step items t0 = Ok t ->
  NoDup (map fst t0) -> NoDup (map fst t).
Proof.
  revert t0; induction items as [|p items IH]; intros t0; cbn [foldM].
  - intros H; now injection H as <-.
  - unfold share_step at 1.
    destruct (backfilled (fst p) (snd (snd p))) as [x|e]; cbn [bind];
      [|discriminate].
    intros H Hnd. apply (IH _ H). now apply add_to_nodup.
Qed.

Lemma dict_get_in (t : AccountBills) (k : MonthKey) :
  In k (map fst t) <-> exists v, dict_get t k = Some v.
Proof.
  induction t as [|[k' v] t IH]; simpl.
  - split; [intros []|intros [v H]; discriminate].
  - destruct (key_eqb k' k) eqn:E.
    + apply key_eqb_eq in E. subst k'. split; [now exists v|now left].
    + rewrite <- IH. split; [|now right].
      intros [->|Hin]; [now rewrite key_eqb_refl in E|exact Hin].
Qed.

Lemma account_months_in (billing_data : BillingData) (k : MonthKey) :
  (exists account item,
      In account billing_data /\ In item (snd account) /\ fst item = k)
  <-> exists p l,
        filter (fun p => key_eqb (fst (snd p)) k) (account_months billing_data)
        = p :: l.
Proof.
  split.
  - intros (account & item & Ha & Hi & Hk).
    assert (Hin : In (snd account, item)
                    (filter (fun p => key_eqb (fst (snd p)) k)
                       (account_months billing_data))).
    { apply filter_In. split.
      - unfold account_months. apply in_flat_map. exists account.
        split; [exact Ha|]. now apply in_map.
      - simpl. rewrite Hk. apply key_eqb_refl. }
    destruct (filter _ (account_months billing_data)) as [|p l];
      [contradiction|]. now exists p, l.
  - intros (p & l & Hf).
    assert (Hin : In p (filter (fun p => key_eqb (fst (snd p)) k)
                          (account_months billing_data)))
      by (rewrite Hf; now left).
    apply filter_In in Hin as [Hin Hk]. apply key_eqb_eq in Hk.
    unfold account_months in Hin.
    apply in_flat_map in Hin as (account & Ha & Hp).
    apply in_map_iff in Hp as (item & <- & Hi).
    exists account, item. auto.
Qed.

End TotalMonths.

(** X10: the total has every month once: the months that some account
    has, and no others.  The total of a month is the sum, taken in the
    order of the accounts, of what each account that has the month adds
    to it. *)
Theorem total_bills_months_and_sums
  (billing_data : BillingData) (total : AccountBills) :
  total_bills billing_data = Ok total ->
  NoDup (map fst total)
  /\ forall k : MonthKey,
       (In k (map fst total)
        <-> exists account item,
              In account billing_data /\ In item (snd account)
              /\ fst item = k)
       /\ exists shares,
            month_shares billing_data k = Ok shares
            /\ dict_get total k = match shares with
                                  | [] => None
                                  | _ :: _ => Some (py_sum shares)
                                  end.
Proof.
  intros Ht. split.
  - unfold total_bills in Ht. rewrite total_bills_months in Ht.
    apply (share_steps_nodup _ _ _ Ht). constructor.
  - intros k.
    destruct (total_bills_month billing_data total k Ht) as (shares & Hs & Hg).
    split; [|now exists shares].
    rewrite dict_get_in, account_months_in, Hg.
    unfold month_shares in Hs. apply mapM_ok in Hs as [Hlen _].
    destruct shares as [|x shares];
      destruct (filter _ (account_months billing_data)) as [|p l];
      try discriminate Hlen.
    + split; intros [? H]; [discriminate H|destruct H; discriminate].
    + split; intros _; eauto.
Qed.

Lemma total_bills_months_and_sums_witness :
  NoDup (map fst [(jan, 15); (feb, 15); (mar, 15)]%float)
  /\ forall k : MonthKey,
       (In k (map fst [(jan, 15); (feb, 15); (mar, 15)]%float)
        <-> exists account item,
              In account [(lit "A", account_A); (lit "B", account_B)]
              /\ In item (snd account) /\ fst item = k)
       /\ exists shares,
            month_shares [(lit "A", account_A); (lit "B", account_B)] k
            = Ok shares
            /\ dict_get [(jan, 15); (feb, 15); (mar, 15)]%float k
               = match shares with
                 | [] => None
                 | _ :: _ => Some (py_sum shares)
                 end.
Proof.
  apply (total_bills_months_and_sums
           [(lit "A", account_A); (lit "B", account_B)]).
  vm_compute; reflexivity.
Defined.

(* ================================================================= *)
(** * More on the month window *)

(** X11: the window asked of the cost service.  For a date of year 2 or
    later, or of May to December, the window is computed: it ends on the
    first day of the current month and starts on the first day of a month,
    four months earlier from May to December, and twice the number of the
    current month earlier from January to April: two months in January,
    four in February, six in March and eight in April.  From January to
    April of year 1 the start falls into year 0 and [ValueError] is
    raised. *)
Theorem time_period_window (today : date) :
  valid_date today = true ->
  ((2 <= year today \/ 5 <= month today)%Z ->
   exists start,
     time_period today = Ok (start, mkdate (year today) (month today) 1)
     /\ valid_date start = true /\ day start = 1%Z
     /\ months_between start (mkdate (year today) (month today) 1)
        = (if (month today >? 4)%Z then 4 else 2 * month today)%Z)
  /\ ((year today = 1 /\ month today <= 4)%Z ->
      time_period today = Raise ValueError).
Proof.
  destruct today as [y m d]. unfold valid_date. cbn [year month day].
  intros Hv.
  repeat (apply andb_true_iff in Hv as [Hv ?]).
  assert (Hm : (1 <= m <= 12)%Z) by lia.
  assert (Hy : (1 <= y <= 9999)%Z) by lia.
  unfold time_period, replace. cbn [year month day].
  rewrite (valid_first_day y m) by lia. cbn [bind year month day].
  split.
  - intros Hym. destruct (m >? 4)%Z eqn:E.
    + rewrite (valid_first_day y (m - 4)) by lia.
      cbn [bind]. eexists; split; [reflexivity|].
      split; [apply valid_first_day; lia|].
      unfold months_between. cbn [year month day]. split; [reflexivity|lia].
    + rewrite (valid_first_day (y - 1) (12 - m)) by lia.
      cbn [bind]. eexists; split; [reflexivity|].
      split; [apply valid_first_day; lia|].
      unfold months_between. cbn [year month day]. split; [reflexivity|lia].
  - intros [-> Hm4].
    replace (m >? 4)%Z with false by lia.
    unfold valid_date. cbn [year month day]. reflexivity.
Qed.

Lemma time_period_window_witness :
  (exists start,
      time_period (mkdate 2024 3 15) = Ok (start, mkdate 2024 3 1)
      /\ valid_date start = true /\ day start = 1%Z
      /\ months_between start (mkdate 2024 3 1) = 6%Z)
  /\ time_period (mkdate 1 3 15) = Raise ValueError.
Proof.
  split.
  - apply (proj1 (time_period_window (mkdate 2024 3 15) eq_refl)).
    left. simpl. lia.
  - apply (proj2 (time_period_window (mkdate 1 3 15) eq_refl)).
    simpl. lia.
Defined.

(* ================================================================= *)
(** * The title of the report *)

Section Calendar.

Lemma year_digits (y : Z) :
  exists a b c e : Z,
    (y = 400 * a + 100 * b + 4 * c + e + 1
     /\ 0 <= b <= 3 /\ 0 <= c <= 24 /\ 0 <= e <= 3)%Z.
Proof.
  exists ((y - 1) / 400)%Z, ((y - 1) mod 400 / 100)%Z,
    ((y - 1) mod 400 mod 100 / 4)%Z, ((y - 1) mod 400 mod 100 mod 4)%Z.
  Z.div_mod_to_equations. lia.
Qed.

Lemma days_before_year_digits (a b c e : Z) :
  (0 <= b <= 3 -> 0 <= c <= 24 -> 0 <= e <= 3 ->
   _days_before_year (400 * a + 100 * b + 4 * c + e + 1)
   = 146097 * a + 36524 * b + 1461 * c + 365 * e)%Z.
Proof.
  intros Hb Hc He. unfold _days_before_year. cbv zeta.
  replace (400 * a + 100 * b + 4 * c + e + 1 - 1)%Z
    with (400 * a + 100 * b + 4 * c + e)%Z by ring.
  rewrite <- (Z.div_unique (400 * a + 100 * b + 4 * c + e) 4
                (100 * a + 25 * b + c) e) by lia.
  rewrite <- (Z.div_unique (400 * a + 100 * b + 4 * c + e) 100
                (4 * a + b) (4 * c + e)) by lia.
  rewrite <- (Z.div_unique (400 * a + 100 * b + 4 * c + e) 400
                a (100 * b + 4 * c + e)) by lia.
  ring.
Qed.

Lemma is_leap_digits (a b c e : Z) :
  (0 <= b <= 3 -> 0 <= c <= 24 -> 0 <= e <= 3 ->
   is_leap (400 * a + 100 * b + 4 * c + e + 1)
   = (e =? 3) && (negb (c =? 24) || (b =? 3)))%Z.
Proof.
  intros Hb Hc He. unfold is_leap.
  set (y := (400 * a + 100 * b + 4 * c + e + 1)%Z).
  assert (H4 : (y mod 4 = (e + 1) mod 4)%Z).
  { unfold y.
    replace (400 * a + 100 * b + 4 * c + e + 1)%Z
      with (e + 1 + (100 * a + 25 * b + c) * 4)%Z by ring.
    apply Z.mod_add. discriminate. }
  assert (H100 : (y mod 100 = (4 * c + e + 1) mod 100)%Z).
  { unfold y.
    replace (400 * a + 100 * b + 4 * c + e + 1)%Z
      with (4 * c + e + 1 + (4 * a + b) * 100)%Z by ring.
    apply Z.mod_add. discriminate. }
  assert (H400 : (y mod 400 = (100 * b + 4 * c + e + 1) mod 400)%Z).
  { unfold y.
    replace (400 * a + 100 * b + 4 * c + e + 1)%Z
      with (100 * b + 4 * c + e + 1 + a * 400)%Z by ring.
    apply Z.mod_add. discriminate. }
  rewrite H4, H100, H400. clear H4 H100 H400. clearbody y.
  apply eq_true_iff_eq.
  rewrite !andb_true_iff, !orb_true_iff, !negb_true_iff, !Z.eqb_eq, !Z.eqb_neq.
  Z.div_mod_to_equations. lia.
Qed.

Lemma digit_div (r q d : Z) :
  (0 <= r < d)%Z -> ((r + q * d) / d = q /\ (r + q * d) mod d = r)%Z.
Proof.
  intros H. split.
  - rewrite Z.div_add, Z.div_small by lia. reflexivity.
  - rewrite Z.mod_add by lia. apply Z.mod_small. lia.
Qed.

Lemma ord2ymd_digits (a b c e k : Z) :
  (0 <= b <= 3)%Z -> (0 <= c <= 24)%Z -> (0 <= e <= 3)%Z ->
  let y := (400 * a + 100 * b + 4 * c + e + 1)%Z in
  let leapyear := ((e =? 3) && (negb (c =? 24) || (b =? 3)))%Z in
  (0 <= k < 365 + (if leapyear then 1 else 0))%Z ->
  _ord2ymd (146097 * a + 36524 * b + 1461 * c + 365 * e + k + 1)
  = if (k =? 365)%Z then mkdate y 12 31 else month_day_of y leapyear k.
Proof.
  intros Hb Hc He y leapyear Hk.
  assert (Hle : (k <= 365)%Z).
  { revert Hk. subst leapyear.
    destruct ((e =? 3) && (negb (c =? 24) || (b =? 3)))%Z; lia. }
  assert (Hleap : k = 365%Z -> (e = 3 /\ (c <> 24 \/ b = 3))%Z).
  { intros ->. subst leapyear.
    destruct (e =? 3)%Z eqn:E3; [|simpl in Hk; lia].
    destruct (c =? 24)%Z eqn:E24, (b =? 3)%Z eqn:E33; simpl in Hk;
      rewrite ?Z.eqb_eq, ?Z.eqb_neq in *; lia. }
  unfold _ord2ymd, _DI400Y, _DI100Y, _DI4Y. cbv zeta.
  set (R1 := (36524 * b + 1461 * c + 365 * e + k)%Z).
  replace (146097 * a + 36524 * b + 1461 * c + 365 * e + k + 1 - 1)%Z
    with (R1 + a * 146097)%Z by (unfold R1; ring).
  assert (HR1 : (0 <= R1 < 146097)%Z).
  { unfold R1. destruct (Z.eq_dec k 365) as [E|E]; [|lia].
    destruct (Hleap E) as [-> [H|H]]; lia. }
  destruct (digit_div R1 a 146097 HR1) as [-> ->].
  destruct (Z.eq_dec k 365) as [Ek|Ek].
  - destruct (Hleap Ek) as [-> Hcb]. subst k.
    rewrite Z.eqb_refl.
    destruct (Z.eq_dec c 24) as [Ec|Ec].
    + assert (b = 3%Z) by lia. subst b c. subst R1 y.
      change (36524 * 3 + 1461 * 24 + 365 * 3 + 365)%Z with (0 + 4 * 36524)%Z.
      destruct (digit_div 0 4 36524) as [-> ->]; [lia|].
      match goal with
      | |- (if ?cond then _ else _) = _ => change cond with true
      end.
      cbv iota. f_equal.
      change (0 mod 1461 / 365)%Z with 0%Z. change (0 / 1461)%Z with 0%Z. lia.
    + set (R2 := (1460 + c * 1461)%Z).
      replace R1 with (R2 + b * 36524)%Z by (unfold R1, R2; ring).
      destruct (digit_div R2 b 36524) as [-> ->]; [unfold R2; lia|].
      unfold R2.
      destruct (digit_div 1460 c 1461) as [-> ->]; [lia|].
      change (1460 / 365)%Z with 4%Z.
      change ((4 =? 4)%Z || (b =? 4)%Z) with true.
      cbv iota. unfold y. f_equal. lia.
  - assert (Hk' : (0 <= k <= 364)%Z) by lia.
    replace (k =? 365)%Z with false by lia.
    set (R2 := (365 * e + k + c * 1461)%Z).
    replace R1 with (R2 + b * 36524)%Z by (unfold R1, R2; ring).
    destruct (digit_div R2 b 36524) as [-> ->]; [unfold R2; lia|].
    unfold R2.
    destruct (digit_div (365 * e + k) c 1461) as [-> ->]; [lia|].
    replace (365 * e + k)%Z with (k + e * 365)%Z by ring.
    destruct (digit_div k e 365) as [-> ->]; [lia|].
    replace ((e =? 4) || (b =? 4))%Z with false by lia.
    replace (a * 400 + 1 + (b * 100 + c * 4 + e))%Z with y by (unfold y; ring).
    reflexivity.
Qed.

Lemma ord2ymd_day_of_year (y k : Z) :
  (0 <= k < 365 + (if is_leap y then 1 else 0))%Z ->
  _ord2ymd (_days_before_year y + k + 1)
  = if (k =? 365)%Z then mkdate y 12 31 else month_day_of y (is_leap y) k.
Proof.
  destruct (year_digits y) as (a & b & c & e & -> & Hb & Hc & He).
  rewrite (days_before_year_digits a b c e Hb Hc He).
  rewrite (is_leap_digits a b c e Hb Hc He).
  apply ord2ymd_digits; assumption.
Qed.

Lemma month_day_of_year (y : Z) (leapyear : bool) (n : Z) :
  month_day_of y leapyear n
  = mkdate y (month (month_day_of 0 leapyear n))
      (day (month_day_of 0 leapyear n)).
Proof.
  unfold month_day_of. cbv zeta.
  destruct (_ >? n)%Z; reflexivity.
Qed.

Lemma month_day_checked :
  forallb (fun leapyear =>
    forallb (fun m =>
      forallb (fun d => month_day_check leapyear (Z.of_nat m) (Z.of_nat d))
        (seq 1 31))
      (seq 1 12))
    [false; true] = true.
Proof. vm_compute. reflexivity. Qed.

Lemma days_in_month_le (y m : Z) : (28 <= days_in_month y m <= 31)%Z.
Proof.
  unfold days_in_month.
  destruct (m =? 2)%Z; [destruct (is_leap y); lia|].
  destruct ((m =? 4) || (m =? 6) || (m =? 9) || (m =? 11))%Z; lia.
Qed.

Lemma days_before_month_bounds (m : Z) (leap : bool) :
  (1 <= m <= 12)%Z ->
  (0 <= nth (Z.to_nat m) _DAYS_BEFORE_MONTH 0
        + (if (m >? 2) && leap then 1 else 0)
   /\ (2 <= m ->
       31 <= nth (Z.to_nat m) _DAYS_BEFORE_MONTH 0
             + (if (m >? 2) && leap then 1 else 0))
   /\ nth (Z.to_nat m) _DAYS_BEFORE_MONTH 0
      + (if (m >? 2) && leap then 1 else 0)
      + (if (m =? 2) then (if leap then 29 else 28)
         else if ((m =? 4) || (m =? 6) || (m =? 9) || (m =? 11)) then 30
         else 31)
      <= 365 + (if leap then 1 else 0))%Z.
Proof.
  intros Hm.
  assert (H : (m = 1 \/ m = 2 \/ m = 3 \/ m = 4 \/ m = 5 \/ m = 6 \/ m = 7
               \/ m = 8 \/ m = 9 \/ m = 10 \/ m = 11 \/ m = 12)%Z) by lia.
  clear Hm.
  repeat (destruct H as [->|H];
          [destruct leap; vm_compute; intuition discriminate|]).
  subst m. destruct leap; vm_compute; intuition discriminate.
Qed.

(** The date of the number of a day is the day: [_ord2ymd] undoes
    [_ymd2ord], in every year. *)
Lemma ord2ymd_ymd2ord (y m d : Z) :
  (1 <= m <= 12)%Z -> (1 <= d <= days_in_month y m)%Z ->
  _ord2ymd (_ymd2ord y m d) = mkdate y m d.
Proof.
  intros Hm Hd.
  pose proof (days_in_month_le y m) as Hdim.
  pose proof (days_before_month_bounds m (is_leap y) Hm) as (Hb0 & _ & Hb2).
  pose proof month_day_checked as H.
  rewrite forallb_forall in H.
  specialize (H (is_leap y)
                ltac:(destruct (is_leap y); [right; left|left]; reflexivity)).
  rewrite forallb_forall in H.
  specialize (H (Z.to_nat m)). rewrite in_seq in H.
  specialize (H ltac:(lia)). rewrite forallb_forall in H.
  specialize (H (Z.to_nat d)). rewrite in_seq in H.
  specialize (H ltac:(lia)).
  rewrite !Z2Nat.id in H by lia.
  unfold month_day_check in H. cbv zeta in H.
  unfold days_in_month in Hd.
  replace (d <=? _)%Z with true in H by lia.
  fold (_days_before_month y m) in H, Hb0, Hb2.
  unfold _ymd2ord.
  replace (_days_before_year y + _days_before_month y m + d)%Z
    with (_days_before_year y + (_days_before_month y m + d - 1) + 1)%Z by ring.
  rewrite ord2ymd_day_of_year by lia.
  destruct (_days_before_month y m + d - 1 =? 365)%Z.
  - apply andb_true_iff in H as [H1 H2]. apply Z.eqb_eq in H1, H2.
    now subst m d.
  - rewrite month_day_of_year.
    apply andb_true_iff in H as [H1 H2]. apply Z.eqb_eq in H1, H2.
    now rewrite H1, H2.
Qed.

Lemma days_before_year_succ (y : Z) :
  (_days_before_year (y + 1)
   = _days_before_year y + 365 + (if is_leap y then 1 else 0))%Z.
Proof.
  unfold _days_before_year, is_leap. cbv zeta.
  replace (y + 1 - 1)%Z with y by ring.
  destruct (y mod 4 =? 0)%Z eqn:E4, (y mod 100 =? 0)%Z eqn:E100,
    (y mod 400 =? 0)%Z eqn:E400; cbn [andb orb negb];
    rewrite ?Z.eqb_eq, ?Z.eqb_neq in *;
    Z.div_mod_to_equations; lia.
Qed.

Lemma days_before_month_succ (y m : Z) :
  (1 <= m <= 11)%Z ->
  (_days_before_month y (m + 1) = _days_before_month y m + days_in_month y m)%Z.
Proof.
  intros Hm. unfold _days_before_month, days_in_month.
  assert (H : (m = 1 \/ m = 2 \/ m = 3 \/ m = 4 \/ m = 5 \/ m = 6 \/ m = 7
               \/ m = 8 \/ m = 9 \/ m = 10 \/ m = 11)%Z) by lia.
  clear Hm. generalize (is_leap y). intros leap.
  repeat (destruct H as [->|H]; [destruct leap; reflexivity|]).
  subst m. destruct leap; reflexivity.
Qed.

(** Four weeks before a day of the month [m] lies the month before when
    the day is at most the 28th, and [m] itself after that, in every
    year. *)
Lemma four_weeks_before (y m d : Z) :
  (1 <= m <= 12)%Z -> (1 <= d <= days_in_month y m)%Z ->
  let r := _ord2ymd (_ymd2ord y m d - 28) in
  let s := months_before (if (d <=? 28)%Z then 1 else 0) (mkdate y m d) in
  year r = year s /\ month r = month s.
Proof.
  intros Hm Hd. cbv zeta. unfold months_before. cbn [year month day].
  destruct (d <=? 28)%Z eqn:E28.
  - apply Z.leb_le in E28. destruct (Z.eq_dec m 1) as [->|Hm1].
    + replace (_ymd2ord y 1 d - 28)%Z with (_ymd2ord (y - 1) 12 (d + 3)).
      * rewrite ord2ymd_ymd2ord; [|lia|].
        -- cbn [year month]. split; Z.div_mod_to_equations; lia.
        -- change (days_in_month (y - 1) 12) with 31%Z. lia.
      * unfold _ymd2ord.
        replace (_days_before_year y) with (_days_before_year (y - 1 + 1))
          by (f_equal; ring).
        rewrite days_before_year_succ. unfold _days_before_month.
        change (nth (Z.to_nat 12) _DAYS_BEFORE_MONTH 0%Z) with 334%Z.
        change (nth (Z.to_nat 1) _DAYS_BEFORE_MONTH 0%Z) with 0%Z.
        change (12 >? 2)%Z with true. change (1 >? 2)%Z with false.
        cbn [andb]. ring.
    + pose proof (days_in_month_le y (m - 1)) as Hdim.
      replace (_ymd2ord y m d - 28)%Z
        with (_ymd2ord y (m - 1) (d + days_in_month y (m - 1) - 28)).
      * rewrite ord2ymd_ymd2ord by lia.
        cbn [year month]. split; Z.div_mod_to_equations; lia.
      * unfold _ymd2ord.
        replace (_days_before_month y m)
          with (_days_before_month y (m - 1 + 1)) by (f_equal; ring).
        rewrite days_before_month_succ by lia. ring.
  - apply Z.leb_gt in E28.
    replace (_ymd2ord y m d - 28)%Z with (_ymd2ord y m (d - 28))
      by (unfold _ymd2ord; ring).
    rewrite ord2ymd_ymd2ord by lia.
    cbn [year month]. split; Z.div_mod_to_equations; lia.
Qed.

Lemma toordinal_bounds (d : date) :
  valid_date d = true ->
  (1 <= toordinal d <= _MAXORDINAL
   /\ (2 <= year d \/ 2 <= month d \/ 29 <= day d -> 29 <= toordinal d)
   /\ (year d = 1 -> month d = 1 -> toordinal d = day d))%Z.
Proof.
  destruct d as [y m d]. unfold valid_date, toordinal, _ymd2ord.
  cbn [year month day]. intros Hv.
  repeat (apply andb_true_iff in Hv as [Hv ?]).
  assert (Hm : (1 <= m <= 12)%Z) by lia.
  pose proof (days_before_month_bounds m (is_leap y) Hm) as (Hb0 & Hb1 & Hb2).
  fold (_days_before_month y m) in Hb0, Hb1, Hb2.
  assert (Hd : (d <= days_in_month y m)%Z) by lia.
  unfold days_in_month in Hd.
  assert (Hy : (0 <= _days_before_year y
                /\ (2 <= y -> 365 <= _days_before_year y)
                /\ (y = 1 -> _days_before_year y = 0)
                /\ (y <= 9998 -> _days_before_year y <= 3651329)
                /\ (y = 9999 -> _days_before_year y = 3651694
                                /\ is_leap y = false))%Z).
  { unfold _days_before_year. cbv zeta.
    split; [Z.div_mod_to_equations; lia|].
    split; [intros ?; Z.div_mod_to_equations; lia|].
    split; [now intros ->|].
    split; [intros ?; Z.div_mod_to_equations; lia|].
    intros ->. split; reflexivity. }
  destruct Hy as (Hy0 & Hy1 & Hy2 & Hy3 & Hy4).
  unfold _MAXORDINAL.
  assert (Hleap : (0 <= (if is_leap y then 1 else 0) <= 1)%Z)
    by (destruct (is_leap y); lia).
  split; [|split].
  - destruct (Z.eq_dec y 9999) as [E|E].
    + destruct (Hy4 E) as [Hv9 Hl9]. rewrite Hl9 in *. lia.
    + lia.
  - lia.
  - intros -> ->. rewrite (Hy2 eq_refl). reflexivity.
Qed.

End Calendar.

(** X12: the title of the posted report names the month of the day 28
    days before today.  Up to the 28th of a month that is the month
    before, and on the 29th, 30th and 31st it is the current month.  In
    the first 28 days of year 1 there is no such day and [OverflowError]
    is raised. *)
Theorem report_title_month (today : date) :
  valid_date today = true ->
  ((2 <= year today \/ 2 <= month today \/ 29 <= day today)%Z ->
   report_title today
   = Ok (lit "Costs report for "
         ++ strftime_B_Y
              (months_before (if (day today <=? 28)%Z then 1 else 0) today)))
  /\ ((year today = 1 /\ month today = 1 /\ day today <= 28)%Z ->
      report_title today = Raise OverflowError).
Proof.
  intros Hv.
  destruct (toordinal_bounds today Hv) as ((Hlo & Hhi) & H29 & H1).
  unfold report_title, sub_days. split.
  - intros Hday. specialize (H29 Hday).
    replace ((0 <? toordinal today - 28) && (toordinal today - 28 <=? _MAXORDINAL))%Z
      with true by (symmetry; apply andb_true_iff; split; lia).
    cbn [bind]. do 2 f_equal.
    destruct today as [y m d]. unfold valid_date in Hv.
    cbn [year month day] in *.
    repeat (apply andb_true_iff in Hv as [Hv ?]).
    destruct (four_weeks_before y m d) as [Ey Em]; [lia|lia|].
    unfold strftime_B_Y, toordinal. cbn [year month day].
    now rewrite Ey, Em.
  - intros (Hy & Hm & Hd). rewrite (H1 Hy Hm).
    replace (0 <? day today - 28)%Z with false by lia.
    reflexivity.
Qed.

Lemma report_title_month_witness :
  report_title (mkdate 2024 3 28) = Ok (lit "Costs report for February 2024")
  /\ report_title (mkdate 2024 3 29) = Ok (lit "Costs report for March 2024")
  /\ report_title (mkdate 1 1 28) = Raise OverflowError.
Proof.
  split; [|split].
  - apply (proj1 (report_title_month (mkdate 2024 3 28) eq_refl)).
    left. simpl. lia.
  - apply (proj1 (report_title_month (mkdate 2024 3 29) eq_refl)).
    left. simpl. lia.
  - apply (proj2 (report_title_month (mkdate 1 1 28) eq_refl)).
    simpl. lia.
Defined.

(* ================================================================= *)
(** * The Elastic Cloud bill *)

Section ElasticCloud.

Lemma new_date_first (y m : Z) :
  (1 <= y <= 9999)%Z -> (1 <= m <= 12)%Z ->
  new_date y m 1 = Ok (mkdate y m 1).
Proof.
  intros Hy Hm. unfold new_date, c_int.
  rewrite (valid_first_day y m Hy Hm).
  replace (_ && _ && _) with true; [reflexivity|].
  symmetry. repeat (apply andb_true_iff; split); lia.
Qed.

Lemma new_date_invalid (y m d : Z) :
  valid_date (mkdate y m d) = false ->
  exists e, new_date y m d = Raise e /\ (e = ValueError \/ e = OverflowError).
Proof.
  intros H. unfold new_date. rewrite H.
  destruct (c_int y && c_int m && c_int d); eauto.
Qed.

Lemma set_item_fresh (V : Type) (d : list (MonthKey * V)) (k : MonthKey) (v : V) :
  ~ In k (map fst d) -> set_item d k v = d ++ [(k, v)].
Proof.
  induction d as [|[k' v'] d IH]; simpl; [reflexivity|].
  intros Hn. destruct (key_eqb k' k) eqn:Ek.
  - apply key_eqb_eq in Ek. subst k'. exfalso. apply Hn. now left.
  - rewrite IH; [reflexivity|]. intros Hin. apply Hn. now right.
Qed.

Lemma month_range_valid (block : MonthKey) :
  valid_block block = true ->
  month_range (fst block) (snd block)
  = Ok (first_day block, next_first_day block).
Proof.
  destruct block as [y m]. unfold valid_block, next_first_day, first_day.
  cbn [fst snd]. intros Hv.
  repeat (apply andb_true_iff in Hv as [Hv ?]).
  assert (Hy : (1 <= y <= 9999)%Z) by lia.
  assert (Hm : (1 <= m <= 12)%Z) by lia.
  unfold month_range, months_before. cbn [year month day].
  rewrite (new_date_first y m Hy Hm). cbn [bind].
  destruct (m =? 12)%Z eqn:E12.
  - apply Z.eqb_eq in E12. subst m.
    rewrite (new_date_first (y + 1) 1) by lia. cbn [bind].
    do 3 f_equal; Z.div_mod_to_equations; lia.
  - apply Z.eqb_neq in E12.
    rewrite (new_date_first y (m + 1)) by lia. cbn [bind].
    do 3 f_equal; Z.div_mod_to_equations; lia.
Qed.

Lemma month_range_invalid (block : MonthKey) :
  valid_block block = false ->
  exists e, month_range (fst block) (snd block) = Raise e
            /\ (e = ValueError \/ e = OverflowError).
Proof.
  destruct block as [y m]. unfold valid_block. cbn [fst snd]. intros Hv.
  unfold month_range.
  destruct (Z.eq_dec y 9999) as [Ey|Ey];
    [destruct (Z.eq_dec m 12) as [Em|Em]|].
  - subst y m. exists ValueError. split; [reflexivity|now left].
  - destruct (new_date_invalid y m 1) as (e & -> & He);
      [|exists e; split; [reflexivity|exact He]].
    unfold valid_date. cbn [year month day]. lia.
  - destruct (new_date_invalid y m 1) as (e & -> & He);
      [|exists e; split; [reflexivity|exact He]].
    unfold valid_date. cbn [year month day]. lia.
Qed.

Variables C E : Type.
Variable costs_for_range : date -> date -> reply C E.

Lemma elastic_months_kept (date_blocks : list MonthKey)
  (amounts : list (kept C)) (result : list (MonthKey * kept C)) :
  NoDup (map fst result ++ date_blocks) ->
  map (month_cost costs_for_range) date_blocks = map Some amounts ->
  elastic_months costs_for_range date_blocks result
  = inr (result ++ combine date_blocks amounts).
Proof.
  revert amounts result.
  induction date_blocks as [|[y m] blocks IH]; intros amounts result Hnd Hm.
  - simpl. now rewrite app_nil_r.
  - destruct amounts as [|a amounts]; [discriminate|].
    cbn [map] in Hm. injection Hm as Ha Hm.
    assert (Hfresh : ~ In (y, m) (map fst result)).
    { apply NoDup_remove_2 in Hnd. intros Hin. apply Hnd.
      apply in_or_app. now left. }
    assert (Hnd' : forall v : kept C,
               NoDup (map fst (result ++ [((y, m), v)]) ++ blocks)).
    { intros v. rewrite map_app, <- app_assoc. exact Hnd. }
    unfold month_cost in Ha. cbn [fst snd] in Ha.
    cbn [elastic_months combine].
    destruct (month_range y m) as [[from_date to_date]|e]; [|discriminate].
    destruct (costs_for_range from_date to_date) as [c| |e];
      [| |discriminate]; injection Ha as <-;
      rewrite set_item_fresh by exact Hfresh;
      rewrite (IH amounts _ (Hnd' _) Hm), <- app_assoc; reflexivity.
Qed.

Lemma month_cost_answered (block : MonthKey) :
  answered costs_for_range block ->
  exists v, month_cost costs_for_range block = Some v
            /\ kept_reply costs_for_range (block, v).
Proof.
  intros [Hv Hno]. unfold month_cost, kept_reply. cbn [fst snd].
  rewrite (month_range_valid block Hv).
  destruct (costs_for_range (first_day block) (next_first_day block))
    as [c| |e] eqn:Hc.
  - now exists (Fetched c).
  - now exists IntZero.
  - destruct (Hno e eq_refl).
Qed.

Lemma month_costs_answered (date_blocks : list MonthKey) :
  Forall (answered costs_for_range) date_blocks ->
  exists amounts,
    map (month_cost costs_for_range) date_blocks = map Some amounts
    /\ Forall (kept_reply costs_for_range) (combine date_blocks amounts)
    /\ map fst (combine date_blocks amounts) = date_blocks.
Proof.
  induction 1 as [|b blocks Hb _ (amounts & Hm & Hk & Hf)].
  - exists []. repeat split; constructor.
  - destruct (month_cost_answered b Hb) as (v & Hv & Hkv).
    exists (v :: amounts). cbn [map combine fst].
    rewrite Hv, Hm, Hf. repeat split. now constructor.
Qed.

Lemma elastic_months_prefix (before rest : list MonthKey) :
  Forall (answered costs_for_range) before ->
  forall result, exists result',
    elastic_months costs_for_range (before ++ rest) result
    = elastic_months costs_for_range rest result'.
Proof.
  induction 1 as [|b before Hb _ IH]; intros result.
  - now exists result.
  - destruct (month_cost_answered b Hb) as (v & Hv & _).
    destruct Hb as [Hvalid _]. unfold month_cost in Hv.
    destruct b as [y m]. cbn [app elastic_months].
    pose proof (month_range_valid (y, m) Hvalid) as Hr.
    cbn [fst snd] in Hr, Hv. rewrite Hr in *.
    destruct (costs_for_range (first_day (y, m)) (next_first_day (y, m)))
      as [c| |e]; [apply IH|apply IH|discriminate].
Qed.

End ElasticCloud.

(** X13: the range asked of Elastic Cloud for a date block.  For a month
    of the years 1 to 9999 other than December 9999 the range runs from
    the first day of the month to the first day of the next month, in
    January of the next year for December, and is as many days long as the
    month has.  For another year or month, and for December 9999, a date
    of the range does not exist and an exception is raised. *)
Theorem month_range_calendar (y m : Z) :
  ((1 <= y <= 9999 /\ 1 <= m <= 12 /\ (y < 9999 \/ m < 12))%Z ->
   let from_date := mkdate y m 1 in
   let to_date := months_before (-1) from_date in
   month_range y m = Ok (from_date, to_date)
   /\ valid_date from_date = true /\ valid_date to_date = true
   /\ (toordinal to_date - toordinal from_date = days_in_month y m)%Z)
  /\ ((y < 1 \/ 9999 < y \/ m < 1 \/ 12 < m \/ (y = 9999 /\ m = 12))%Z ->
      exists e, month_range y m = Raise e
                /\ (e = ValueError \/ e = OverflowError)).
Proof.
  split.
  - intros (Hy & Hm & Hlast). cbv zeta.
    split.
    { apply (month_range_valid (y, m)). unfold valid_block. cbn [fst snd].
      repeat (apply andb_true_iff; split); lia. }
    unfold months_before. cbn [year month day].
    destruct (Z.eq_dec m 12) as [->|E12].
    + replace ((y * 12 + (12 - 1) - -1) / 12)%Z with (y + 1)%Z
        by (Z.div_mod_to_equations; lia).
      replace ((y * 12 + (12 - 1) - -1) mod 12 + 1)%Z with 1%Z
        by (Z.div_mod_to_equations; lia).
      repeat split; try (apply valid_first_day; lia).
      unfold toordinal, _ymd2ord. cbn [year month day].
      rewrite days_before_year_succ.
      unfold _days_before_month, days_in_month.
      generalize (_days_before_year y). intros b.
      change (nth (Z.to_nat 1) _DAYS_BEFORE_MONTH 0%Z) with 0%Z.
      change (nth (Z.to_nat 12) _DAYS_BEFORE_MONTH 0%Z) with 334%Z.
      change (1 >? 2)%Z with false. change (12 >? 2)%Z with true.
      change (12 =? 2)%Z with false.
      change ((12 =? 4) || (12 =? 6) || (12 =? 9) || (12 =? 11))%Z with false.
      cbn [andb]. destruct (is_leap y); lia.
    + replace ((y * 12 + (m - 1) - -1) / 12)%Z with y
        by (Z.div_mod_to_equations; lia).
      replace ((y * 12 + (m - 1) - -1) mod 12 + 1)%Z with (m + 1)%Z
        by (Z.div_mod_to_equations; lia).
      repeat split; try (apply valid_first_day; lia).
      unfold toordinal, _ymd2ord. cbn [year month day].
      rewrite days_before_month_succ by lia. lia.
  - intros H. apply (month_range_invalid (y, m)).
    unfold valid_block. cbn [fst snd]. lia.
Qed.

Lemma month_range_calendar_witness :
  (month_range 2023 12 = Ok (mkdate 2023 12 1, mkdate 2024 1 1)
   /\ valid_date (mkdate 2023 12 1) = true
   /\ valid_date (mkdate 2024 1 1) = true
   /\ (toordinal (mkdate 2024 1 1) - toordinal (mkdate 2023 12 1) = 31)%Z)
  /\ exists e, month_range 2024 13 = Raise e
               /\ (e = ValueError \/ e = OverflowError).
Proof.
  split.
  - apply (proj1 (month_range_calendar 2023 12)). lia.
  - apply (proj2 (month_range_calendar 2024 13)). lia.
Defined.

(** X14: the Elastic Cloud bill.  When the date blocks are distinct
    months that exist and every request is answered with a total or with
    an [HTTPError], the bill has one entry for every block, in the order of
    the blocks: the total of the reply, or the int 0 where the reply was an
    [HTTPError].  After blocks that were answered, a request that raises
    something else ends the function with that exception, and a block
    whose month does not exist ends it with the exception of the date. *)
Theorem elastic_bill_months (C E : Type)
  (costs_for_range : date -> date -> reply C E) :
  (forall date_blocks : list MonthKey,
      NoDup date_blocks ->
      Forall (answered costs_for_range) date_blocks ->
      exists result,
        get_elastic_cloud_bill costs_for_range date_blocks = inr result
        /\ map fst result = date_blocks
        /\ Forall (kept_reply costs_for_range) result)
  /\ (forall (before after : list MonthKey) (block : MonthKey) (e : E),
         Forall (answered costs_for_range) before ->
         valid_block block = true ->
         costs_for_range (first_day block) (next_first_day block)
         = OtherError e ->
         get_elastic_cloud_bill costs_for_range (before ++ block :: after)
         = inl (RequestError e))
  /\ (forall (before after : list MonthKey) (block : MonthKey),
         Forall (answered costs_for_range) before ->
         valid_block block = false ->
         exists e,
           get_elastic_cloud_bill costs_for_range (before ++ block :: after)
           = inl (DateError e)
           /\ (e = ValueError \/ e = OverflowError)).
Proof.
  split; [|split].
  - intros date_blocks Hnd Hall.
    destruct (month_costs_answered C E costs_for_range date_blocks Hall)
      as (amounts & Hm & Hk & Hf).
    exists (combine date_blocks amounts). split; [|split; assumption].
    unfold get_elastic_cloud_bill.
    now rewrite (elastic_months_kept C E costs_for_range date_blocks amounts []).
  - intros before after [y m] e Hall Hv Hc. unfold get_elastic_cloud_bill.
    destruct (elastic_months_prefix C E costs_for_range before
                ((y, m) :: after) Hall []) as [result' Hpre].
    etransitivity; [exact Hpre|].
    cbn [elastic_months].
    pose proof (month_range_valid (y, m) Hv) as Hr.
    cbn [fst snd] in Hr. now rewrite Hr, Hc.
  - intros before after [y m] Hall Hv. unfold get_elastic_cloud_bill.
    destruct (elastic_months_prefix C E costs_for_range before
                ((y, m) :: after) Hall []) as [result' Hpre].
    destruct (month_range_invalid (y, m) Hv) as (e & He & Hor).
    exists e. split; [|exact Hor].
    etransitivity; [exact Hpre|].
    cbn [elastic_months]. cbn [fst snd] in He. now rewrite He.
Qed.

Lemma elastic_bill_months_witness :
  exists result,
    get_elastic_cloud_bill sample_costs [(2024, 1); (2024, 2)]%Z = inr result
    /\ map fst result = [(2024, 1); (2024, 2)]%Z
    /\ Forall (kept_reply sample_costs) result.
Proof.
  apply (proj1 (elastic_bill_months Z unit sample_costs)).
  - repeat (apply NoDup_cons; [simpl; intuition discriminate|]).
    apply NoDup_nil.
  - repeat (constructor; [split; [reflexivity|intros e; discriminate]|]).
    constructor.
Defined.

(* ================================================================= *)
(** * The reply of the cost service *)

Section Entries.

Variable strptime : str -> result date.
Variable float_of_str : str -> result float.

Lemma set_item_get (d : AccountBills) (k' k : MonthKey) (v : float) :
  dict_get (set_item d k' v) k
  = if key_eqb k' k then Some v else dict_get d k.
Proof.
  induction d as [|[k0 v0] d IH]; simpl.
  - reflexivity.
  - destruct (key_eqb k0 k') eqn:E0; simpl.
    + apply key_eqb_eq in E0. subst k0.
      destruct (key_eqb k' k); reflexivity.
    + rewrite IH. destruct (key_eqb k0 k) eqn:E1; [|reflexivity].
      apply key_eqb_eq in E1. subst k0.
      destruct (key_eqb k' k) eqn:E2; [|reflexivity].
      apply key_eqb_eq in E2. subst k'. now rewrite key_eqb_refl in E0.
Qed.

Lemma set_item_keys (V : Type) (d : list (MonthKey * V)) (k' k : MonthKey)
  (v : V) :
  In k (map fst (set_item d k' v)) <-> k = k' \/ In k (map fst d).
Proof.
  induction d as [|[k0 v0] d IH]; simpl.
  - intuition.
  - destruct (key_eqb k0 k') eqn:E; simpl.
    + apply key_eqb_eq in E. subst k0. intuition.
    + rewrite IH. intuition.
Qed.

Lemma set_item_nodup (V : Type) (d : list (MonthKey * V)) (k : MonthKey)
  (v : V) :
  NoDup (map fst d) ->
  NoDup (map fst (set_item d k v)) /\ length (set_item d k v) <= S (length d).
Proof.
  induction d as [|[k0 v0] d IH]; simpl; intros Hnd.
  - split; [|lia]. constructor; [intros []|constructor].
  - apply NoDup_cons_iff in Hnd as [Hn Hnd].
    destruct (key_eqb k0 k) eqn:E; simpl.
    + split; [now constructor|lia].
    + destruct (IH Hnd) as [IH1 IH2]. split; [|lia].
      constructor; [|exact IH1].
      rewrite set_item_keys. intros [->|Hin]; [|contradiction].
      now rewrite key_eqb_refl in E.
Qed.

Lemma find_snoc (A : Type) (f : A -> bool) (l : list A) (x : A) :
  find f (l ++ [x])
  = match find f l with
    | Some y => Some y
    | None => if f x then Some x else None
    end.
Proof.
  induction l as [|a l IH]; simpl; [reflexivity|].
  destruct (f a); [reflexivity|exact IH].
Qed.

Lemma bills_of_entries_get (entries : list cost_entry) :
  forall r0 r : AccountBills,
    bills_of_entries strptime float_of_str entries r0 = inr r ->
    NoDup (map fst r0) ->
    (NoDup (map fst r) /\ length r <= length r0 + length entries)
    /\ Forall (fun e => entry_unit e = lit "USD") entries
    /\ forall k : MonthKey,
         match find (starts_in strptime k) (rev entries) with
         | Some e =>
             exists v, float_of_str (entry_amount e) = Ok v
                       /\ dict_get r k = Some v
         | None => dict_get r k = dict_get r0 k
         end.
Proof.
  induction entries as [|e entries IH]; intros r0 r H Hnd.
  - injection H as <-. repeat split; auto. simpl. lia.
  - cbn [bills_of_entries] in H.
    destruct (strptime (entry_start e)) as [start|x] eqn:Hs; [|discriminate].
    destruct (str_eqb (entry_unit e) (lit "USD")) eqn:Hu; [|discriminate].
    destruct (float_of_str (entry_amount e)) as [amount|x] eqn:Hf;
      [|discriminate].
    destruct (set_item_nodup _ r0 (year start, month start) amount Hnd)
      as [Hnd' Hlen'].
    destruct (IH _ _ H Hnd') as ((Hn & Hl) & Hall & Hget).
    split; [split; [exact Hn|simpl; lia]|].
    split; [constructor; [now apply str_eqb_eq|exact Hall]|].
    intros k. specialize (Hget k). cbn [rev].
    rewrite find_snoc.
    destruct (find (starts_in strptime k) (rev entries)) as [e'|];
      [exact Hget|].
    rewrite set_item_get in Hget.
    unfold starts_in. rewrite Hs.
    destruct (key_eqb (year start, month start) k); [|exact Hget].
    now exists amount.
Qed.

Lemma bills_of_entries_assert (before after : list cost_entry)
  (e : cost_entry) (start : date) :
  strptime (entry_start e) = Ok start ->
  str_eqb (entry_unit e) (lit "USD") = false ->
  forall r0 r : AccountBills,
    bills_of_entries strptime float_of_str before r0 = inr r ->
    bills_of_entries strptime float_of_str (before ++ e :: after) r0
    = inl AssertionError.
Proof.
  intros Hs Hu. induction before as [|b before IH]; intros r0 r H.
  - cbn [app bills_of_entries]. now rewrite Hs, Hu.
  - cbn [app bills_of_entries] in *.
    destruct (strptime (entry_start b)) as [sb|x]; [|discriminate].
    destruct (str_eqb (entry_unit b) (lit "USD")); [|discriminate].
    destruct (float_of_str (entry_amount b)) as [amount|x]; [|discriminate].
    exact (IH _ _ H).
Qed.

End Entries.

(** X15: the bills read from the reply of the cost service.  When the
    loop over the entries returns, every entry was in USD, the result has
    every month once and at most as many months as there were entries,
    and the amount of a month is the amount of the last entry that starts
    in it: an earlier entry of the same month is replaced, not added to.
    An entry in another unit whose date is read, after entries that were
    all accepted, ends the loop with [AssertionError]. *)
Theorem bills_of_entries_months
  (strptime : str -> result date) (float_of_str : str -> result float)
  (entries : list cost_entry) :
  (forall r : AccountBills,
      bills_of_entries strptime float_of_str entries [] = inr r ->
      NoDup (map fst r) /\ length r <= length entries
      /\ Forall (fun e => entry_unit e = lit "USD") entries
      /\ forall k : MonthKey,
           match find (starts_in strptime k) (rev entries) with
           | Some e =>
               exists v, float_of_str (entry_amount e) = Ok v
                         /\ dict_get r k = Some v
           | None => dict_get r k = None
           end)
  /\ (forall (before after : list cost_entry) (e : cost_entry)
             (start : date) (r : AccountBills),
         entries = before ++ e :: after ->
         bills_of_entries strptime float_of_str before [] = inr r ->
         strptime (entry_start e) = Ok start ->
         str_eqb (entry_unit e) (lit "USD") = false ->
         bills_of_entries strptime float_of_str entries [] = inl AssertionError).
Proof.
  split.
  - intros r H.
    destruct (bills_of_entries_get strptime float_of_str entries [] r H)
      as ((Hn & Hl) & Hall & Hget); [constructor|].
    repeat split; auto.
  - intros before after e start r -> H Hs Hu.
    exact (bills_of_entries_assert strptime float_of_str before after e start
             Hs Hu [] r H).
Qed.

Lemma bills_of_entries_months_witness :
  bills_of_entries sample_strptime py_float sample_entries []
  = inr [((2024, 1)%Z, 30%float); ((2024, 2)%Z, 20%float)]
  /\ bills_of_entries sample_strptime py_float
       (sample_entries ++ [mk_entry (lit "2024-02-01") (lit "EUR") (lit "1.00")])
       []
     = inl AssertionError.
Proof.
  split; [vm_compute; reflexivity|].
  apply (proj2 (bills_of_entries_months sample_strptime py_float
                  (sample_entries
                   ++ [mk_entry (lit "2024-02-01") (lit "EUR") (lit "1.00")]))
           sample_entries []
           (mk_entry (lit "2024-02-01") (lit "EUR") (lit "1.00"))
           (mkdate 2024 2 1)
           [((2024, 1)%Z, 30%float); ((2024, 2)%Z, 20%float)]);
    vm_compute; reflexivity.
Defined.

(** X16: an account for which the cost service returned at most one entry
    leaves the report without a table: the bills read from the reply have
    at most one month, and a row needs a latest month and a month before
    it. *)
Theorem short_reply_no_table
  (strptime : str -> result date) (float_of_str : str -> result float)
  (entries : list cost_entry) (bills : AccountBills)
  (name : str) (billing_data : BillingData) :
  bills_of_entries strptime float_of_str entries [] = inr bills ->
  length entries <= 1 ->
  In (name, bills) billing_data ->
  exists e, billing_rows billing_data = Raise e.
Proof.
  intros Hb Hlen Hin.
  destruct (bills_of_entries_get strptime float_of_str entries [] bills Hb)
    as ((_ & Hl) & _); [constructor|].
  destruct (billing_rows billing_data) as [rows|e] eqn:Hrows; [|now exists e].
  destruct (billing_rows_rendered _ _ Hrows) as (rendered & _ & _ & Hr & _).
  apply mapM_forall in Hr.
  assert (Hrow : exists r, _render_row name bills = Ok r).
  { clear - Hr Hin.
    induction Hr as [|account r l rs Har _ IH]; [contradiction|].
    destruct Hin as [->|Hin]; [now exists r|now apply IH]. }
  destruct Hrow as [r Hrow].
  destruct (render_row_two_months _ _ _ Hrow) as [H2 _].
  simpl in Hl. lia.
Qed.

Lemma short_reply_no_table_witness :
  exists e,
    billing_rows [(lit "A", account_A); (lit "new", [((2024, 1)%Z, 30%float)])]
    = Raise e.
Proof.
  apply (short_reply_no_table sample_strptime py_float
           [mk_entry (lit "2024-01-01") (lit "USD") (lit "30.00")]
           [((2024, 1)%Z, 30%float)] (lit "new")).
  - vm_compute; reflexivity.
  - simpl; lia.
  - right; left; reflexivity.
Defined.
